(** * Verification of the multi-provider LLM client (src/services/freeLLMService.ts)

    The development embeds the class [FreeLLMService] shallowly:
    - a text is a sequence of UTF-16 code units, as in the language; the
      embedding carries the texts whose code units lie in U+0000 to U+00FF
      (Basic Latin and Latin-1 Supplement), one [ascii] for one code unit,
      its number being the code point (it is not a byte of an encoding:
      U+00A0 is the one unit 160, and a capital E with acute the one unit
      201).  On these texts the character operations of JavaScript ([trim],
      [toLowerCase], the regex classes [\s], [\d], [.] and the [i] flag) are
      the language's own; texts with code units from U+0100 on are outside
      the embedding;
    - the regular expressions of [parseAIResponse] run on a small
      backtracking matcher that follows the ECMAScript rules (greedy and lazy
      repetition, alternation order, capture groups, the empty-iteration check);
    - Numbers are given by their exact rational values; the one product
      the parser computes, [Math.random() * 500], is rounded to the nearest
      binary64 value as the language does ([Double]);
    - [process.env], [Date.now()], [fetch] and [Math.random()] are oracles
      gathered in a [World]; the service object, the oracle cursors and the
      list of provider invocations are threaded through a state-and-exception
      monad. *)

From Stdlib Require Import ZArith QArith Qround Qpower Lqa SpecFloat Ascii String List Bool Lia.
From stdpp Require Import base option list gmap strings.

Local Open Scope string_scope.
Local Open Scope list_scope.
Local Open Scope nat_scope.

(* ===================================================================== *)
(** ** Text primitives *)
(* ===================================================================== *)

Module Text.

(** The code point of a code unit, from 0 to 255. *)
Definition code (c : ascii) : N := N_of_ascii c.

(** White space as seen by [String.prototype.trim] and by [\s]: the
    WhiteSpace and LineTerminator code points.  Below U+0100 these are
    U+0009 to U+000D, U+0020 and U+00A0 (the others are U+1680, U+2000 to
    U+200A, U+2028, U+2029, U+202F, U+205F, U+3000 and U+FEFF). *)
Definition isWhiteSpace (c : ascii) : bool :=
  let n := code c in
  ((9 <=? n) && (n <=? 13))%N || (n =? 32)%N || (n =? 160)%N.

(** Line terminators, which [.] refuses: below U+0100 these are U+000A and
    U+000D (the others are U+2028 and U+2029). *)
Definition isLineTerminator (c : ascii) : bool :=
  let n := code c in (n =? 10)%N || (n =? 13)%N.

(** [\d]: the digits 0 to 9. *)
Definition isDigit (c : ascii) : bool :=
  let n := code c in ((48 <=? n) && (n <=? 57))%N.

(** The lower-case mapping of a code unit: the capitals A to Z and, in
    Latin-1, U+00C0 to U+00DE without the multiplication sign U+00D7, go 32
    up; every other code unit below U+0100 is its own lower case. *)
Definition lowerChar (c : ascii) : ascii :=
  let n := code c in
  if ((65 <=? n) && (n <=? 90))%N
     || ((192 <=? n) && (n <=? 214))%N || ((216 <=? n) && (n <=? 222))%N
  then ascii_of_N (n + 32) else c.

(** Canonicalize of the [i] flag (without the [u] flag): the upper case of
    the code unit when that is one code unit.  The small letters a to z and,
    in Latin-1, U+00E0 to U+00FE without the division sign U+00F7, go 32
    down.  The sharp s U+00DF has no capital of one unit and stays; the
    capitals of the micro sign U+00B5 and of U+00FF lie beyond U+00FF (U+039C
    and U+0178) and are the capital of no other unit below U+0100, so the two
    stand for themselves. *)
Definition upperChar (c : ascii) : ascii :=
  let n := code c in
  if ((97 <=? n) && (n <=? 122))%N
     || ((224 <=? n) && (n <=? 246))%N || ((248 <=? n) && (n <=? 254))%N
  then ascii_of_N (n - 32) else c.

(** [s.toLowerCase()] *)
Fixpoint toLowerCase (s : string) : string :=
  match s with
  | EmptyString => EmptyString
  | String c s' => String (lowerChar c) (toLowerCase s')
  end.

Fixpoint trimStart (s : string) : string :=
  match s with
  | EmptyString => EmptyString
  | String c s' => if isWhiteSpace c then trimStart s' else s
  end.

Fixpoint trimEnd (s : string) : string :=
  match s with
  | EmptyString => EmptyString
  | String c s' =>
      match trimEnd s' with
      | EmptyString => if isWhiteSpace c then EmptyString else String c EmptyString
      | t => String c t
      end
  end.

(** [s.trim()] *)
Definition trim (s : string) : string := trimEnd (trimStart s).

(** [s.startsWith(pat)] *)
Fixpoint startsWith (s pat : string) {struct pat} : bool :=
  match pat, s with
  | EmptyString, _ => true
  | String c pat', String a s' => Ascii.eqb a c && startsWith s' pat'
  | String _ _, EmptyString => false
  end.

(** [s.includes(pat)] *)
Fixpoint includes (s pat : string) : bool :=
  startsWith s pat ||
  match s with
  | EmptyString => false
  | String _ s' => includes s' pat
  end.

(** [s.split(sep)] for a one-character separator. *)
Fixpoint split (sep : ascii) (s : string) : list string :=
  match s with
  | EmptyString => [EmptyString]
  | String c s' =>
      if Ascii.eqb c sep then EmptyString :: split sep s'
      else match split sep s' with
           | h :: t => String c h :: t
           | [] => [String c EmptyString]
           end
  end.

(** [xs.join(sep)] *)
Fixpoint join (sep : string) (xs : list string) : string :=
  match xs with
  | [] => EmptyString
  | [x] => x
  | x :: rest => x +:+ sep +:+ join sep rest
  end.

(** Truthiness of a string value: only the empty string is falsy. *)
Definition truthy (s : string) : bool :=
  match s with EmptyString => false | _ => true end.

(** [s || dflt] on strings. *)
Definition orElse (s dflt : string) : string := if truthy s then s else dflt.

End Text.

(* ===================================================================== *)
(** ** A backtracking matcher for the regular expressions of the parser *)
(* ===================================================================== *)

Module Regex.
Import Text.

Inductive regex : Type :=
| Eps                                   (* empty pattern *)
| Chr (c : ascii)                       (* a literal character *)
| Cls (f : ascii -> bool)               (* a character class *)
| Bos                                   (* ^ without the m flag *)
| Cat (r1 r2 : regex)
| Alt (r1 r2 : regex)                   (* r1|r2, left first *)
| Rep (greedy : bool) (r : regex)       (* r* and r*? *)
| Cap (i : nat) (r : regex).            (* the i-th capture group *)

(** Derived forms; [r] carries no capture group wherever they are used. *)
Definition Plus (r : regex) : regex := Cat r (Rep true r).
Definition Opt (r : regex) : regex := Alt r Eps.

Fixpoint Lit (s : string) : regex :=
  match s with
  | EmptyString => Eps
  | String c EmptyString => Chr c
  | String c s' => Cat (Chr c) (Lit s')
  end.

Fixpoint Seq (rs : list regex) : regex :=
  match rs with
  | [] => Eps
  | [r] => r
  | r :: rs' => Cat r (Seq rs')
  end.

(** Character classes used by the patterns of the parser. *)
Definition ws : regex := Cls isWhiteSpace.                           (* \s *)
Definition digit : regex := Cls isDigit.                             (* \d *)
Definition anyChar : regex := Cls (fun _ => true).                   (* [\s\S] *)
Definition dot : regex := Cls (fun c => negb (isLineTerminator c)).  (* . *)
Definition notChar (x : ascii) : regex := Cls (fun c => negb (Ascii.eqb c x)).
Definition notSpace : regex := Cls (fun c => negb (isWhiteSpace c)). (* [^\s] *)

(** Matcher state: the text still ahead, the number of characters consumed
    since the attempt began, and the captures made so far (latest first). *)
Record mstate : Type := MState {
  ahead : string;
  used : nat;
  caps : list (nat * string)
}.

Definition charEq (ic : bool) (a c : ascii) : bool :=
  if ic then Ascii.eqb (upperChar a) (upperChar c) else Ascii.eqb a c.

Definition step (st : mstate) (s' : string) : mstate :=
  MState s' (S (used st)) (caps st).

(** The loop of a repetition over [body]: one more iteration and then the
    loop again, or the continuation [k]; which comes first depends on
    [greedy].  An iteration that consumed nothing is refused.  The loop
    recurses on [fuel]; [run] starts it with one more than the length of the
    text ahead, which it never uses up ([rep_fuel] below). *)
Fixpoint rep (body : (mstate -> option mstate) -> mstate -> option mstate)
    (greedy : bool) (k : mstate -> option mstate) (fuel : nat) (st : mstate)
    {struct fuel} : option mstate :=
  match fuel with
  | O => None
  | S fuel' =>
      let again :=
        body (fun st' => if Nat.ltb (used st) (used st')
                         then rep body greedy k fuel' st' else None) st in
      if greedy
      then match again with Some x => Some x | None => k st end
      else match k st with Some x => Some x | None => again end
  end.

(** [run ic bos r k st]: match [r] at [st], then the continuation [k];
    [ic] is the i flag, [bos] tells that the attempt began at index 0. *)
Fixpoint run (ic bos : bool) (r : regex) (k : mstate -> option mstate)
    (st : mstate) {struct r} : option mstate :=
  match r with
  | Eps => k st
  | Chr c =>
      match ahead st with
      | String a s' => if charEq ic a c then k (step st s') else None
      | EmptyString => None
      end
  | Cls f =>
      match ahead st with
      | String a s' => if f a then k (step st s') else None
      | EmptyString => None
      end
  | Bos => if bos && Nat.eqb (used st) 0 then k st else None
  | Cat r1 r2 => run ic bos r1 (fun st' => run ic bos r2 k st') st
  | Alt r1 r2 =>
      match run ic bos r1 k st with
      | Some x => Some x
      | None => run ic bos r2 k st
      end
  | Rep greedy r' =>
      rep (run ic bos r') greedy k (S (String.length (ahead st))) st
  | Cap i r' =>
      run ic bos r'
        (fun st' =>
           k (MState (ahead st') (used st')
                ((i, substring 0 (used st' - used st) (ahead st)) :: caps st')))
        st
  end.

(** The outcome of a successful match: the matched text, the captures and
    the text after the match. *)
Record found : Type := Found {
  whole : string;
  groups : list (nat * string);
  after : string
}.

(** One attempt at the start of [s]. *)
Definition exec (ic bos : bool) (r : regex) (s : string) : option found :=
  match run ic bos r Some (MState s 0 []) with
  | Some st => Some (Found (substring 0 (used st) s) (caps st) (ahead st))
  | None => None
  end.

(** The capture numbered [i], [undefined] when the group did not take part. *)
Definition group (i : nat) (m : found) : option string :=
  snd <$> List.find (fun p => Nat.eqb (fst p) i) (groups m).

(** The leftmost match: the text skipped before it and the match itself. *)
Fixpoint searchFrom (ic bos : bool) (r : regex) (s : string) : option (string * found) :=
  match exec ic bos r s with
  | Some m => Some (EmptyString, m)
  | None =>
      match s with
      | EmptyString => None
      | String c s' =>
          match searchFrom ic false r s' with
          | Some (skipped, m) => Some (String c skipped, m)
          | None => None
          end
      end
  end.

(** [s.match(/r/)] and [s.match(/r/i)] *)
Definition search (ic : bool) (r : regex) (s : string) : option (string * found) :=
  searchFrom ic true r s.

(** [s.match(/r/g)]: the matched texts from left to right.  [skip] counts the
    characters that still belong to the previous match; after an empty match
    the scan moves one character on. *)
Fixpoint matchAllFrom (ic bos : bool) (r : regex) (skip : nat) (s : string) : list string :=
  match skip with
  | S n =>
      match s with
      | String _ s' => matchAllFrom ic false r n s'
      | EmptyString => []
      end
  | O =>
      match exec ic bos r s with
      | Some m =>
          whole m ::
          match s with
          | String _ s' => matchAllFrom ic false r (String.length (whole m) - 1) s'
          | EmptyString => []
          end
      | None =>
          match s with
          | String _ s' => matchAllFrom ic false r 0 s'
          | EmptyString => []
          end
      end
  end.

(** [s.match(/r/g)] returns [null] when nothing matches. *)
Definition matchAll (ic : bool) (r : regex) (s : string) : option (list string) :=
  match matchAllFrom ic true r 0 s with
  | [] => None
  | ms => Some ms
  end.

(** [s.replace(/r/, '')] *)
Definition removeFirst (ic : bool) (r : regex) (s : string) : string :=
  match search ic r s with
  | Some (skipped, m) => skipped +:+ after m
  | None => s
  end.

End Regex.

(* ===================================================================== *)
(** ** Data model *)
(* ===================================================================== *)

(** The keys of [FREE_LLM_PROVIDERS]. *)
Inductive ProviderKey : Type := HUGGING_FACE | COHERE | GROQ | TOGETHER.

Global Instance ProviderKey_eq_dec : EqDecision ProviderKey.
Proof. solve_decision. Defined.

Definition ProviderKey_code (p : ProviderKey) : positive :=
  match p with
  | HUGGING_FACE => 1 | COHERE => 2 | GROQ => 3 | TOGETHER => 4
  end%positive.

Definition ProviderKey_decode (n : positive) : option ProviderKey :=
  match n with
  | 1 => Some HUGGING_FACE | 2 => Some COHERE | 3 => Some GROQ | 4 => Some TOGETHER
  | _ => None
  end%positive.

Global Instance ProviderKey_countable : Countable ProviderKey.
Proof.
  refine (Build_Countable _ _ ProviderKey_code ProviderKey_decode _).
  intros []; reflexivity.
Defined.

Module LLMProvider.
Record t : Type := Build {
  name : string;
  endpoint : string;
  model : string;
  maxTokens : Z;
  rateLimit : Z            (* requests per minute *)
}.
End LLMProvider.

Definition FREE_LLM_PROVIDERS (p : ProviderKey) : LLMProvider.t :=
  match p with
  | HUGGING_FACE =>
      LLMProvider.Build "Hugging Face" "https://api-inference.huggingface.co/models"
        "microsoft/DialoGPT-large" 1024 30
  | COHERE =>
      LLMProvider.Build "Cohere" "https://api.cohere.ai/v1/generate"
        "command-light" 2048 100
  | GROQ =>
      LLMProvider.Build "Groq" "https://api.groq.com/openai/v1/chat/completions"
        "llama3-8b-8192" 8192 30
  | TOGETHER =>
      LLMProvider.Build "Together AI" "https://api.together.xyz/v1/chat/completions"
        "meta-llama/Llama-2-7b-chat-hf" 4096 60
  end.

Inductive Role : Type := user | assistant.

Definition Role_text (r : Role) : string :=
  match r with user => "user" | assistant => "assistant" end.

Module Context.
Record t : Type := Build {
  userId : option string;
  equipmentSerialNumbers : option (list string);
  previousParts : option (list string);
  conversationHistory : option (list (Role * string))
}.
End Context.

Module LLMRequest.
Record t : Type := Build {
  message : string;
  context : option Context.t;
  provider : option ProviderKey
}.
End LLMRequest.

Module PartSuggestion.
Record t : Type := Build {
  partNumber : string;
  name : string;
  compatibility : list string;
  price : Z;
  inStock : bool;
  aiRecommended : bool;
  reasonForSuggestion : string
}.
End PartSuggestion.

Module FaultCodeInfo.
(** [severity] is declared as ['low' | 'medium' | 'high' | 'critical']; at
    run time it is the string the parser stores. *)
Record t : Type := Build {
  code : string;
  description : string;
  severity : string;
  possibleCauses : list string;
  recommendedActions : list string;
  relatedParts : list string
}.

Definition declaredSeverities : list string := ["low"; "medium"; "high"; "critical"].

Definition severityDeclared (s : string) : bool :=
  existsb (String.eqb s) declaredSeverities.
End FaultCodeInfo.

Module LLMResponse.
Record t : Type := Build {
  message : string;
  suggestions : option (list PartSuggestion.t);
  faultCodeInfo : option FaultCodeInfo.t;
  troubleshootingSteps : option (list string);
  confidence : Q;
  provider : string
}.

(** [{ ...response, provider: label }] *)
Definition withProvider (r : t) (label : string) : t :=
  Build (message r) (suggestions r) (faultCodeInfo r) (troubleshootingSteps r)
    (confidence r) label.
End LLMResponse.

(* ===================================================================== *)
(** ** The response parser *)
(* ===================================================================== *)

(** Numbers: binary64 values as rationals, and the rounding of the exact
    result of an operation to the nearest of them, ties to even (the default
    rounding of IEEE 754, which the language prescribes).  Values of
    magnitude 2^1024 and above, which round to an infinity, do not occur
    here. *)
Module Double.
Local Open Scope Q_scope.

(** [floor (log2 x)] for a positive rational [x]. *)
Definition log2floor (x : Q) : Z :=
  let k := (Z.log2 (Qnum x) - Z.log2 (Zpos (Qden x)))%Z in
  if Qle_bool (2 ^ k) x then k else (k - 1)%Z.

(** The nearest integer, the even one of two that are equally near. *)
Definition nearestEven (q : Q) : Z :=
  let f := Qfloor q in
  match Qcompare (q - inject_Z f) (1 # 2) with
  | Lt => f
  | Gt => (f + 1)%Z
  | Eq => if Z.even f then f else (f + 1)%Z
  end.

(** The binary64 value nearest to a positive real: 53 significant bits, the
    last of them worth [2 ^ e], and no bit worth less than [2 ^ -1074]. *)
Definition roundPos (x : Q) : Q :=
  let e := Z.max (log2floor x - 52) (-1074) in
  inject_Z (nearestEven (x / 2 ^ e)) * 2 ^ e.

Definition round (x : Q) : Q :=
  match Qcompare x 0 with
  | Eq => 0
  | Gt => roundPos x
  | Lt => - roundPos (- x)
  end.

(** [a * b] on Numbers. *)
Definition mul (a b : Q) : Q := round (a * b).

(** The rationals that are binary64 values. *)
Definition isDouble (x : Q) : bool := Qeq_bool (round x) x.

(** The value of a finite float of the Standard Library's specification of
    IEEE 754 arithmetic. *)
Definition ofSpec (f : spec_float) : Q :=
  match f with
  | S754_finite s m e => (if s then - inject_Z (Zpos m) else inject_Z (Zpos m)) * 2 ^ e
  | _ => 0
  end.

End Double.

Module Parser.
Import Text Regex.

Definition nl : ascii := ascii_of_N 10.

(** [/Part:\s*([^(]+)\s*\(Part #:\s*([^)]+)\)\s*-\s*([^\n]+)/] *)
Definition partPattern : regex :=
  Seq [ Lit "Part:"; Rep true ws; Cap 1 (Plus (notChar "("));
        Rep true ws; Lit "(Part #:"; Rep true ws; Cap 2 (Plus (notChar ")"));
        Chr ")"; Rep true ws; Chr "-"; Rep true ws; Cap 3 (Plus (notChar nl)) ].

(** [/Fault Code:\s*([^\s]+)\s*-\s*([^\n]+)[\s\S]*?Severity:\s*([^\n]+)[\s\S]*?Possible Causes:\s*([^\n]+)[\s\S]*?Recommended Actions:\s*([^\n]+)/] *)
Definition faultCodePattern : regex :=
  Seq [ Lit "Fault Code:"; Rep true ws; Cap 1 (Plus notSpace);
        Rep true ws; Chr "-"; Rep true ws; Cap 2 (Plus (notChar nl));
        Rep false anyChar; Lit "Severity:"; Rep true ws; Cap 3 (Plus (notChar nl));
        Rep false anyChar; Lit "Possible Causes:"; Rep true ws; Cap 4 (Plus (notChar nl));
        Rep false anyChar; Lit "Recommended Actions:"; Rep true ws;
        Cap 5 (Plus (notChar nl)) ].

(** [/(?:Steps?|Actions?):\s*\n((?:\d+\..*\n?)+)/] *)
Definition stepsPattern : regex :=
  Seq [ Alt (Cat (Lit "Step") (Opt (Chr "s"))) (Cat (Lit "Action") (Opt (Chr "s")));
        Chr ":"; Rep true ws; Chr nl;
        Cap 1 (Plus (Seq [Plus digit; Chr "."; Rep true dot; Opt (Chr nl)])) ].

(** [/^\d+\.\s*/] *)
Definition stepNumberPattern : regex :=
  Seq [ Bos; Plus digit; Chr "."; Rep true ws ].

(** [g?.trim() || dflt] for a capture [g]. *)
Definition trimmedOr (g : option string) (dflt : string) : string :=
  match g with
  | Some s => orElse (trim s) dflt
  | None => dflt
  end.

(** [Math.floor(Math.random() * 500) + 50]: the product is a Number, the
    floor and the sum are exact. *)
Definition placeholderPrice (r : Q) : Z := (Qfloor (Double.mul r 500) + 50)%Z.

(** [Math.random() > 0.3]: the literal is the Number nearest to 3/10. *)
Definition placeholderStock (r : Q) : bool :=
  negb (Qle_bool r (Double.round (3 # 10))).

(** One element of [partMatches.map(...)]; [r1] and [r2] are the two random
    draws of the callback. *)
Definition suggestionOf (equipment : list string) (matched : string) (r1 r2 : Q)
    : PartSuggestion.t :=
  let m := snd <$> search true partPattern matched in
  let name := m ≫= group 1 in
  let partNumber := m ≫= group 2 in
  let description := m ≫= group 3 in
  PartSuggestion.Build
    (trimmedOr partNumber "")
    (trimmedOr name "")
    equipment
    (placeholderPrice r1)
    (placeholderStock r2)
    true
    (trimmedOr description "AI recommended based on your query").

(** The [map] over the matches, drawing from [random] beginning at draw [d]. *)
Fixpoint suggestionsOf (equipment : list string) (random : nat -> Q) (d : nat)
    (matches : list string) : list PartSuggestion.t :=
  match matches with
  | [] => []
  | matched :: rest =>
      suggestionOf equipment matched (random d) (random (S d))
        :: suggestionsOf equipment random (S (S d)) rest
  end.

Definition faultCodeInfoOf (m : found) : FaultCodeInfo.t :=
  FaultCodeInfo.Build
    (trimmedOr (group 1 m) "")
    (trimmedOr (group 2 m) "")
    (match group 3 m with
     | Some s => orElse (toLowerCase (trim s)) "medium"
     | None => "medium"
     end)
    (match group 4 m with Some s => trim <$> split "," s | None => [] end)
    (match group 5 m with Some s => trim <$> split "," s | None => [] end)
    [].

Definition stepsOf (m : found) : list string :=
  match group 1 m with
  | Some block =>
      (fun step => trim (removeFirst false stepNumberPattern step))
        <$> List.filter (fun step => truthy (trim step)) (split nl block)
  | None => []
  end.

Definition equipmentOf (request : LLMRequest.t) : list string :=
  match LLMRequest.context request with
  | Some c => default [] (Context.equipmentSerialNumbers c)
  | None => []
  end.

(** [parseAIResponse(aiMessage, request)], with the random draws it makes
    taken from [random] beginning at draw [d]; the second component is the
    number of the next unused draw. *)
Definition parseAIResponse (random : nat -> Q) (d : nat)
    (aiMessage : string) (request : LLMRequest.t) : LLMResponse.t * nat :=
  let partMatches := matchAll true partPattern aiMessage in
  let suggestions := suggestionsOf (equipmentOf request) random d <$> partMatches in
  let faultCodeMatch := snd <$> search true faultCodePattern aiMessage in
  let stepsMatch := snd <$> search true stepsPattern aiMessage in
  (LLMResponse.Build aiMessage suggestions (faultCodeInfoOf <$> faultCodeMatch)
     (stepsOf <$> stepsMatch) (8 # 10) "",
   (d + 2 * length (default [] partMatches))%nat).

End Parser.

(* ===================================================================== *)
(** ** The world around the service, and the monad that threads it *)
(* ===================================================================== *)

(** What one [fetch] of a vendor endpoint can bring back. *)
Inductive FetchResult : Type :=
| Rejected                          (* the promise of [fetch] or of [response.json()]
                                       rejects, or the envelope has no completion list *)
| Status (status : Z) (errorText : string)   (* a response with [ok] false *)
| Completion (text : option string).  (* an [ok] response and its completion field *)

Record World : Type := {
  env : gmap string string;                     (* process.env *)
  clock : nat -> Z;                             (* the k-th reading of Date.now() *)
  fetch : nat -> ProviderKey -> string -> FetchResult;
                                                (* the k-th request: vendor, prompt *)
  random : nat -> Q                             (* the k-th draw of Math.random(),
                                                   a Number by its rational value *)
}.

Inductive Exn : Type :=
| KeyNotConfigured (p : ProviderKey)
| ApiError (p : ProviderKey) (status : Z) (errorText : string)
| FetchFailed (p : ProviderKey).

Inductive Event : Type :=
| Invoke (p : ProviderKey)                      (* callLLMProvider entered *)
| ConsoleError (p : ProviderKey) (e : Exn).     (* console.error in a catch block *)

Module RateData.
Record t : Type := Build { count : Z; resetTime : Z }.
End RateData.

Module FreeLLMService.
Record t : Type := Build {
  currentProvider : ProviderKey;
  requestCounts : gmap ProviderKey RateData.t
}.

(** The private field [fallbackOrder]; the class never reads it, the order
    of the fallback pass is the one of [getAvailableProviders]. *)
Definition fallbackOrder : list ProviderKey := [GROQ; TOGETHER; COHERE; HUGGING_FACE].

(** [new FreeLLMService()] *)
Definition new : t := Build GROQ ∅.
End FreeLLMService.

Record Machine : Type := {
  service : FreeLLMService.t;
  ticks : nat;            (* readings of the clock made so far *)
  requests : nat;         (* requests sent so far *)
  draws : nat;            (* random draws made so far *)
  events : list Event     (* oldest first *)
}.

Definition boot (svc : FreeLLMService.t) : Machine :=
  {| service := svc; ticks := 0; requests := 0; draws := 0; events := [] |}.

Inductive Outcome (A : Type) : Type :=
| Returned (a : A)
| Thrown (e : Exn).
Arguments Returned {A} a.
Arguments Thrown {A} e.

Definition M (A : Type) : Type := Machine -> Outcome A * Machine.

Definition ret {A} (a : A) : M A := fun m => (Returned a, m).

Definition throw {A} (e : Exn) : M A := fun m => (Thrown e, m).

Definition bind {A B} (c : M A) (k : A -> M B) : M B :=
  fun m =>
    match c m with
    | (Returned a, m') => k a m'
    | (Thrown e, m') => (Thrown e, m')
    end.

(** [try { body } catch (error) { handler }] *)
Definition tryCatch {A} (body : M A) (handler : Exn -> M A) : M A :=
  fun m =>
    match body m with
    | (Returned a, m') => (Returned a, m')
    | (Thrown e, m') => handler e m'
    end.

Notation "x <- c ;; k" := (bind c (fun x => k))
  (at level 100, c at next level, right associativity).
Notation "c ;; k" := (bind c (fun _ => k))
  (at level 100, right associativity).

Definition getService : M FreeLLMService.t := fun m => (Returned (service m), m).

Definition putService (svc : FreeLLMService.t) : M unit :=
  fun m => (Returned tt,
            {| service := svc; ticks := ticks m; requests := requests m;
               draws := draws m; events := events m |}).

Definition emit (e : Event) : M unit :=
  fun m => (Returned tt,
            {| service := service m; ticks := ticks m; requests := requests m;
               draws := draws m; events := events m ++ [e] |}).

(** [Date.now()] *)
Definition dateNow (w : World) : M Z :=
  fun m => (Returned (clock w (ticks m)),
            {| service := service m; ticks := S (ticks m); requests := requests m;
               draws := draws m; events := events m |}).

(** [await fetch(...)] and the reading of the answer. *)
Definition doFetch (w : World) (p : ProviderKey) (prompt : string) : M FetchResult :=
  fun m => (Returned (fetch w (requests m) p prompt),
            {| service := service m; ticks := ticks m; requests := S (requests m);
               draws := draws m; events := events m |}).

(** Runs a computation that draws random numbers from a given cursor. *)
Definition drawing {A} (w : World) (f : (nat -> Q) -> nat -> A * nat) : M A :=
  fun m => let '(a, d) := f (random w) (draws m) in
           (Returned a,
            {| service := service m; ticks := ticks m; requests := requests m;
               draws := d; events := events m |}).

(** The providers invoked, in order. *)
Definition invoked (evs : list Event) : list ProviderKey :=
  omap (fun e => match e with Invoke p => Some p | ConsoleError _ _ => None end) evs.

(** The providers whose failure was caught and logged, in order. *)
Definition failed (evs : list Event) : list ProviderKey :=
  omap (fun e => match e with ConsoleError p _ => Some p | Invoke _ => None end) evs.

(* ===================================================================== *)
(** ** The service *)
(* ===================================================================== *)

Section Service.
Import Text.
Variable w : World.

Definition envVar (provider : ProviderKey) : string :=
  match provider with
  | GROQ => "EXPO_PUBLIC_GROQ_API_KEY"
  | TOGETHER => "EXPO_PUBLIC_TOGETHER_API_KEY"
  | COHERE => "EXPO_PUBLIC_COHERE_API_KEY"
  | HUGGING_FACE => "EXPO_PUBLIC_HUGGINGFACE_API_KEY"
  end.

(** A key that is absent, empty, a placeholder or blank is not valid. *)
Definition getValidApiKey (provider : ProviderKey) : option string :=
  match env w !! envVar provider with
  | None => None
  | Some apiKey =>
      if negb (truthy apiKey)
         || includes apiKey "your_"
         || includes apiKey "_api_key_here"
         || String.eqb (trim apiKey) ""
      then None
      else Some apiKey
  end.

Definition hasKey (provider : ProviderKey) : bool :=
  bool_decide (is_Some (getValidApiKey provider)).

Definition hasConfiguredProviders : bool :=
  hasKey GROQ || hasKey TOGETHER || hasKey COHERE || hasKey HUGGING_FACE.

Definition getAvailableProviders : list ProviderKey :=
  (if hasKey GROQ then [GROQ] else [])
  ++ (if hasKey TOGETHER then [TOGETHER] else [])
  ++ (if hasKey COHERE then [COHERE] else [])
  ++ (if hasKey HUGGING_FACE then [HUGGING_FACE] else []).

(** *** Rate limiter *)

(** [isRateLimited] at a given reading [now] of the clock: the answer and
    the request counts it leaves behind. *)
Definition isRateLimitedAt (now : Z) (provider : ProviderKey)
    (counts : gmap ProviderKey RateData.t) : bool * gmap ProviderKey RateData.t :=
  let providerConfig := FREE_LLM_PROVIDERS provider in
  match counts !! provider with
  | None => (false, counts)
  | Some requestData =>
      if (RateData.resetTime requestData <? now)%Z
      then (false, delete provider counts)
      else ((LLMProvider.rateLimit providerConfig <=? RateData.count requestData)%Z, counts)
  end.

(** [updateRequestCount] at a given reading [now] of the clock. *)
Definition updateRequestCountAt (now : Z) (provider : ProviderKey)
    (counts : gmap ProviderKey RateData.t) : gmap ProviderKey RateData.t :=
  let resetTime := (now + 60000)%Z in
  match counts !! provider with
  | None => <[provider := RateData.Build 1 resetTime]> counts
  | Some requestData =>
      if (RateData.resetTime requestData <? now)%Z
      then <[provider := RateData.Build 1 resetTime]> counts
      else <[provider := RateData.Build (RateData.count requestData + 1)
                           (RateData.resetTime requestData)]> counts
  end.

Definition isRateLimited (provider : ProviderKey) : M bool :=
  now <- dateNow w ;;
  svc <- getService ;;
  let '(limited, counts) :=
    isRateLimitedAt now provider (FreeLLMService.requestCounts svc) in
  putService (FreeLLMService.Build (FreeLLMService.currentProvider svc) counts) ;;
  ret limited.

Definition updateRequestCount (provider : ProviderKey) : M unit :=
  now <- dateNow w ;;
  svc <- getService ;;
  putService (FreeLLMService.Build (FreeLLMService.currentProvider svc)
                (updateRequestCountAt now provider (FreeLLMService.requestCounts svc))).

Definition setCurrentProvider (provider : ProviderKey) : M unit :=
  svc <- getService ;;
  putService (FreeLLMService.Build provider (FreeLLMService.requestCounts svc)).

(** *** Request formatter *)

Definition newline : string := String Parser.nl EmptyString.

Definition historyLines (turns : list (Role * string)) : string :=
  foldl (fun acc turn => acc +:+ Role_text (fst turn) +:+ ": " +:+ snd turn +:+ newline)
    "" turns.

Definition buildCatCentralPrompt (request : LLMRequest.t) : string :=
  let message := LLMRequest.message request in
  let context := LLMRequest.context request in
  let prompt := "User Query: " +:+ message +:+ newline +:+ newline in
  let prompt :=
    match context ≫= Context.equipmentSerialNumbers with
    | Some (x :: xs) => prompt +:+ "User Equipment: " +:+ join ", " (x :: xs) +:+ newline
    | _ => prompt
    end in
  let prompt :=
    match context ≫= Context.conversationHistory with
    | Some (t :: ts) =>
        prompt +:+ "Previous Conversation:" +:+ newline
          +:+ historyLines (drop (length (t :: ts) - 3) (t :: ts))
    | _ => prompt
    end in
  prompt +:+ newline
    +:+ "Please provide a helpful response about Caterpillar equipment, parts, or maintenance.".

(** *** Provider invoker *)

Definition apology : string := "I apologize, but I couldn't process your request.".

(** The common shape of [callGroq], [callTogether], [callCohere] and
    [callHuggingFace]: key check, one POST, status check, extraction of the
    completion from the vendor's envelope, parsing. *)
Definition callVendor (provider : ProviderKey) (prompt : string)
    (request : LLMRequest.t) : M LLMResponse.t :=
  match getValidApiKey provider with
  | None => throw (KeyNotConfigured provider)
  | Some apiKey =>
      response <- doFetch w provider prompt ;;
      match response with
      | Rejected => throw (FetchFailed provider)
      | Status status errorText => throw (ApiError provider status errorText)
      | Completion text =>
          let aiMessage := orElse (default "" text) apology in
          drawing w (fun rnd d => Parser.parseAIResponse rnd d aiMessage request)
      end
  end.

Definition callGroq := callVendor GROQ.
Definition callTogether := callVendor TOGETHER.
Definition callCohere := callVendor COHERE.
Definition callHuggingFace := callVendor HUGGING_FACE.

Definition callLLMProvider (provider : ProviderKey) (request : LLMRequest.t)
    : M LLMResponse.t :=
  emit (Invoke provider) ;;
  let prompt := buildCatCentralPrompt request in
  match provider with
  | GROQ => callGroq prompt request
  | TOGETHER => callTogether prompt request
  | COHERE => callCohere prompt request
  | HUGGING_FACE => callHuggingFace prompt request
  end.

(** *** Canned replies *)

(** The text of the source, which nothing in the service reads.  Its first
    character, the wrench sign U+1F527, lies beyond the code units of the
    embedding; it stands here by the four units of its UTF-8 form. *)
Definition configurationRequiredText : string :=
"🔧 **AI Assistant Setup Required**

To use the AI assistant, you need to configure at least one API key in your environment variables. Here are your free options:

**Quick Setup (Recommended):**
1. **Groq** (Fastest) - Get free API key at https://console.groq.com/
2. **Together AI** - Get $25 free credits at https://api.together.xyz/
3. **Cohere** - Get 1000 free requests at https://dashboard.cohere.ai/
4. **Hugging Face** - Get unlimited free tier at https://huggingface.co/settings/tokens

**Setup Steps:**
1. Get an API key from any provider above
2. Replace the placeholder values in your .env file:
   - Replace 'your_groq_api_key_here' with your actual Groq API key
   - Replace 'your_together_api_key_here' with your actual Together AI API key
   - Replace 'your_cohere_api_key_here' with your actual Cohere API key
   - Replace 'your_huggingface_api_key_here' with your actual Hugging Face API key
3. Restart the application

Once configured, I'll be able to help you with:
- Parts identification and compatibility
- Fault code diagnosis
- Maintenance guidance
- Equipment troubleshooting

For detailed setup instructions, check the README_FREE_LLM_SETUP.md file.".

Definition getConfigurationRequiredResponse (message : string) : LLMResponse.t :=
  LLMResponse.Build configurationRequiredText None None None 1 "Configuration Helper".

Definition partsText : string :=
  "I can help you find parts for your Cat equipment. Please provide your equipment serial number or describe the specific part you need. You can also use the camera feature to identify parts visually.".

Definition faultText : string :=
  "I can help diagnose fault codes. Please provide the specific fault code you're seeing, along with your equipment model. Common fault codes include engine, hydraulic, and electrical system errors.".

Definition maintenanceText : string :=
  "I can provide maintenance guidance for your Cat equipment. Please specify your equipment model and the type of maintenance you need help with - routine service, preventive maintenance, or specific repairs.".

Definition genericText : string :=
  "I'm here to help with your Cat equipment needs. I can assist with parts identification, fault code diagnosis, maintenance schedules, and general equipment support. How can I help you today?".

Definition getOfflineFallbackResponse (message : string) : LLMResponse.t :=
  let lowerMessage := toLowerCase message in
  let fallbackMessage :=
    if includes lowerMessage "part" || includes lowerMessage "component"
    then partsText
    else if includes lowerMessage "fault" || includes lowerMessage "error"
            || includes lowerMessage "code"
    then faultText
    else if includes lowerMessage "maintenance" || includes lowerMessage "service"
    then maintenanceText
    else genericText in
  LLMResponse.Build fallbackMessage None None None (6 # 10) "Offline Fallback".

(** *** Fallback orchestrator *)

(** The [for] loop of [tryFallbackProviders]. *)
Fixpoint fallbackPass (request : LLMRequest.t) (providers : list ProviderKey)
    : M LLMResponse.t :=
  match providers with
  | [] => ret (getOfflineFallbackResponse (LLMRequest.message request))
  | provider :: rest =>
      limited <- isRateLimited provider ;;
      if negb limited
      then
        tryCatch
          (response <- callLLMProvider provider request ;;
           setCurrentProvider provider ;;
           ret (LLMResponse.withProvider response
                  (LLMProvider.name (FREE_LLM_PROVIDERS provider))))
          (fun error =>
             emit (ConsoleError provider error) ;;
             fallbackPass request rest)
      else fallbackPass request rest
  end.

Definition tryFallbackProviders (request : LLMRequest.t)
    (availableProviders : option (list ProviderKey)) : M LLMResponse.t :=
  let providers := default getAvailableProviders availableProviders in
  fallbackPass request providers.

(** The provider [processMessage] tries first. *)
Definition actualProvider (request : LLMRequest.t) (current : ProviderKey)
    (availableProviders : list ProviderKey) (first : ProviderKey) : ProviderKey :=
  let provider := default current (LLMRequest.provider request) in
  if bool_decide (provider ∈ availableProviders) then provider else first.

Definition processMessage (request : LLMRequest.t) : M LLMResponse.t :=
  if negb hasConfiguredProviders
  then ret (getConfigurationRequiredResponse (LLMRequest.message request))
  else
    let availableProviders := getAvailableProviders in
    match availableProviders with
    | [] => ret (getConfigurationRequiredResponse (LLMRequest.message request))
    | first :: _ =>
        svc <- getService ;;
        let actualProvider :=
          actualProvider request (FreeLLMService.currentProvider svc)
            availableProviders first in
        tryCatch
          (limited <- isRateLimited actualProvider ;;
           if limited
           then tryFallbackProviders request (Some availableProviders)
           else
             response <- callLLMProvider actualProvider request ;;
             updateRequestCount actualProvider ;;
             ret (LLMResponse.withProvider response
                    (LLMProvider.name (FREE_LLM_PROVIDERS actualProvider))))
          (fun error =>
             emit (ConsoleError actualProvider error) ;;
             tryFallbackProviders request (Some availableProviders))
    end.

End Service.

(* ===================================================================== *)
(** ** Vocabulary of the properties *)
(* ===================================================================== *)

Definition countsOf (m : Machine) : gmap ProviderKey RateData.t :=
  FreeLLMService.requestCounts (service m).

Definition budget (p : ProviderKey) : Z := LLMProvider.rateLimit (FREE_LLM_PROVIDERS p).

Definition displayName (p : ProviderKey) : string :=
  LLMProvider.name (FREE_LLM_PROVIDERS p).

(** Recording one request at each of the given readings of the clock. *)
Definition recordAt (p : ProviderKey) (times : list Z)
    (counts : gmap ProviderKey RateData.t) : gmap ProviderKey RateData.t :=
  foldl (fun c now => updateRequestCountAt now p c) counts times.

(** A provider has no open window at reading [now]: no rate state, or a
    stored reset time that [now] has passed. *)
Definition windowClosed (now : Z) (p : ProviderKey)
    (counts : gmap ProviderKey RateData.t) : Prop :=
  match counts !! p with
  | None => True
  | Some d => (RateData.resetTime d < now)%Z
  end.

Section Vocabulary.
Variable w : World.

(** Throttled, respectively not throttled, at every reading of the clock. *)
Definition Throttled (counts : gmap ProviderKey RateData.t) (p : ProviderKey) : Prop :=
  ∀ k, (isRateLimitedAt (clock w k) p counts).1 = true.

Definition Unthrottled (counts : gmap ProviderKey RateData.t) (p : ProviderKey) : Prop :=
  ∀ k, (isRateLimitedAt (clock w k) p counts).1 = false.

Definition isCompletion (r : FetchResult) : bool :=
  match r with Completion _ => true | _ => false end.

(** Every request to the vendor fails, respectively brings a completion. *)
Definition Failing (p : ProviderKey) : Prop :=
  ∀ k prompt, isCompletion (fetch w k p prompt) = false.

Definition Succeeding (p : ProviderKey) : Prop :=
  ∀ k prompt, isCompletion (fetch w k p prompt) = true.

Definition Blocked (counts : gmap ProviderKey RateData.t) (p : ProviderKey) : Prop :=
  Throttled counts p ∨ Failing p.

Definition Configured (p : ProviderKey) : Prop := is_Some (getValidApiKey w p).

(** The first provider of the fixed order that has a valid key. *)
Definition firstConfigured : option ProviderKey :=
  List.find (hasKey w) FreeLLMService.fallbackOrder.

(** What a run leaves behind: the events it appended; the throttled stay
    throttled and are not invoked; the unthrottled stay unthrottled. *)
Definition Carried (m m' : Machine) (evs : list Event) : Prop :=
  events m' = events m ++ evs
  ∧ (∀ q, Throttled (countsOf m) q → Throttled (countsOf m') q ∧ q ∉ invoked evs)
  ∧ (∀ q, Unthrottled (countsOf m) q → Unthrottled (countsOf m') q).

End Vocabulary.

(** Position in the fixed order GROQ, TOGETHER, COHERE, HUGGING_FACE. *)
Definition rank (p : ProviderKey) : nat :=
  match p with GROQ => 0 | TOGETHER => 1 | COHERE => 2 | HUGGING_FACE => 3 end.

(** No provider is invoked again once a failure of it has been caught. *)
Definition NoRetryAfterFailure (evs : list Event) : Prop :=
  ∀ before p e after, evs = before ++ ConsoleError p e :: after → p ∉ invoked after.

(** The user's message mentions a keyword, in any letter case. *)
Definition mentions (message keyword : string) : bool :=
  Text.includes (Text.toLowerCase message) keyword.

(** The part line of the parsing example, and a fault-code block in the
    requested layout whose severity line adds a remark to the level. *)
Definition partLine : string :=
  "Part: Oil Filter (Part #: 1R-0750) - keeps contaminants out".

Definition faultBlock : string :=
"Fault Code: E101 - Low oil pressure
Severity: High - stop the machine
Possible Causes: worn pump, low oil level
Recommended Actions: check oil level, replace pump".

(** A matcher state of an attempt on a text of [n] characters: what was
    consumed and what is ahead add up to [n]. *)
Definition placed (n : nat) (st : Regex.mstate) : Prop :=
  Regex.used st + String.length (Regex.ahead st) = n.

(** A literal matches at the start of a text (with the i flag when [ic]). *)
Fixpoint litMatches (ic : bool) (lit s : string) {struct lit} : bool :=
  match lit, s with
  | EmptyString, _ => true
  | String c lit', String a s' => Regex.charEq ic a c && litMatches ic lit' s'
  | String _ _, EmptyString => false
  end.

(** *** Scenarios used to exercise the properties *)

Definition ask (text : string) (p : option ProviderKey) : LLMRequest.t :=
  LLMRequest.Build text None p.

Definition stillClock : nat -> Z := fun _ => 0%Z.

Definition evenDraws : nat -> Q := fun _ => 1 # 2.

(** The shipped example configuration: placeholders and blanks only. *)
Definition placeholderWorld : World :=
  {| env := {[ "EXPO_PUBLIC_GROQ_API_KEY" := "your_groq_api_key_here";
               "EXPO_PUBLIC_TOGETHER_API_KEY" := "   ";
               "EXPO_PUBLIC_COHERE_API_KEY" := "" ]};
     clock := stillClock;
     fetch := fun _ _ _ => Rejected;
     random := evenDraws |}.

(** Only Groq has a key, and every request is rejected. *)
Definition groqDownWorld : World :=
  {| env := {[ "EXPO_PUBLIC_GROQ_API_KEY" := "gsk_live_key" ]};
     clock := stillClock;
     fetch := fun _ _ _ => Rejected;
     random := evenDraws |}.

(** Groq and Together AI have keys; Groq rejects the first two requests of
    the process and answers afterwards, Together AI always answers. *)
Definition groqFlakyWorld : World :=
  {| env := {[ "EXPO_PUBLIC_GROQ_API_KEY" := "gsk_live_key";
               "EXPO_PUBLIC_TOGETHER_API_KEY" := "tg_live_key" ]};
     clock := stillClock;
     fetch := fun k p _ =>
                match p with
                | GROQ => if Nat.ltb k 2 then Rejected
                          else Completion (Some "Groq here.")
                | _ => Completion (Some "Together here.")
                end;
     random := evenDraws |}.

(** Groq, Together AI and Cohere have keys and all answer. *)
Definition threeUpWorld : World :=
  {| env := {[ "EXPO_PUBLIC_GROQ_API_KEY" := "gsk_live_key";
               "EXPO_PUBLIC_TOGETHER_API_KEY" := "tg_live_key";
               "EXPO_PUBLIC_COHERE_API_KEY" := "co_live_key" ]};
     clock := stillClock;
     fetch := fun _ _ _ => Completion (Some "Happy to help.");
     random := evenDraws |}.


(** A service whose Together AI budget of 60 is used up until time 60000. *)
Definition togetherSpent : FreeLLMService.t :=
  FreeLLMService.Build GROQ {[ TOGETHER := RateData.Build 60 60000 ]}.

(* ===================================================================== *)
(** ** The status report, and the assistant screen that calls the service *)
(* ===================================================================== *)

Module ConfiguredProviders.
Record t : Type := Build {
  groq : bool;
  together : bool;
  cohere : bool;
  huggingFace : bool
}.
End ConfiguredProviders.

Module ProviderStatus.
Record t : Type := Build {
  currentProvider : ProviderKey;
  requestCounts : gmap ProviderKey RateData.t;
  availableProviders : list ProviderKey;
  configuredProviders : ConfiguredProviders.t
}.
End ProviderStatus.

(** [getProviderStatus()] *)
Definition getProviderStatus (w : World) (svc : FreeLLMService.t) : ProviderStatus.t :=
  ProviderStatus.Build
    (FreeLLMService.currentProvider svc)
    (FreeLLMService.requestCounts svc)
    (getAvailableProviders w)
    (ConfiguredProviders.Build (hasKey w GROQ) (hasKey w TOGETHER) (hasKey w COHERE)
       (hasKey w HUGGING_FACE)).

(** [xs.slice(-n)] *)
Definition sliceLast {A : Type} (n : nat) (xs : list A) : list A :=
  drop (length xs - n) xs.

(** The request [handleSendMessage] (src/types/env.d.ts) passes to
    [processMessage]: the text is [text || inputText.trim()]; nothing is sent
    when it is empty or a request is in progress; the context carries the
    props [userId] and [userEquipment] and the last six turns of the history
    extended with the new user turn. *)
Definition handleSendMessage (userId : option string) (userEquipment : list string)
    (conversationHistory : list (Role * string)) (isProcessing : bool)
    (text : option string) (inputText : string) : option LLMRequest.t :=
  let messageText := Text.orElse (default "" text) (Text.trim inputText) in
  if String.eqb messageText "" || isProcessing then None
  else
    let newHistory := conversationHistory ++ [(user, messageText)] in
    Some (LLMRequest.Build messageText
            (Some (Context.Build userId (Some userEquipment) None
                     (Some (sliceLast 6 newHistory))))
            None).

(** *** Further vocabulary *)

(** Every character of a text satisfies a test. *)
Fixpoint allChars (f : ascii -> bool) (s : string) : bool :=
  match s with
  | EmptyString => true
  | String c s' => f c && allChars f s'
  end.

(** A text is empty or begins with a character that fails the test. *)
Definition stopsAt (f : ascii -> bool) (s : string) : bool :=
  match s with
  | EmptyString => true
  | String c _ => negb (f c)
  end.

Definition isNot (x : ascii) (c : ascii) : bool := negb (Ascii.eqb c x).

(** A text without its first [n] characters. *)
Fixpoint skipChars (n : nat) (s : string) : string :=
  match n, s with
  | S n', String _ s' => skipChars n' s'
  | _, _ => s
  end.

(** A field as the model is asked to write it: not empty, nothing to trim. *)
Definition tidy (s : string) : Prop := s ≠ "" ∧ Text.trim s = s.

(** The layout the system prompt asks for (getSystemPrompt, RESPONSE FORMAT):
    [Part: [Name] (Part #: [Number]) - [Brief description]]. *)
Definition partLineOf (name number description : string) : string :=
  "Part: " +:+ name +:+ " (Part #: " +:+ number +:+ ") - " +:+ description.

(** A numbered list as the steps pattern of the parser reads it: every item
    on a line of its own, written [<number>. <text>]. *)
Definition stepText (item : string * string) : string :=
  fst item +:+ ". " +:+ snd item.

Fixpoint stepBlock (items : list (string * string)) : string :=
  match items with
  | [] => ""
  | item :: rest => stepText item +:+ newline +:+ stepBlock rest
  end.

(** The layout the system prompt asks for (getSystemPrompt, RESPONSE FORMAT):
    [Fault Code: [Code] - [Description]], [Severity: ...],
    [Possible Causes: [List]] and [Recommended Actions: [Steps]], one to a
    line, with the entries of a list separated by a comma and a space. *)
Definition faultBlockOf (code description severity : string)
    (causes actions : list string) : string :=
  "Fault Code: " +:+ code +:+ " - " +:+ description +:+ newline
  +:+ "Severity: " +:+ severity +:+ newline
  +:+ "Possible Causes: " +:+ Text.join ", " causes +:+ newline
  +:+ "Recommended Actions: " +:+ Text.join ", " actions.

(** A text on one line, not empty and with nothing to trim. *)
Definition lineField (s : string) : Prop :=
  tidy s ∧ allChars (isNot Parser.nl) s = true.

(** An entry of a list: such a text, without a comma. *)
Definition listEntry (s : string) : Prop :=
  lineField s ∧ allChars (isNot ",") s = true.

(** An item of such a list: a number made of digits, and a text on one line
    that is not empty and has nothing to trim. *)
Definition stepItem (item : string * string) : Prop :=
  fst item ≠ "" ∧ allChars Text.isDigit (fst item) = true
  ∧ tidy (snd item)
  ∧ allChars (fun c => negb (Text.isLineTerminator c)) (snd item) = true.

(** The machine after one more event, request, clock reading; with another
    draw cursor; with another service object. *)
Definition logging (evs : list Event) (m : Machine) : Machine :=
  {| service := service m; ticks := ticks m; requests := requests m;
     draws := draws m; events := events m ++ evs |}.

Definition sending (m : Machine) : Machine :=
  {| service := service m; ticks := ticks m; requests := S (requests m);
     draws := draws m; events := events m |}.

Definition ticking (m : Machine) : Machine :=
  {| service := service m; ticks := S (ticks m); requests := requests m;
     draws := draws m; events := events m |}.

Definition drawnTo (d : nat) (m : Machine) : Machine :=
  {| service := service m; ticks := ticks m; requests := requests m;
     draws := d; events := events m |}.

Definition serving (svc : FreeLLMService.t) (m : Machine) : Machine :=
  {| service := svc; ticks := ticks m; requests := requests m;
     draws := draws m; events := events m |}.

(** Every rate state has counted at least one request, and no window ends
    more than 60 seconds after the reading [now]. *)
Definition saneCounts (now : Z) (counts : gmap ProviderKey RateData.t) : Prop :=
  ∀ p d, counts !! p = Some d →
         (1 <= RateData.count d)%Z ∧ (RateData.resetTime d <= now + 60000)%Z.

(** A random draw as [Math.random()] gives it: a Number in the interval
    [0, 1). *)
Definition unitDraw (r : Q) : Prop :=
  (0 <= r)%Q ∧ (r < 1)%Q ∧ Double.isDouble r = true.

(** The largest Number below 1. *)
Definition belowOne : Q := 9007199254740991 # 9007199254740992.

(* ===================================================================== *)
(** ** How the primitive steps run *)
(* ===================================================================== *)

Section Runs.
Variable w : World.

Lemma isRateLimited_run (p : ProviderKey) (m : Machine) :
  let now := clock w (ticks m) in
  let res := isRateLimitedAt now p (FreeLLMService.requestCounts (service m)) in
  ∃ m', isRateLimited w p m = (Returned res.1, m')
        ∧ FreeLLMService.requestCounts (service m') = res.2
        ∧ FreeLLMService.currentProvider (service m')
          = FreeLLMService.currentProvider (service m)
        ∧ events m' = events m.
Proof.
  intros now res. unfold isRateLimited, bind, dateNow, getService; simpl.
  fold now. fold res. destruct res as [limited counts]; simpl.
  eexists; split; [reflexivity|]. simpl. auto.
Qed.

Lemma updateRequestCount_run (p : ProviderKey) (m : Machine) :
  ∃ m', updateRequestCount w p m = (Returned tt, m')
        ∧ FreeLLMService.requestCounts (service m')
          = updateRequestCountAt (clock w (ticks m)) p
              (FreeLLMService.requestCounts (service m))
        ∧ FreeLLMService.currentProvider (service m')
          = FreeLLMService.currentProvider (service m)
        ∧ events m' = events m.
Proof.
  unfold updateRequestCount, bind, dateNow, getService, putService; simpl.
  eexists; split; [reflexivity|]. simpl. auto.
Qed.

Lemma parse_message rnd d text request :
  LLMResponse.message (Parser.parseAIResponse rnd d text request).1 = text.
Proof. reflexivity. Qed.

Lemma parse_confidence rnd d text request :
  LLMResponse.confidence (Parser.parseAIResponse rnd d text request).1 = (8 # 10)%Q.
Proof. reflexivity. Qed.

Lemma orElse_truthy (s dflt : string) :
  Text.truthy dflt = true → Text.orElse s dflt ≠ "".
Proof.
  unfold Text.orElse. destruct s; simpl; [|discriminate].
  destruct dflt; [discriminate|]. intros _; discriminate.
Qed.

(** An invocation either throws or returns a reply with a text; in both
    cases it leaves the service object alone and logs one [Invoke].  It
    returns only on a completion, and with a valid key it throws only when
    the request brought none. *)
Lemma callLLMProvider_run (p : ProviderKey) (request : LLMRequest.t) (m : Machine) :
  let answer := fetch w (requests m) p (buildCatCentralPrompt request) in
  ∃ out m', callLLMProvider w p request m = (out, m')
            ∧ service m' = service m
            ∧ events m' = events m ++ [Invoke p]
            ∧ match out with
              | Returned r =>
                  LLMResponse.message r ≠ ""
                  ∧ LLMResponse.confidence r = (8 # 10)%Q
                  ∧ isCompletion answer = true
              | Thrown _ => Configured w p → isCompletion answer = false
              end.
Proof.
  intros answer.
  assert (Hv : ∀ m0,
             ∃ out m', callVendor w p (buildCatCentralPrompt request) request m0 = (out, m')
                       ∧ service m' = service m0 ∧ events m' = events m0
                       ∧ match out with
                         | Returned r =>
                             LLMResponse.message r ≠ ""
                             ∧ LLMResponse.confidence r = (8 # 10)%Q
                             ∧ isCompletion
                                 (fetch w (requests m0) p (buildCatCentralPrompt request))
                               = true
                         | Thrown _ =>
                             Configured w p →
                             isCompletion
                               (fetch w (requests m0) p (buildCatCentralPrompt request))
                             = false
                         end).
  { intros m0. unfold callVendor, Configured.
    destruct (getValidApiKey w p) as [key|].
    - unfold bind, doFetch.
      destruct (fetch w (requests m0) p _) as [|st txt|txt].
      + do 2 eexists; split; [reflexivity|]; simpl; auto.
      + do 2 eexists; split; [reflexivity|]; simpl; auto.
      + unfold drawing; simpl.
        do 2 eexists; split; [reflexivity|]; simpl.
        repeat split. apply orElse_truthy. reflexivity.
    - do 2 eexists; split; [reflexivity|]; simpl.
      repeat split. intros [? ?]; discriminate. }
  unfold callLLMProvider, bind, emit.
  match goal with
  | |- context [match p with GROQ => ?a | _ => _ end] =>
      replace (match p with GROQ => a | TOGETHER => _ | COHERE => _ | HUGGING_FACE => _ end)
        with (callVendor w p (buildCatCentralPrompt request) request)
        by (destruct p; reflexivity)
  end.
  edestruct Hv as (out & m' & E & Hs & He & Ho).
  exists out, m'. rewrite E. simpl in *. auto.
Qed.

End Runs.

(* ===================================================================== *)
(** ** Rate limiter *)
(* ===================================================================== *)

Section RateLimiter.

Lemma isRateLimitedAt_true now p counts :
  (isRateLimitedAt now p counts).1 = true → (isRateLimitedAt now p counts).2 = counts.
Proof.
  unfold isRateLimitedAt. destruct (counts !! p) as [d|]; [|done].
  destruct (RateData.resetTime d <? now)%Z; [discriminate|done].
Qed.

Lemma isRateLimitedAt_other now p q counts :
  q ≠ p → (isRateLimitedAt now p counts).2 !! q = counts !! q.
Proof.
  intros Hne. unfold isRateLimitedAt. destruct (counts !! p) as [d|]; [|done].
  destruct (RateData.resetTime d <? now)%Z; simpl; [|done].
  by rewrite lookup_delete_ne.
Qed.

Lemma isRateLimitedAt_ext now p c c' :
  c !! p = c' !! p → (isRateLimitedAt now p c).1 = (isRateLimitedAt now p c').1.
Proof.
  intros E. unfold isRateLimitedAt. rewrite E. destruct (c' !! p) as [d|]; [|done].
  by destruct (RateData.resetTime d <? now)%Z.
Qed.

Lemma isRateLimitedAt_false_same now now' p counts :
  (isRateLimitedAt now p counts).1 = false →
  (isRateLimitedAt now p (isRateLimitedAt now' p counts).2).1 = false.
Proof.
  intros H. unfold isRateLimitedAt at 2. destruct (counts !! p) as [d|] eqn:E; [|done].
  destruct (RateData.resetTime d <? now')%Z; simpl; [|done].
  unfold isRateLimitedAt. by rewrite lookup_delete_eq.
Qed.

(** Within an open window every recorded request adds one to the count. *)
Lemma recordAt_open p times : ∀ counts n reset,
  counts !! p = Some (RateData.Build n reset) →
  Forall (fun t => (t <= reset)%Z) times →
  recordAt p times counts !! p
  = Some (RateData.Build (n + Z.of_nat (length times)) reset).
Proof.
  induction times as [|t times IH]; intros counts n reset Hc Hall.
  - simpl. by rewrite Z.add_0_r.
  - inversion Hall as [|? ? Ht Hrest]; subst.
    unfold recordAt in *. cbn [foldl].
    rewrite (IH _ (n + 1)%Z reset); [| |exact Hrest].
    + f_equal. f_equal. change (length (t :: times)) with (S (length times)). lia.
    + unfold updateRequestCountAt. rewrite Hc. simpl.
      destruct (Z.ltb_spec reset t); [lia|].
      by rewrite lookup_insert_eq.
Qed.

Lemma recordAt_fresh p now counts :
  windowClosed now p counts →
  updateRequestCountAt now p counts !! p = Some (RateData.Build 1 (now + 60000)).
Proof.
  unfold windowClosed, updateRequestCountAt.
  destruct (counts !! p) as [d|]; intros H.
  - destruct (Z.ltb_spec (RateData.resetTime d) now); [|lia].
    by rewrite lookup_insert_eq.
  - by rewrite lookup_insert_eq.
Qed.

(** C4. After exactly [budget p] requests recorded within one 60-second
    window (the first at [t1] opens it, the others come no later than its
    reset time [t1 + 60000]), [isRateLimited] answers true at any reading [t]
    inside the window and leaves the state alone; at any reading [late] past
    the reset time it answers false and clears the provider's state; the next
    recorded request, at [next], then starts a fresh window with count 1 and
    reset time [next + 60000], whether or not the state was cleared before. *)
Theorem rate_window_throttles_then_resets
    (p : ProviderKey) (counts : gmap ProviderKey RateData.t)
    (t1 : Z) (others : list Z) (t late next : Z) :
  windowClosed t1 p counts →
  Z.of_nat (length (t1 :: others)) = budget p →
  Forall (fun u => (u <= t1 + 60000)%Z) others →
  (t <= t1 + 60000)%Z →
  (t1 + 60000 < late)%Z →
  (late <= next)%Z →
  let counts' := recordAt p (t1 :: others) counts in
  isRateLimitedAt t p counts' = (true, counts')
  ∧ isRateLimitedAt late p counts' = (false, delete p counts')
  ∧ delete p counts' !! p = None
  ∧ updateRequestCountAt next p (delete p counts') !! p
    = Some (RateData.Build 1 (next + 60000))
  ∧ updateRequestCountAt next p counts' !! p
    = Some (RateData.Build 1 (next + 60000)).
Proof.
  intros Hclosed Hlen Hall Ht Hlate Hnext counts'.
  assert (E : counts' !! p = Some (RateData.Build (budget p) (t1 + 60000))).
  { unfold counts', recordAt. simpl.
    pose proof (recordAt_open p others (updateRequestCountAt t1 p counts) 1 (t1 + 60000)
                  (recordAt_fresh p t1 counts Hclosed) Hall) as H.
    unfold recordAt in H. rewrite H. f_equal. f_equal.
    change (length (t1 :: others)) with (S (length others)) in Hlen. lia. }
  repeat split.
  - unfold isRateLimitedAt. rewrite E. simpl.
    destruct (Z.ltb_spec (t1 + 60000) t); [lia|].
    fold (budget p). by rewrite Z.leb_refl.
  - unfold isRateLimitedAt. rewrite E. simpl.
    destruct (Z.ltb_spec (t1 + 60000) late); [done|lia].
  - apply lookup_delete_eq.
  - apply recordAt_fresh. unfold windowClosed. by rewrite lookup_delete_eq.
  - apply recordAt_fresh. unfold windowClosed. rewrite E. simpl. lia.
Qed.

End RateLimiter.

(* ===================================================================== *)
(** ** The orchestrator always answers, and how often it invokes *)
(* ===================================================================== *)

(** Case analysis on which of the four providers have a valid key. *)
Ltac key_cases w :=
  destruct (hasKey w GROQ) eqn:?, (hasKey w TOGETHER) eqn:?,
    (hasKey w COHERE) eqn:?, (hasKey w HUGGING_FACE) eqn:?.

Section Orchestrator.
Variable w : World.

Lemma invoked_app (e1 e2 : list Event) : invoked (e1 ++ e2) = invoked e1 ++ invoked e2.
Proof. unfold invoked. apply omap_app. Qed.

Lemma fallbackPass_cons request p rest :
  fallbackPass w request (p :: rest)
  = (limited <- isRateLimited w p ;;
     if negb limited
     then tryCatch
            (response <- callLLMProvider w p request ;;
             setCurrentProvider p ;;
             ret (LLMResponse.withProvider response (displayName p)))
            (fun error => emit (ConsoleError p error) ;; fallbackPass w request rest)
     else fallbackPass w request rest).
Proof. reflexivity. Qed.

Lemma tryFallbackProviders_some request providers :
  tryFallbackProviders w request (Some providers) = fallbackPass w request providers.
Proof. reflexivity. Qed.

Lemma offline_message_nonempty message :
  LLMResponse.message (getOfflineFallbackResponse message) ≠ "".
Proof.
  unfold getOfflineFallbackResponse; simpl.
  repeat match goal with |- context [if ?b then _ else _] => destruct b end;
    discriminate.
Qed.

(** The fallback pass returns a reply with a text, and the providers it
    invokes form a sublist of the list it walks. *)
Lemma fallbackPass_run request providers : ∀ m,
  ∃ r m' evs, fallbackPass w request providers m = (Returned r, m')
              ∧ LLMResponse.message r ≠ ""
              ∧ events m' = events m ++ evs
              ∧ invoked evs `sublist_of` providers.
Proof.
  induction providers as [|p rest IH]; intros m.
  - exists (getOfflineFallbackResponse (LLMRequest.message request)), m, [].
    repeat split.
    + apply offline_message_nonempty.
    + by rewrite app_nil_r.
    + constructor.
  - rewrite fallbackPass_cons. unfold bind at 1.
    destruct (isRateLimited_run w p m) as (m1 & E1 & _ & _ & Hev1).
    rewrite E1.
    destruct (isRateLimitedAt _ _ _).1; simpl.
    + destruct (IH m1) as (r & m' & evs & E & Hm & Hev & Hsub).
      exists r, m', evs. rewrite E, Hev, Hev1. repeat split; auto.
      by apply sublist_cons.
    + unfold tryCatch, bind at 1.
      destruct (callLLMProvider_run w p request m1) as (out & m2 & E2 & _ & Hev2 & Hout).
      rewrite E2. destruct out as [r|e].
      * unfold bind, setCurrentProvider, getService, putService, ret; simpl.
        eexists _, _, [Invoke p]. split; [reflexivity|]. simpl.
        rewrite Hev2, Hev1. split_and!; [tauto | done |].
        apply sublist_skip, sublist_nil_l.
      * unfold bind at 1, emit at 1.
        match goal with |- context [fallbackPass w request rest ?mm] =>
          destruct (IH mm) as (r & m' & evs & E & Hm & Hev & Hsub) end.
        exists r, m', (Invoke p :: ConsoleError p e :: evs).
        rewrite E, Hev. simpl. rewrite Hev2, Hev1. repeat split; auto.
        -- by rewrite <- !app_assoc.
        -- by apply sublist_skip.
Qed.

Lemma hasConfigured_available :
  hasConfiguredProviders w = true → getAvailableProviders w ≠ [].
Proof.
  unfold hasConfiguredProviders, getAvailableProviders.
  key_cases w; simpl; intros; congruence.
Qed.

Lemma available_sublist : getAvailableProviders w `sublist_of` FreeLLMService.fallbackOrder.
Proof.
  unfold getAvailableProviders, FreeLLMService.fallbackOrder.
  key_cases w; simpl;
    repeat first [apply sublist_nil_l | apply sublist_skip | apply sublist_cons].
Qed.

Lemma available_hasKey p : p ∈ getAvailableProviders w ↔ hasKey w p = true.
Proof.
  unfold getAvailableProviders.
  destruct (hasKey w GROQ) eqn:EG, (hasKey w TOGETHER) eqn:ET,
    (hasKey w COHERE) eqn:EC, (hasKey w HUGGING_FACE) eqn:EH;
    destruct p; simpl; rewrite ?EG, ?ET, ?EC, ?EH;
    (split;
     [ intros Hin; try reflexivity; exfalso;
       repeat (apply elem_of_cons in Hin as [Hin|Hin]; [discriminate|]);
       by apply elem_of_nil in Hin
     | intros Hs; try discriminate; rewrite !elem_of_cons; tauto ]).
Qed.

Lemma available_configured p : p ∈ getAvailableProviders w ↔ Configured w p.
Proof.
  rewrite available_hasKey. unfold hasKey, Configured. apply bool_decide_eq_true.
Qed.

Lemma configured_hasConfigured p : Configured w p → hasConfiguredProviders w = true.
Proof.
  intros Hp. apply available_configured, available_hasKey in Hp.
  unfold hasConfiguredProviders.
  destruct p; rewrite Hp; repeat (rewrite ?orb_true_l, ?orb_true_r); reflexivity.
Qed.

(** The shape of every run of [processMessage]: it returns a reply with a
    text; the providers it invokes are at most one first attempt followed by
    one pass over a sublist of the configured providers; the pass follows a
    first attempt only when that attempt failed. *)
Lemma processMessage_run request m :
  ∃ r m' evs first pass,
    processMessage w request m = (Returned r, m')
    ∧ LLMResponse.message r ≠ ""
    ∧ events m' = events m ++ evs
    ∧ invoked evs = first ++ pass
    ∧ length first ≤ 1
    ∧ pass `sublist_of` getAvailableProviders w
    ∧ (pass ≠ [] → first ⊆ failed evs).
Proof.
  unfold processMessage.
  destruct (hasConfiguredProviders w) eqn:Hc; simpl.
  2:{ exists (getConfigurationRequiredResponse (LLMRequest.message request)), m, [], [], [].
      split_and!; [reflexivity | discriminate | by rewrite !app_nil_r | done | simpl; lia
                  | apply sublist_nil_l | by intros H]. }
  destruct (getAvailableProviders w) as [|first rest] eqn:Ha.
  { exists (getConfigurationRequiredResponse (LLMRequest.message request)), m, [], [], [].
    split_and!; [reflexivity | discriminate | by rewrite !app_nil_r | done | simpl; lia
                | apply sublist_nil_l | by intros H]. }
  unfold bind at 1, getService at 1.
  set (ap := actualProvider request _ _ _).
  unfold tryCatch, bind at 1.
  destruct (isRateLimited_run w ap m) as (m1 & E1 & _ & _ & Hev1). rewrite E1.
  destruct (isRateLimitedAt _ _ _).1.
  - rewrite tryFallbackProviders_some.
    destruct (fallbackPass_run request (first :: rest) m1)
      as (r & m' & evs & E & Hm & Hev & Hsub).
    rewrite E. exists r, m', evs, [], (invoked evs).
    rewrite Hev, Hev1. split_and!; auto.
    intros _ x Hx. by apply elem_of_nil in Hx.
  - unfold bind at 1.
    destruct (callLLMProvider_run w ap request m1) as (out & m2 & E2 & _ & Hev2 & Hout).
    rewrite E2. destruct out as [r|e].
    + unfold bind at 1.
      destruct (updateRequestCount_run w ap m2) as (m3 & E3 & _ & _ & Hev3). rewrite E3.
      eexists _, m3, [Invoke ap], [ap], []. split; [reflexivity|]. simpl.
      rewrite Hev3, Hev2, Hev1.
      split_and!; [tauto | done | done | simpl; lia | apply sublist_nil_l | by intros H].
    + rewrite tryFallbackProviders_some. unfold bind at 1, emit at 1.
      match goal with |- context [fallbackPass w request (first :: rest) ?mm] =>
        destruct (fallbackPass_run request (first :: rest) mm)
          as (r & m' & evs & E & Hm & Hev & Hsub) end.
      rewrite E. exists r, m', (Invoke ap :: ConsoleError ap e :: evs), [ap], (invoked evs).
      rewrite Hev. simpl. rewrite Hev2, Hev1.
      split_and!; auto.
      * by rewrite <- !app_assoc.
      * intros _ x Hx. apply list_elem_of_singleton in Hx. subst x.
        unfold failed. simpl. apply elem_of_cons. by left.
Qed.

End Orchestrator.

(** C1. For every world (credentials, clock, vendor answers, random draws),
    every request and every state of the service, [processMessage] returns
    (it throws nothing) and the [message] of its reply is not empty. *)
Theorem processMessage_always_replies
    (w : World) (request : LLMRequest.t) (m : Machine) :
  ∃ r m', processMessage w request m = (Returned r, m')
          ∧ LLMResponse.message r ≠ "".
Proof.
  destruct (processMessage_run w request m) as (r & m' & _ & _ & _ & E & Hm & _).
  eauto.
Qed.

(* ===================================================================== *)
(** ** Throttled and failing providers in the fallback pass *)
(* ===================================================================== *)

Section Blocked.
Variable w : World.

Lemma check_keeps_throttled counts p q k :
  Throttled w counts q → Throttled w (isRateLimitedAt (clock w k) p counts).2 q.
Proof.
  intros Hq. destruct (decide (q = p)) as [->|Hne].
  - by rewrite isRateLimitedAt_true.
  - intros k'. rewrite <- (Hq k'). apply isRateLimitedAt_ext.
    by apply isRateLimitedAt_other.
Qed.

Lemma check_keeps_unthrottled counts p q now :
  Unthrottled w counts q → Unthrottled w (isRateLimitedAt now p counts).2 q.
Proof.
  intros Hq k'. destruct (decide (q = p)) as [->|Hne].
  - by apply isRateLimitedAt_false_same.
  - rewrite <- (Hq k'). apply isRateLimitedAt_ext. by apply isRateLimitedAt_other.
Qed.

Lemma Carried_refl m : Carried w m m [].
Proof.
  split_and!; [by rewrite app_nil_r | | done].
  intros q Hq. split; [done|]. simpl. apply not_elem_of_nil.
Qed.

Lemma Carried_trans m1 m2 m3 e1 e2 :
  Carried w m1 m2 e1 → Carried w m2 m3 e2 → Carried w m1 m3 (e1 ++ e2).
Proof.
  intros (E1 & T1 & U1) (E2 & T2 & U2). split_and!.
  - by rewrite E2, E1, app_assoc.
  - intros q Hq. destruct (T1 q Hq) as [Hq2 N1]. destruct (T2 q Hq2) as [Hq3 N2].
    split; [done|]. rewrite invoked_app, elem_of_app. tauto.
  - auto.
Qed.

(** The check of one provider. *)
Lemma check_carried p m :
  ∃ m1, isRateLimited w p m
        = (Returned (isRateLimitedAt (clock w (ticks m)) p (countsOf m)).1, m1)
        ∧ Carried w m m1 [].
Proof.
  destruct (isRateLimited_run w p m) as (m1 & E & Hc & _ & Hev).
  exists m1. split; [exact E|].
  unfold Carried, countsOf. rewrite Hc, Hev. split_and!.
  - by rewrite app_nil_r.
  - intros q Hq. split; [by apply check_keeps_throttled|]. simpl. apply not_elem_of_nil.
  - intros q Hq. by apply check_keeps_unthrottled.
Qed.

(** A provider that is checked and found free is not a throttled one. *)
Lemma free_not_throttled p q m :
  (isRateLimitedAt (clock w (ticks m)) p (countsOf m)).1 = false →
  Throttled w (countsOf m) q → q ≠ p.
Proof. intros Hf Hq ->. rewrite (Hq (ticks m)) in Hf. discriminate. Qed.

(** A blocked provider at the head of the list is passed over. *)
Lemma fallbackPass_blocked_head request p rest m :
  Blocked w (countsOf m) p →
  ∃ m1 evs, fallbackPass w request (p :: rest) m = fallbackPass w request rest m1
            ∧ Carried w m m1 evs.
Proof.
  intros Hb. rewrite fallbackPass_cons. unfold bind at 1.
  destruct (check_carried p m) as (m1 & E1 & C1). rewrite E1.
  destruct (isRateLimitedAt _ _ _).1 eqn:Hlim; simpl.
  - by exists m1, [].
  - destruct Hb as [Ht|Hf]; [rewrite (Ht (ticks m)) in Hlim; discriminate|].
    unfold tryCatch, bind at 1.
    destruct (callLLMProvider_run w p request m1) as (out & m2 & E2 & Hs2 & Hev2 & Hout).
    rewrite E2. destruct out as [r|e].
    + destruct Hout as (_ & _ & Hok). rewrite Hf in Hok. discriminate.
    + unfold bind at 1, emit at 1.
      eexists _, [Invoke p; ConsoleError p e]. split; [reflexivity|].
      destruct C1 as (Hev1 & T1 & U1). rewrite app_nil_r in Hev1.
      unfold Carried, countsOf in *. simpl. rewrite Hs2, Hev2, Hev1. split_and!.
      * by rewrite <- app_assoc.
      * intros q Hq. split; [by apply T1|].
        rewrite list_elem_of_singleton. by eapply free_not_throttled.
      * intros q Hq. by apply U1.
Qed.

(** When every provider of the list is blocked the pass ends in the canned
    offline reply. *)
Lemma fallbackPass_all_blocked request providers : ∀ m,
  Forall (Blocked w (countsOf m)) providers →
  ∃ m' evs,
    fallbackPass w request providers m
    = (Returned (getOfflineFallbackResponse (LLMRequest.message request)), m')
    ∧ Carried w m m' evs.
Proof.
  induction providers as [|p rest IH]; intros m Hall.
  - exists m, []. split; [reflexivity|apply Carried_refl].
  - inversion Hall as [|? ? Hp Hrest]; subst.
    destruct (fallbackPass_blocked_head request p rest m Hp) as (m1 & e1 & E1 & C1).
    destruct (IH m1) as (m' & e2 & E2 & C2).
    { eapply Forall_impl; [exact Hrest|]. intros q [Ht|Hf]; [left|by right].
      by apply C1. }
    exists m', (e1 ++ e2). rewrite E1, E2. split; [done|].
    by eapply Carried_trans.
Qed.

(** The pass stops at the first provider that is configured, free and
    answering, once the blocked ones before it have been passed over. *)
Lemma fallbackPass_first_free request ahead B behind : ∀ m,
  Forall (Blocked w (countsOf m)) ahead →
  Configured w B → Unthrottled w (countsOf m) B → Succeeding w B →
  ∃ r m' evs,
    fallbackPass w request (ahead ++ B :: behind) m = (Returned r, m')
    ∧ LLMResponse.provider r = displayName B
    ∧ LLMResponse.confidence r = (8 # 10)%Q
    ∧ events m' = events m ++ evs
    ∧ (∀ q, Throttled w (countsOf m) q → q ∉ invoked evs).
Proof.
  induction ahead as [|p rest IH]; intros m Hall HB HU HS.
  - simpl app. rewrite fallbackPass_cons. unfold bind at 1.
    destruct (check_carried B m) as (m1 & E1 & (Hev1 & T1 & U1)). rewrite E1.
    rewrite (HU (ticks m)). simpl. rewrite app_nil_r in Hev1.
    unfold tryCatch, bind at 1.
    destruct (callLLMProvider_run w B request m1) as (out & m2 & E2 & Hs2 & Hev2 & Hout).
    rewrite E2. destruct out as [r|e].
    + unfold bind, setCurrentProvider, getService, putService, ret; simpl.
      eexists _, _, [Invoke B]. split; [reflexivity|]. simpl.
      rewrite Hev2, Hev1. split_and!; [done | tauto | done |].
      intros q Hq. rewrite list_elem_of_singleton.
      eapply free_not_throttled; [apply HU | exact Hq].
    + rewrite (HS _ _) in Hout. by specialize (Hout HB).
  - inversion Hall as [|? ? Hp Hrest]; subst.
    change ((p :: rest) ++ B :: behind) with (p :: (rest ++ B :: behind)).
    destruct (fallbackPass_blocked_head request p (rest ++ B :: behind) m Hp)
      as (m1 & e1 & E1 & (Hev1 & T1 & U1)).
    destruct (IH m1) as (r & m' & e2 & E2 & Hr & Hc & Hev2 & Hn); auto.
    { eapply Forall_impl; [exact Hrest|]. intros q [Ht|Hf]; [left|by right].
      by apply T1. }
    exists r, m', (e1 ++ e2). rewrite E1, E2. split_and!; auto.
    + by rewrite Hev2, Hev1, app_assoc.
    + intros q Hq. rewrite invoked_app, elem_of_app.
      destruct (T1 q Hq) as [Hq1 N1]. specialize (Hn q Hq1). tauto.
Qed.

Lemma actualProvider_available request current first rest :
  actualProvider request current (first :: rest) first ∈ first :: rest.
Proof.
  unfold actualProvider. case_bool_decide; [done|]. apply elem_of_cons. by left.
Qed.

(** The configured providers ahead of a configured provider [B]. *)
Lemma available_split B :
  Configured w B →
  ∃ ahead behind, getAvailableProviders w = ahead ++ B :: behind
                  ∧ ∀ p, p ∈ ahead → Configured w p ∧ rank p < rank B.
Proof.
  intros HB. apply available_configured, available_hasKey in HB.
  assert (Hk : ∀ p b, p ∈ (if hasKey w p then [p] else []) ++ b → p ∉ b → Configured w p).
  { intros p b Hin Hn. apply available_configured, available_hasKey.
    destruct (hasKey w p); [done|]. by simpl in Hin. }
  unfold getAvailableProviders.
  destruct B; rewrite HB.
  - exists ((if hasKey w GROQ then [GROQ] else [])
            ++ (if hasKey w TOGETHER then [TOGETHER] else [])
            ++ (if hasKey w COHERE then [COHERE] else [])),
      []. split; [by rewrite <- !app_assoc|].
    intros p Hp. split.
    + apply available_configured, available_hasKey.
      destruct (hasKey w GROQ) eqn:EG, (hasKey w TOGETHER) eqn:ET,
        (hasKey w COHERE) eqn:EC; simpl in Hp;
        repeat (apply elem_of_cons in Hp as [->|Hp]; [done|]);
        by apply elem_of_nil in Hp.
    + destruct (hasKey w GROQ), (hasKey w TOGETHER), (hasKey w COHERE); simpl in Hp;
        repeat (apply elem_of_cons in Hp as [->|Hp]; [simpl; lia|]);
        by apply elem_of_nil in Hp.
  - exists ((if hasKey w GROQ then [GROQ] else [])
            ++ (if hasKey w TOGETHER then [TOGETHER] else [])),
      (if hasKey w HUGGING_FACE then [HUGGING_FACE] else []).
    split; [by rewrite <- !app_assoc|].
    intros p Hp. split.
    + apply available_configured, available_hasKey.
      destruct (hasKey w GROQ) eqn:EG, (hasKey w TOGETHER) eqn:ET; simpl in Hp;
        repeat (apply elem_of_cons in Hp as [->|Hp]; [done|]);
        by apply elem_of_nil in Hp.
    + destruct (hasKey w GROQ), (hasKey w TOGETHER); simpl in Hp;
        repeat (apply elem_of_cons in Hp as [->|Hp]; [simpl; lia|]);
        by apply elem_of_nil in Hp.
  - exists [], ((if hasKey w TOGETHER then [TOGETHER] else [])
                ++ (if hasKey w COHERE then [COHERE] else [])
                ++ (if hasKey w HUGGING_FACE then [HUGGING_FACE] else [])).
    split; [done|]. intros p Hp. by apply elem_of_nil in Hp.
  - exists (if hasKey w GROQ then [GROQ] else []),
      ((if hasKey w COHERE then [COHERE] else [])
       ++ (if hasKey w HUGGING_FACE then [HUGGING_FACE] else [])).
    split; [done|].
    intros p Hp. split.
    + apply available_configured, available_hasKey.
      destruct (hasKey w GROQ) eqn:EG; simpl in Hp;
        repeat (apply elem_of_cons in Hp as [->|Hp]; [done|]);
        by apply elem_of_nil in Hp.
    + destruct (hasKey w GROQ); simpl in Hp;
        repeat (apply elem_of_cons in Hp as [->|Hp]; [simpl; lia|]);
        by apply elem_of_nil in Hp.
Qed.

(** [processMessage] up to the fallback pass, when the provider it tries
    first is blocked. *)
Lemma processMessage_first_blocked request m first rest :
  hasConfiguredProviders w = true →
  getAvailableProviders w = first :: rest →
  Blocked w (countsOf m)
    (actualProvider request (FreeLLMService.currentProvider (service m))
       (first :: rest) first) →
  ∃ m1 evs, processMessage w request m = fallbackPass w request (first :: rest) m1
            ∧ Carried w m m1 evs.
Proof.
  intros Hc Ha Hb. unfold processMessage. rewrite Hc. simpl. rewrite Ha.
  unfold bind at 1, getService at 1.
  set (ap := actualProvider request _ _ _) in *.
  unfold tryCatch, bind at 1.
  destruct (check_carried ap m) as (m1 & E1 & C1). rewrite E1.
  destruct (isRateLimitedAt _ _ _).1 eqn:Hlim.
  - rewrite tryFallbackProviders_some.
    destruct (fallbackPass_run w request (first :: rest) m1) as (r & m' & evs & E & _).
    rewrite E. by exists m1, [].
  - destruct Hb as [Ht|Hf]; [rewrite (Ht (ticks m)) in Hlim; discriminate|].
    unfold bind at 1.
    destruct (callLLMProvider_run w ap request m1) as (out & m2 & E2 & Hs2 & Hev2 & Hout).
    rewrite E2. destruct out as [r|e].
    + destruct Hout as (_ & _ & Hok). rewrite Hf in Hok. discriminate.
    + rewrite tryFallbackProviders_some. unfold bind at 1, emit at 1.
      eexists _, [Invoke ap; ConsoleError ap e]. split; [reflexivity|].
      destruct C1 as (Hev1 & T1 & U1). rewrite app_nil_r in Hev1.
      unfold Carried, countsOf in *. simpl. rewrite Hs2, Hev2, Hev1. split_and!.
      * by rewrite <- app_assoc.
      * intros q Hq. split; [by apply T1|].
        rewrite list_elem_of_singleton. by eapply free_not_throttled.
      * intros q Hq. by apply U1.
Qed.

End Blocked.

(* ===================================================================== *)
(** ** The properties of the orchestrator *)
(* ===================================================================== *)

(** C2. If no provider has a valid credential, [processMessage] returns the
    reply whose provider field is exactly "Configuration Helper" and whose
    confidence is 1.0 (and it touches nothing). *)
Theorem no_credential_configuration_helper
    (w : World) (request : LLMRequest.t) (m : Machine) :
  (∀ p, getValidApiKey w p = None) →
  ∃ r, processMessage w request m = (Returned r, m)
       ∧ LLMResponse.provider r = "Configuration Helper"
       ∧ LLMResponse.confidence r = 1%Q.
Proof.
  intros Hnone. unfold processMessage, hasConfiguredProviders, hasKey.
  rewrite !Hnone. simpl.
  eexists. split; [reflexivity|]. split; reflexivity.
Qed.

Lemma no_credential_configuration_helper_witness :
  ∃ r, processMessage placeholderWorld (ask "hello" None) (boot FreeLLMService.new)
       = (Returned r, boot FreeLLMService.new)
       ∧ LLMResponse.provider r = "Configuration Helper"
       ∧ LLMResponse.confidence r = 1%Q.
Proof.
  apply (no_credential_configuration_helper placeholderWorld (ask "hello" None)
           (boot FreeLLMService.new)).
  intros p. destruct p; vm_compute; reflexivity.
Defined.

Lemma rate_window_throttles_then_resets_witness :
  let counts' := recordAt GROQ (0 :: replicate 29 1000)%Z ∅ in
  isRateLimitedAt 60000 GROQ counts' = (true, counts')
  ∧ isRateLimitedAt 60001 GROQ counts' = (false, delete GROQ counts')
  ∧ delete GROQ counts' !! GROQ = None
  ∧ updateRequestCountAt 60002 GROQ (delete GROQ counts') !! GROQ
    = Some (RateData.Build 1 (60002 + 60000))
  ∧ updateRequestCountAt 60002 GROQ counts' !! GROQ
    = Some (RateData.Build 1 (60002 + 60000)).
Proof.
  apply (rate_window_throttles_then_resets GROQ ∅ 0 (replicate 29 1000)%Z
           60000 60001 60002).
  - vm_compute. exact I.
  - vm_compute. reflexivity.
  - apply Forall_forall. intros u Hu. apply elem_of_replicate in Hu as [-> _]. lia.
  - lia.
  - lia.
  - lia.
Defined.

(** C3 (amended). When at least one provider is configured and every
    configured provider is throttled or fails, [processMessage] returns a
    reply with provider "Offline Fallback" and confidence 0.6 whose text is
    chosen by the first rule that applies, the message being read without
    regard to letter case: "part" or "component" gives the parts text;
    otherwise "fault", "error" or "code" gives the fault-code text; otherwise
    "maintenance" or "service" gives the maintenance text; otherwise the
    generic text. *)
Theorem all_blocked_offline_fallback
    (w : World) (request : LLMRequest.t) (m : Machine) :
  (∃ p, Configured w p) →
  (∀ p, Configured w p → Blocked w (countsOf m) p) →
  let text := LLMRequest.message request in
  let parts := mentions text "part" || mentions text "component" in
  let faults := mentions text "fault" || mentions text "error" || mentions text "code" in
  let upkeep := mentions text "maintenance" || mentions text "service" in
  ∃ r m', processMessage w request m = (Returned r, m')
          ∧ LLMResponse.provider r = "Offline Fallback"
          ∧ LLMResponse.confidence r = (6 # 10)%Q
          ∧ (parts = true → LLMResponse.message r = partsText)
          ∧ (parts = false → faults = true → LLMResponse.message r = faultText)
          ∧ (parts = false → faults = false → upkeep = true →
             LLMResponse.message r = maintenanceText)
          ∧ (parts = false → faults = false → upkeep = false →
             LLMResponse.message r = genericText).
Proof.
  intros [p0 Hp0] Hall text parts faults upkeep.
  pose proof (configured_hasConfigured w p0 Hp0) as Hc.
  destruct (getAvailableProviders w) as [|first rest] eqn:Ha.
  { by apply hasConfigured_available in Hc. }
  assert (Hav : ∀ p, p ∈ first :: rest → Blocked w (countsOf m) p).
  { intros p Hp. apply Hall, available_configured. by rewrite Ha. }
  destruct (processMessage_first_blocked w request m first rest Hc Ha)
    as (m1 & e1 & E1 & (_ & T1 & _)).
  { apply Hav, actualProvider_available. }
  destruct (fallbackPass_all_blocked w request (first :: rest) m1) as (m' & e2 & E2 & _).
  { apply Forall_forall. intros p Hp. destruct (Hav p Hp) as [Ht|Hf]; [left|by right].
    by apply T1. }
  exists (getOfflineFallbackResponse text), m'. rewrite E1, E2.
  split; [reflexivity|]. split; [reflexivity|]. split; [reflexivity|].
  unfold getOfflineFallbackResponse. cbn [LLMResponse.message].
  fold (mentions text "part") (mentions text "component") (mentions text "fault")
    (mentions text "error") (mentions text "code") (mentions text "maintenance")
    (mentions text "service").
  fold parts faults upkeep.
  split_and!; intros; repeat match goal with H : _ = _ |- _ => rewrite H end; reflexivity.
Qed.

Lemma all_blocked_offline_fallback_witness :
  ∃ r m', processMessage groqDownWorld (ask "my engine needs service" None)
            (boot FreeLLMService.new) = (Returned r, m')
          ∧ LLMResponse.provider r = "Offline Fallback"
          ∧ LLMResponse.confidence r = (6 # 10)%Q
          ∧ LLMResponse.message r = maintenanceText.
Proof.
  destruct (all_blocked_offline_fallback groqDownWorld
              (ask "my engine needs service" None) (boot FreeLLMService.new))
    as (r & m' & E & Hp & Hc & _ & _ & Hm & _).
  - exists GROQ. vm_compute. eexists. reflexivity.
  - intros p _. right. intros k prompt. reflexivity.
  - exists r, m'. split; [exact E|]. split; [exact Hp|]. split; [exact Hc|].
    apply Hm; vm_compute; reflexivity.
Defined.

(** C3, as stated, fails: with Groq alone configured and unreachable, the
    message "fault code on a spare part" contains "fault" and "code", yet the
    offline reply carries the parts text, which is not the fault-code text. *)
Lemma offline_keyword_order_example :
  Text.includes "fault code on a spare part" "fault" = true
  ∧ Text.includes "fault code on a spare part" "code" = true
  ∧ ∃ r m', processMessage groqDownWorld (ask "fault code on a spare part" None)
              (boot FreeLLMService.new) = (Returned r, m')
            ∧ LLMResponse.provider r = "Offline Fallback"
            ∧ LLMResponse.message r = partsText
            ∧ LLMResponse.message r ≠ faultText.
Proof.
  split; [vm_compute; reflexivity|]. split; [vm_compute; reflexivity|].
  eexists _, _. split; [vm_compute; reflexivity|].
  split; [reflexivity|]. split; [reflexivity|]. discriminate.
Qed.

(** A throttled requested provider [A] is passed over, and the pass stops
    at [B] when [B] is configured, free and answering and every configured
    provider ahead of it is blocked. *)
Lemma requested_throttled_run
    (w : World) (request : LLMRequest.t) (m : Machine) (A B : ProviderKey) :
  LLMRequest.provider request = Some A →
  Configured w A → Throttled w (countsOf m) A →
  Configured w B → Unthrottled w (countsOf m) B → Succeeding w B →
  (∀ p, Configured w p → rank p < rank B → Blocked w (countsOf m) p) →
  ∃ r m' evs, processMessage w request m = (Returned r, m')
              ∧ LLMResponse.provider r = displayName B
              ∧ events m' = events m ++ evs
              ∧ A ∉ invoked evs.
Proof.
  intros Hreq HA HT HB HU HS Hahead.
  pose proof (configured_hasConfigured w A HA) as Hc.
  destruct (getAvailableProviders w) as [|first rest] eqn:Ha.
  { by apply hasConfigured_available in Hc. }
  assert (Hap : actualProvider request (FreeLLMService.currentProvider (service m))
                  (first :: rest) first = A).
  { unfold actualProvider. rewrite Hreq. simpl. case_bool_decide as Hin; [done|].
    exfalso. apply Hin. rewrite <- Ha. by apply available_configured. }
  destruct (processMessage_first_blocked w request m first rest Hc Ha)
    as (m1 & e1 & E1 & (Hev1 & T1 & U1)).
  { rewrite Hap. by left. }
  destruct (available_split w B HB) as (ahead & behind & Hsplit & Hin).
  rewrite Ha in Hsplit.
  destruct (fallbackPass_first_free w request ahead B behind m1)
    as (r & m' & e2 & E2 & Hr & _ & Hev2 & Hn); auto.
  { apply Forall_forall. intros p Hp. destruct (Hin p Hp) as [Hcp Hrk].
    destruct (Hahead p Hcp Hrk) as [Ht|Hf]; [left|by right]. by apply T1. }
  exists r, m', (e1 ++ e2). rewrite E1, Hsplit, E2. split_and!; auto.
  - by rewrite Hev2, Hev1, app_assoc.
  - rewrite invoked_app, elem_of_app. destruct (T1 A HT) as [HT1 N1].
    specialize (Hn A HT1). tauto.
Qed.



(** In particular so when [A] and [B] are the only configured providers. *)
Corollary two_providers_fallback
    (w : World) (request : LLMRequest.t) (m : Machine) (A B : ProviderKey) :
  LLMRequest.provider request = Some A →
  Configured w A → Throttled w (countsOf m) A →
  Configured w B → Unthrottled w (countsOf m) B → Succeeding w B →
  (∀ p, Configured w p → p = A ∨ p = B) →
  ∃ r m' evs, processMessage w request m = (Returned r, m')
              ∧ LLMResponse.provider r = displayName B
              ∧ events m' = events m ++ evs
              ∧ A ∉ invoked evs.
Proof.
  intros Hreq HA HT HB HU HS Honly.
  apply requested_throttled_run; auto.
  intros p Hp Hrank. destruct (Honly p Hp) as [->| ->]; [by left|lia].
Qed.



Lemma filter_absent (p : ProviderKey) (l : list ProviderKey) :
  p ∉ l → filter (fun q => q = p) l = [].
Proof.
  induction l as [|x l IH]; intros Hn; [reflexivity|].
  rewrite not_elem_of_cons in Hn. destruct Hn as [Hx Hl].
  rewrite filter_cons. case_decide as Hxp; [congruence|]. by apply IH.
Qed.

Lemma NoDup_filter_le_one (p : ProviderKey) (l : list ProviderKey) :
  NoDup l → length (filter (fun q => q = p) l) ≤ 1.
Proof.
  induction 1 as [|x l Hx Hl IH]; [simpl; lia|].
  rewrite filter_cons. case_decide as Hxp; [|exact IH].
  subst x. simpl. rewrite filter_absent by done. simpl. lia.
Qed.

(** C6 (amended). A run of [processMessage] invokes at most one provider as
    its first attempt and then makes at most one pass over the configured
    providers in their fixed order, invoking each at most once in that pass;
    the pass comes after a first attempt only if that attempt failed, and it
    starts again from the head of the list, so the provider of the failed
    first attempt may be invoked in it once more.  Hence no provider is
    invoked more than twice, and none but the first-attempt provider more
    than once. *)
Theorem one_attempt_then_one_pass
    (w : World) (request : LLMRequest.t) (m : Machine) :
  ∃ r m' evs first pass,
    processMessage w request m = (Returned r, m')
    ∧ events m' = events m ++ evs
    ∧ invoked evs = first ++ pass
    ∧ length first ≤ 1
    ∧ pass `sublist_of` getAvailableProviders w
    ∧ NoDup pass
    ∧ (pass ≠ [] → first ⊆ failed evs)
    ∧ (∀ p, length (filter (fun q => q = p) (invoked evs)) ≤ 2)
    ∧ (∀ p, p ∉ first → length (filter (fun q => q = p) (invoked evs)) ≤ 1).
Proof.
  destruct (processMessage_run w request m)
    as (r & m' & evs & first & pass & E & _ & Hev & Hinv & Hlen & Hsub & Hfail).
  assert (Hnd : NoDup pass).
  { eapply sublist_NoDup; [|exact Hsub].
    eapply sublist_NoDup; [|apply available_sublist].
    unfold FreeLLMService.fallbackOrder.
    repeat (apply NoDup_cons; split; [rewrite ?elem_of_cons, ?elem_of_nil; intuition discriminate|]).
    apply NoDup_nil_2. }
  exists r, m', evs, first, pass. split_and!; auto.
  - intros p. rewrite Hinv, filter_app, length_app.
    pose proof (NoDup_filter_le_one p pass Hnd).
    pose proof (length_filter (fun q => q = p) first). lia.
  - intros p Hp. rewrite Hinv, filter_app, length_app.
    pose proof (NoDup_filter_le_one p pass Hnd).
    rewrite (filter_absent p first Hp). simpl. lia.
Qed.

(** C6, as stated, fails: with Groq alone configured and unreachable, Groq
    is invoked, its failure is caught, and the fallback pass invokes it
    again. *)
Lemma retry_after_failure_example :
  let m' := (processMessage groqDownWorld (ask "hello" None) (boot FreeLLMService.new)).2 in
  events m' = [Invoke GROQ; ConsoleError GROQ (FetchFailed GROQ);
               Invoke GROQ; ConsoleError GROQ (FetchFailed GROQ)]
  ∧ ¬ NoRetryAfterFailure (events m').
Proof.
  assert (E : events (processMessage groqDownWorld (ask "hello" None)
                        (boot FreeLLMService.new)).2
              = [Invoke GROQ; ConsoleError GROQ (FetchFailed GROQ);
                 Invoke GROQ; ConsoleError GROQ (FetchFailed GROQ)])
    by (vm_compute; reflexivity).
  split; [exact E|].
  intros H. rewrite E in H.
  apply (H [Invoke GROQ] GROQ (FetchFailed GROQ)
           [Invoke GROQ; ConsoleError GROQ (FetchFailed GROQ)]); [reflexivity|].
  simpl. apply elem_of_cons. by left.
Qed.

(** C7 at its failing input: Groq rejects twice, the fallback pass reaches
    Together AI, which answers; the reply is labelled "Together AI", but no
    request is recorded for Together AI (nor for anyone). *)
Theorem fallback_success_not_recorded :
  let run := processMessage groqFlakyWorld (ask "hello" None) (boot FreeLLMService.new) in
  (∃ r, run.1 = Returned r ∧ LLMResponse.provider r = "Together AI")
  ∧ invoked (events run.2) = [GROQ; GROQ; TOGETHER]
  ∧ countsOf run.2 !! TOGETHER = None
  ∧ countsOf run.2 = ∅.
Proof.
  split_and!.
  - eexists. split; [vm_compute; reflexivity|reflexivity].
  - vm_compute. reflexivity.
  - vm_compute. reflexivity.
  - vm_compute. reflexivity.
Qed.

(** More generally the fallback pass never records a request: whatever rate
    state is there after it was there before, unchanged. *)
Lemma fallbackPass_never_records (w : World) (request : LLMRequest.t)
    (providers : list ProviderKey) : ∀ m,
  ∃ r m', fallbackPass w request providers m = (Returned r, m')
          ∧ ∀ p d, countsOf m' !! p = Some d → countsOf m !! p = Some d.
Proof.
  assert (Hsub : ∀ now q c p d,
             (isRateLimitedAt now q c).2 !! p = Some d → c !! p = Some d).
  { intros now q c p d. unfold isRateLimitedAt.
    destruct (c !! q) as [e|]; [|done].
    destruct (RateData.resetTime e <? now)%Z; simpl; [|done].
    rewrite lookup_delete_Some. tauto. }
  induction providers as [|q rest IH]; intros m.
  - eexists _, m. split; [reflexivity|]. auto.
  - rewrite fallbackPass_cons. unfold bind at 1.
    destruct (isRateLimited_run w q m) as (m1 & E1 & Hc1 & _ & _). rewrite E1.
    assert (H1 : ∀ p d, countsOf m1 !! p = Some d → countsOf m !! p = Some d).
    { intros p d. unfold countsOf. rewrite Hc1. apply Hsub. }
    destruct (isRateLimitedAt _ _ _).1; simpl.
    + destruct (IH m1) as (r & m' & E & H). exists r, m'. split; [exact E|]. auto.
    + unfold tryCatch, bind at 1.
      destruct (callLLMProvider_run w q request m1) as (out & m2 & E2 & Hs2 & _ & _).
      rewrite E2. destruct out as [r|e].
      * unfold bind, setCurrentProvider, getService, putService, ret; simpl.
        eexists _, _. split; [reflexivity|].
        unfold countsOf in *. simpl. rewrite Hs2. exact H1.
      * unfold bind at 1, emit at 1.
        match goal with |- context [fallbackPass w request rest ?mm] =>
          destruct (IH mm) as (r & m' & E & H) end.
        exists r, m'. split; [exact E|].
        intros p d Hp. apply H1. specialize (H p d Hp).
        unfold countsOf in *. simpl in H. by rewrite Hs2 in H.
Qed.

(** The first attempt, for comparison, does record its success. *)
Lemma first_attempt_recorded :
  let run := processMessage threeUpWorld (ask "hello" None) (boot FreeLLMService.new) in
  (∃ r, run.1 = Returned r ∧ LLMResponse.provider r = "Groq")
  ∧ countsOf run.2 !! GROQ = Some (RateData.Build 1 60000).
Proof.
  split.
  - eexists. split; [vm_compute; reflexivity|reflexivity].
  - vm_compute. reflexivity.
Qed.

(** C8 (amended). With at least one provider configured, [first] being the
    head of the configured list is the first configured provider of the fixed
    order GROQ, TOGETHER, COHERE, HUGGING_FACE.  [processMessage] selects it
    when the caller requests a provider without a valid credential, and when
    the caller requests none and the service's current provider has no valid
    credential; when the caller requests none and the current provider is
    configured, it selects the current provider.  A fresh service has Groq as
    current provider and so selects [first].  The selected provider is the
    one invoked first, unless it is throttled. *)
Theorem selection_rule
    (w : World) (request : LLMRequest.t) (m : Machine)
    (first : ProviderKey) (rest : list ProviderKey) :
  getAvailableProviders w = first :: rest →
  let current := FreeLLMService.currentProvider (service m) in
  let chosen := actualProvider request current (first :: rest) first in
  firstConfigured w = Some first
  ∧ (∀ p, LLMRequest.provider request = Some p → ¬ Configured w p → chosen = first)
  ∧ (LLMRequest.provider request = None → ¬ Configured w current → chosen = first)
  ∧ (LLMRequest.provider request = None → Configured w current → chosen = current)
  ∧ (LLMRequest.provider request = None → current = GROQ → chosen = first)
  ∧ ((isRateLimitedAt (clock w (ticks m)) chosen (countsOf m)).1 = false →
     ∃ r m' evs, processMessage w request m = (Returned r, m')
                 ∧ events m' = events m ++ Invoke chosen :: evs).
Proof.
  intros Ha current chosen.
  assert (Hfirst : firstConfigured w = Some first).
  { unfold firstConfigured, FreeLLMService.fallbackOrder.
    unfold getAvailableProviders in Ha. simpl.
    key_cases w; simpl in Ha; congruence. }
  assert (Hmem : ∀ p, p ∈ first :: rest ↔ Configured w p).
  { intros p. rewrite <- Ha. apply available_configured. }
  split_and!.
  - exact Hfirst.
  - intros p Hp Hn. unfold chosen, actualProvider. rewrite Hp. simpl.
    case_bool_decide as Hin; [|done]. by apply Hmem in Hin.
  - intros Hp Hn. unfold chosen, actualProvider. rewrite Hp. simpl.
    case_bool_decide as Hin; [|done]. by apply Hmem in Hin.
  - intros Hp Hc. unfold chosen, actualProvider. rewrite Hp. simpl.
    case_bool_decide as Hin; [done|]. by apply Hmem in Hc.
  - intros Hp Hg. unfold chosen, actualProvider. rewrite Hp, Hg. simpl.
    case_bool_decide as Hin; [|done].
    apply Hmem, available_configured, available_hasKey in Hin.
    unfold firstConfigured, FreeLLMService.fallbackOrder in Hfirst. simpl in Hfirst.
    rewrite Hin in Hfirst. congruence.
  - intros Hfree.
    assert (Hc : hasConfiguredProviders w = true).
    { apply (configured_hasConfigured w first), Hmem, elem_of_cons. by left. }
    unfold processMessage. rewrite Hc. simpl. rewrite Ha.
    unfold bind at 1, getService at 1. fold current. fold chosen.
    unfold tryCatch, bind at 1.
    destruct (isRateLimited_run w chosen m) as (m1 & E1 & _ & _ & Hev1).
    rewrite E1. unfold countsOf in Hfree. rewrite Hfree.
    unfold bind at 1.
    destruct (callLLMProvider_run w chosen request m1) as (out & m2 & E2 & _ & Hev2 & _).
    rewrite E2. destruct out as [r|e].
    + unfold bind at 1.
      destruct (updateRequestCount_run w chosen m2) as (m3 & E3 & _ & _ & Hev3).
      rewrite E3. eexists _, m3, []. split; [reflexivity|].
      by rewrite Hev3, Hev2, Hev1.
    + rewrite tryFallbackProviders_some. unfold bind at 1, emit at 1.
      match goal with |- context [fallbackPass w request (first :: rest) ?mm] =>
        destruct (fallbackPass_run w request (first :: rest) mm)
          as (r & m' & evs & E & _ & Hev & _) end.
      rewrite E. exists r, m', (ConsoleError chosen e :: evs). split; [reflexivity|].
      rewrite Hev. simpl. rewrite Hev2, Hev1. by rewrite <- !app_assoc.
Qed.

Lemma selection_rule_witness :
  firstConfigured groqFlakyWorld = Some GROQ
  ∧ actualProvider (ask "hello" (Some COHERE)) GROQ [GROQ; TOGETHER] GROQ = GROQ.
Proof.
  destruct (selection_rule groqFlakyWorld (ask "hello" (Some COHERE))
              (boot FreeLLMService.new) GROQ [TOGETHER])
    as (Hfirst & Hreq & _).
  - vm_compute. reflexivity.
  - split; [exact Hfirst|].
    apply (Hreq COHERE); [reflexivity|].
    intros [key Hkey]. vm_compute in Hkey. discriminate.
Defined.

(** C8, as stated, fails: Groq and Together AI are configured, so Groq is
    the first configured provider.  In a first call Groq fails twice and the
    fallback pass succeeds with Together AI; in the next call, with no
    provider requested, Together AI is selected and invoked although Groq is
    configured, free and would answer (third request of the process). *)
Lemma selection_follows_history_example :
  let w := groqFlakyWorld in
  let request := ask "hello" None in
  let m1 := (processMessage w request (boot FreeLLMService.new)).2 in
  let second := processMessage w request m1 in
  firstConfigured w = Some GROQ
  ∧ invoked (events m1) = [GROQ; GROQ; TOGETHER]
  ∧ FreeLLMService.currentProvider (service m1) = TOGETHER
  ∧ countsOf m1 !! GROQ = None
  ∧ isCompletion (fetch w (requests m1) GROQ (buildCatCentralPrompt request)) = true
  ∧ drop (length (events m1)) (events second.2) = [Invoke TOGETHER]
  ∧ ∃ r, second.1 = Returned r ∧ LLMResponse.provider r = "Together AI".
Proof.
  split_and!; try (vm_compute; reflexivity).
  eexists. split; [vm_compute; reflexivity|reflexivity].
Qed.

(* ===================================================================== *)
(** ** The response parser *)
(* ===================================================================== *)

Section MatcherFuel.
Import Text Regex.
Variables ic bos : bool.

(** On the states of one attempt, [run] depends on its continuation only
    through the continuation's values on the states of that attempt. *)
Lemma run_ext (n : nat) (r : regex) : ∀ k k' st,
  (∀ st', placed n st' → k st' = k' st') →
  placed n st →
  run ic bos r k st = run ic bos r k' st.
Proof.
  induction r as [|c|f| |r1 IH1 r2 IH2|r1 IH1 r2 IH2|greedy r IH|i r IH];
    intros k k' st Hk Hst; cbn [run].
  - by apply Hk.
  - destruct st as [[|a s'] u cs]; cbn [ahead]; [reflexivity|].
    destruct (charEq ic a c); [|reflexivity].
    apply Hk. unfold placed, step in *. simpl in *. lia.
  - destruct st as [[|a s'] u cs]; cbn [ahead]; [reflexivity|].
    destruct (f a); [|reflexivity].
    apply Hk. unfold placed, step in *. simpl in *. lia.
  - destruct (bos && Nat.eqb (used st) 0); [by apply Hk|reflexivity].
  - apply IH1; [|exact Hst]. intros st' Hst'. by apply IH2.
  - rewrite (IH1 k k' st Hk Hst), (IH2 k k' st Hk Hst). reflexivity.
  - generalize (S (String.length (ahead st))). intros fuel.
    revert st Hst. induction fuel as [|fuel IHf]; intros st Hst; [reflexivity|].
    cbn [rep]. rewrite (Hk st Hst).
    assert (E : run ic bos r
                  (fun st' => if Nat.ltb (used st) (used st')
                              then rep (run ic bos r) greedy k fuel st' else None) st
                = run ic bos r
                    (fun st' => if Nat.ltb (used st) (used st')
                                then rep (run ic bos r) greedy k' fuel st' else None) st).
    { apply IH; [|exact Hst]. intros st' Hst'.
      destruct (Nat.ltb (used st) (used st')); [by apply IHf|reflexivity]. }
    by rewrite E.
  - apply IH; [|exact Hst]. intros st' Hst'. apply Hk.
    unfold placed in *. simpl. exact Hst'.
Qed.

(** The loop of a repetition never uses up its fuel: any two amounts above
    the length of the text ahead give the same result. *)
Lemma rep_fuel (n : nat) (r : regex) (greedy : bool) (k : mstate -> option mstate) :
  ∀ f1 f2 st,
    placed n st →
    String.length (ahead st) < f1 → String.length (ahead st) < f2 →
    rep (run ic bos r) greedy k f1 st = rep (run ic bos r) greedy k f2 st.
Proof.
  induction f1 as [|f1 IH]; intros f2 st Hst H1 H2; [lia|].
  destruct f2 as [|f2]; [lia|]. cbn [rep].
  assert (E : run ic bos r
                (fun st' => if Nat.ltb (used st) (used st')
                            then rep (run ic bos r) greedy k f1 st' else None) st
              = run ic bos r
                  (fun st' => if Nat.ltb (used st) (used st')
                              then rep (run ic bos r) greedy k f2 st' else None) st).
  { apply (run_ext n); [|exact Hst]. intros st' Hst'.
    destruct (Nat.ltb_spec (used st) (used st')) as [Hlt|]; [|reflexivity].
    apply IH; [exact Hst'| |]; unfold placed in *; lia. }
  by rewrite E.
Qed.

End MatcherFuel.

Section ParserFacts.
Import Text Regex Parser.

Lemma run_Lit_fail ic bos lit : ∀ k st,
  litMatches ic lit (ahead st) = false → run ic bos (Lit lit) k st = None.
Proof.
  induction lit as [|c lit IH]; intros k st H; [discriminate|].
  destruct st as [s n cs]. simpl in H.
  destruct lit as [|c' lit'].
  - simpl. destruct s as [|a s']; [reflexivity|].
    destruct (charEq ic a c); [discriminate|reflexivity].
  - change (Lit (String c (String c' lit'))) with (Cat (Chr c) (Lit (String c' lit'))).
    cbn [run ahead]. destruct s as [|a s']; [reflexivity|].
    destruct (charEq ic a c); [|reflexivity].
    apply IH. exact H.
Qed.

Lemma exec_Lit_fail ic bos lit r s :
  litMatches ic lit s = false → exec ic bos (Cat (Lit lit) r) s = None.
Proof.
  intros H. unfold exec. cbn [run]. by rewrite run_Lit_fail.
Qed.

Lemma partPattern_head : ∃ r, partPattern = Cat (Lit "Part:") r.
Proof. eexists. reflexivity. Qed.

Lemma lower_upper a : lowerChar (upperChar a) = lowerChar a.
Proof.
  destruct a as [[] [] [] [] [] [] [] []]; reflexivity.
Qed.

Lemma charEq_lower a c : charEq true a c = true → lowerChar a = lowerChar c.
Proof.
  unfold charEq. intros H. apply Ascii.eqb_eq in H.
  rewrite <- (lower_upper a), <- (lower_upper c). by rewrite H.
Qed.

(** A text at whose start the marker [Part:] matches under the i flag
    begins, once lower-cased, with [part:]. *)
Lemma marker_prefix s :
  litMatches true "Part:" s = true → startsWith (toLowerCase s) "part:" = true.
Proof.
  destruct s as [|a1 [|a2 [|a3 [|a4 [|a5 s]]]]];
    cbn [litMatches toLowerCase startsWith];
    rewrite ?andb_false_r; try discriminate.
  intros H. repeat (apply andb_prop in H as [? H]).
  repeat match goal with
         | E : charEq true _ _ = true |- _ => apply charEq_lower in E; rewrite E; clear E
         end.
  reflexivity.
Qed.

Lemma no_marker_no_exec bos s :
  startsWith (toLowerCase s) "part:" = false → exec true bos partPattern s = None.
Proof.
  intros H. destruct partPattern_head as [r ->]. apply exec_Lit_fail.
  destruct (litMatches true "Part:" s) eqn:E; [|reflexivity].
  apply marker_prefix in E. congruence.
Qed.

End ParserFacts.

Section ParserScan.
Import Text Regex Parser.

Lemma append_cons c (x y : string) : String c x +:+ y = String c (x +:+ y).
Proof. reflexivity. Qed.

Lemma append_nil (y : string) : "" +:+ y = y.
Proof. reflexivity. Qed.

Lemma append_assoc (x y z : string) : (x +:+ y) +:+ z = x +:+ (y +:+ z).
Proof.
  induction x as [|c x IH]; [reflexivity|]. rewrite !append_cons. f_equal. exact IH.
Qed.

Lemma matchAllFrom_0 ic bos r s :
  matchAllFrom ic bos r 0 s
  = match exec ic bos r s with
    | Some m =>
        whole m ::
        match s with
        | String _ s' => matchAllFrom ic false r (String.length (whole m) - 1) s'
        | EmptyString => []
        end
    | None =>
        match s with
        | String _ s' => matchAllFrom ic false r 0 s'
        | EmptyString => []
        end
    end.
Proof. destruct s; reflexivity. Qed.

(** The characters of a match are passed over before the scan resumes. *)
Lemma matchAllFrom_skip ic r : ∀ s1 s2 bos,
  matchAllFrom ic bos r (String.length s1) (s1 +:+ s2) = matchAllFrom ic false r 0 s2
  ∨ s1 = "".
Proof.
  induction s1 as [|c s1 IH]; intros s2 bos; [by right|left].
  rewrite append_cons. cbn [String.length matchAllFrom].
  destruct (IH s2 false) as [E| ->]; [exact E|reflexivity].
Qed.

Lemma includes_cons c s pat :
  includes (String c s) pat = startsWith (String c s) pat || includes s pat.
Proof. reflexivity. Qed.

(** Where no [part:] marker occurs, in any letter case, nothing matches. *)
Lemma no_marker_no_match : ∀ s bos,
  mentions s "part:" = false → matchAllFrom true bos partPattern 0 s = [].
Proof.
  unfold mentions.
  induction s as [|c s IH]; intros bos H; rewrite matchAllFrom_0.
  - by rewrite no_marker_no_exec.
  - cbn [toLowerCase] in H. rewrite includes_cons in H.
    apply orb_false_elim in H as [H1 H2].
    rewrite no_marker_no_exec by exact H1. by apply IH.
Qed.

(** A marker cannot straddle the end of a line. *)
Lemma marker_within_line x rest :
  startsWith (toLowerCase (x +:+ String nl rest)) "part:" = true →
  startsWith (toLowerCase (x +:+ String nl "")) "part:" = true.
Proof.
  destruct x as [|a1 [|a2 [|a3 [|a4 [|a5 x]]]]];
    rewrite ?append_cons, ?append_nil; cbn [toLowerCase startsWith];
    intros H; try exact H;
    repeat match type of H with
           | context [Ascii.eqb (lowerChar ?a) ?c] =>
               is_var a; destruct (Ascii.eqb (lowerChar a) c)
           end;
    vm_compute in H; discriminate.
Qed.

(** Lines without a marker before the text leave its matches unchanged. *)
Lemma skip_unmarked_lines rest found :
  (∀ bos, matchAllFrom true bos partPattern 0 rest = found) →
  ∀ b bos, mentions (b +:+ String nl "") "part:" = false →
           matchAllFrom true bos partPattern 0 (b +:+ String nl rest) = found.
Proof.
  intros Hrest. unfold mentions.
  induction b as [|c b IH]; intros bos H; rewrite matchAllFrom_0.
  - rewrite no_marker_no_exec by reflexivity. apply Hrest.
  - change (String c b +:+ String nl "") with (String c (b +:+ String nl "")) in H.
    cbn [toLowerCase] in H. rewrite includes_cons in H.
    apply orb_false_elim in H as [H1 H2].
    rewrite no_marker_no_exec.
    + apply IH. exact H2.
    + destruct (startsWith (toLowerCase (String c b +:+ String nl rest)) "part:") eqn:E;
        [|reflexivity].
      apply marker_within_line in E.
      change (toLowerCase (String c b +:+ String nl ""))
        with (String (lowerChar c) (toLowerCase (b +:+ String nl ""))) in E.
      congruence.
Qed.

Lemma exec_partLine_eol bos q :
  exec true bos partPattern (partLine +:+ String nl q)
  = Some (Found partLine
            [(3, "keeps contaminants out"); (2, "1R-0750"); (1, "Oil Filter ")]
            (String nl q)).
Proof. destruct bos; vm_compute; reflexivity. Qed.

(** The part line, followed by nothing or by further lines without a
    marker, is the one match of the pattern. *)
Lemma partLine_only_match after bos :
  after = "" ∨ (∃ q, after = String nl q) →
  mentions after "part:" = false →
  matchAllFrom true bos partPattern 0 (partLine +:+ after) = [partLine].
Proof.
  intros [->|[q ->]] Hm.
  - destruct bos; vm_compute; reflexivity.
  - rewrite matchAllFrom_0, exec_partLine_eol. cbn [whole]. f_equal.
    destruct (matchAllFrom_skip true partPattern
                "art: Oil Filter (Part #: 1R-0750) - keeps contaminants out"
                (String nl q) false) as [E|E]; [|discriminate].
    change (partLine +:+ String nl q)
      with (String "P" ("art: Oil Filter (Part #: 1R-0750) - keeps contaminants out"
                        +:+ String nl q)).
    cbv iota.
    change (String.length partLine - 1)
      with (String.length "art: Oil Filter (Part #: 1R-0750) - keeps contaminants out").
    rewrite E. by apply no_marker_no_match.
Qed.

Lemma parse_suggestions rnd d text request :
  LLMResponse.suggestions (parseAIResponse rnd d text request).1
  = suggestionsOf (equipmentOf request) rnd d <$> matchAll true partPattern text.
Proof. reflexivity. Qed.

End ParserScan.

(** C9 (amended). Given raw model text that contains the line
    [Part: Oil Filter (Part #: 1R-0750) - keeps contaminants out] as a line of
    its own, and in which the letters [part:], in any letter case, occur
    nowhere else (neither before nor after that line), the parser extracts
    exactly one part suggestion, with partNumber "1R-0750", name "Oil Filter"
    and reasonForSuggestion "keeps contaminants out". *)
Theorem part_line_extracted
    (rnd : nat -> Q) (d : nat) (request : LLMRequest.t) (before after : string) :
  before = "" ∨ (∃ b, before = b +:+ newline) →
  after = "" ∨ (∃ q, after = newline +:+ q) →
  mentions before "part:" = false →
  mentions after "part:" = false →
  ∃ s, LLMResponse.suggestions
         (Parser.parseAIResponse rnd d (before +:+ partLine +:+ after) request).1
       = Some [s]
       ∧ PartSuggestion.partNumber s = "1R-0750"
       ∧ PartSuggestion.name s = "Oil Filter"
       ∧ PartSuggestion.reasonForSuggestion s = "keeps contaminants out".
Proof.
  intros Hb Ha Mb Ma.
  assert (Hline : ∀ bos, Regex.matchAllFrom true bos Parser.partPattern 0
                           (partLine +:+ after) = [partLine]).
  { intros bos. apply partLine_only_match; [|exact Ma].
    destruct Ha as [->|[q ->]]; [by left|right; by exists q]. }
  assert (Hall : Regex.matchAll true Parser.partPattern (before +:+ partLine +:+ after)
                 = Some [partLine]).
  { unfold Regex.matchAll.
    destruct Hb as [->|[b ->]].
    - change ("" +:+ partLine +:+ after) with (partLine +:+ after). by rewrite Hline.
    - unfold newline in *. rewrite append_assoc.
      change (String Parser.nl "" +:+ partLine +:+ after)
        with (String Parser.nl (partLine +:+ after)).
      by rewrite (skip_unmarked_lines _ _ Hline b true Mb). }
  rewrite parse_suggestions, Hall.
  eexists. split; [reflexivity|]. split_and!; vm_compute; reflexivity.
Qed.

Lemma part_line_extracted_witness :
  ∃ s, LLMResponse.suggestions
         (Parser.parseAIResponse evenDraws 0
            (("For your filter change:" +:+ newline) +:+ partLine
               +:+ (newline +:+ "Replace it every 500 hours."))
            (ask "which filter do I need" None)).1
       = Some [s]
       ∧ PartSuggestion.partNumber s = "1R-0750"
       ∧ PartSuggestion.name s = "Oil Filter"
       ∧ PartSuggestion.reasonForSuggestion s = "keeps contaminants out".
Proof.
  apply (part_line_extracted evenDraws 0 (ask "which filter do I need" None)
           ("For your filter change:" +:+ newline)
           (newline +:+ "Replace it every 500 hours.")).
  - right. eexists. reflexivity.
  - right. eexists. reflexivity.
  - vm_compute. reflexivity.
  - vm_compute. reflexivity.
Defined.

(** C9, as stated, fails: the text "Recommended part:", a line break and the
    part line contains the part line as a line of its own and no other part
    line, yet the one suggestion extracted has the name "Part: Oil Filter",
    not "Oil Filter".  The pattern is matched without regard to letter case
    and is not tied to the start of a line, so the letters "part:" that end
    the first line open the match, and the name captured runs over the line
    break. *)
Lemma dangling_marker_example :
  ∃ s, LLMResponse.suggestions
         (Parser.parseAIResponse evenDraws 0
            (("Recommended part:" +:+ newline) +:+ partLine)
            (ask "which filter do I need" None)).1
       = Some [s]
       ∧ PartSuggestion.partNumber s = "1R-0750"
       ∧ PartSuggestion.name s = "Part: Oil Filter"
       ∧ PartSuggestion.name s ≠ "Oil Filter".
Proof.
  eexists. split; [vm_compute; reflexivity|].
  split; [reflexivity|]. split; [reflexivity|]. discriminate.
Qed.

(** C10 at its failing input: the model follows the requested block layout
    and writes "Severity: High - stop the machine"; the parser stores the
    whole line, lower-cased, which is none of low, medium, high, critical. *)
Theorem severity_not_among_declared (rnd : nat -> Q) (d : nat) (request : LLMRequest.t) :
  ∃ info, LLMResponse.faultCodeInfo (Parser.parseAIResponse rnd d faultBlock request).1
          = Some info
          ∧ FaultCodeInfo.code info = "E101"
          ∧ FaultCodeInfo.severity info = "high - stop the machine"
          ∧ FaultCodeInfo.severityDeclared (FaultCodeInfo.severity info) = false.
Proof.
  eexists. split; [vm_compute; reflexivity|]. split_and!; reflexivity.
Qed.

(* ===================================================================== *)
(** ** Further properties: texts *)
(* ===================================================================== *)

Section TextFacts.
Import Text.

Lemma length_append (a b : string) :
  String.length (a +:+ b) = String.length a + String.length b.
Proof.
  induction a as [|c a IH]; [reflexivity|].
  rewrite append_cons. cbn [String.length]. by rewrite IH.
Qed.

Lemma append_empty_r (a : string) : a +:+ "" = a.
Proof. induction a as [|c a IH]; [reflexivity|]. rewrite append_cons. by rewrite IH. Qed.

Lemma includes_unfold s pat :
  includes s pat
  = startsWith s pat || match s with EmptyString => false | String _ s' => includes s' pat end.
Proof. destruct s; reflexivity. Qed.

Lemma startsWith_spec pat : ∀ s,
  startsWith s pat = true ↔ ∃ post, s = pat +:+ post.
Proof.
  induction pat as [|c pat IH]; intros s.
  - split; [intros _; by exists s|reflexivity].
  - destruct s as [|a s]; cbn [startsWith].
    + split; [discriminate|]. intros [post H]. rewrite append_cons in H. discriminate.
    + rewrite andb_true_iff, Ascii.eqb_eq, IH. split.
      * intros [-> [post ->]]. by exists post.
      * intros [post H]. rewrite append_cons in H. injection H as -> ->. eauto.
Qed.

(** [includes] finds exactly the substrings. *)
Lemma includes_spec pat : ∀ s,
  includes s pat = true ↔ ∃ pre post, s = pre +:+ pat +:+ post.
Proof.
  induction s as [|c s IH]; rewrite includes_unfold, orb_true_iff, startsWith_spec.
  - split.
    + intros [[post H]|H]; [|discriminate]. by exists "", post.
    + intros (pre & post & H). left. destruct pre as [|a pre]; [by exists post|].
      rewrite append_cons in H. discriminate.
  - rewrite IH. split.
    + intros [[post H]|(pre & post & H)]; [by exists "", post|].
      exists (String c pre), post. rewrite append_cons. by rewrite H.
    + intros (pre & post & H). destruct pre as [|a pre].
      * left. by exists post.
      * right. rewrite append_cons in H. injection H as -> ->. eauto.
Qed.

Lemma trimEnd_blank s : allChars isWhiteSpace s = true → trimEnd s = "".
Proof.
  induction s as [|c s IH]; [reflexivity|]. cbn [allChars trimEnd].
  intros H. apply andb_prop in H as [Hc Hs]. by rewrite (IH Hs), Hc.
Qed.

Lemma trimEnd_empty s : trimEnd s = "" → allChars isWhiteSpace s = true.
Proof.
  induction s as [|c s IH]; [reflexivity|]. cbn [allChars trimEnd].
  destruct (trimEnd s) as [|a t] eqn:E; [|discriminate].
  destruct (isWhiteSpace c); [intros _; by apply IH|discriminate].
Qed.

(** [trim] leaves nothing exactly of the texts made of white space. *)
Lemma trim_blank_iff s : trim s = "" ↔ allChars isWhiteSpace s = true.
Proof.
  unfold trim. induction s as [|c s IH]; [done|].
  cbn [trimStart allChars]. destruct (isWhiteSpace c) eqn:Hc; [exact IH|].
  split; [|discriminate]. intros H. apply trimEnd_empty in H.
  cbn [allChars] in H. by rewrite Hc in H.
Qed.

Lemma lowerChar_idem c : lowerChar (lowerChar c) = lowerChar c.
Proof. destruct c as [[] [] [] [] [] [] [] []]; reflexivity. Qed.

Lemma toLowerCase_idem s : toLowerCase (toLowerCase s) = toLowerCase s.
Proof.
  induction s as [|c s IH]; [reflexivity|]. cbn [toLowerCase].
  by rewrite lowerChar_idem, IH.
Qed.

(** The primitives beyond ASCII.  The no-break space U+00A0 is white space
    for [trim]; the capital E with acute U+00C9 has the lower case U+00E9,
    and the two are one letter under the [i] flag; the multiplication sign
    U+00D7 and the sharp s U+00DF have no other case. *)
Lemma latin1_examples :
  trim (String (ascii_of_N 160) ("Belt" +:+ String (ascii_of_N 160) "")) = "Belt"
  ∧ toLowerCase (String (ascii_of_N 201) ("LEV" +:+ String (ascii_of_N 201) ""))
    = String (ascii_of_N 233) ("lev" +:+ String (ascii_of_N 233) "")
  ∧ Regex.charEq true (ascii_of_N 233) (ascii_of_N 201) = true
  ∧ lowerChar (ascii_of_N 215) = ascii_of_N 215
  ∧ lowerChar (ascii_of_N 223) = ascii_of_N 223
  ∧ Regex.charEq true (ascii_of_N 223) "S" = false.
Proof. repeat split; vm_compute; reflexivity. Qed.

(** The white space among the code units. *)
Lemma isWhiteSpace_spec c :
  isWhiteSpace c = true
  ↔ code c = 9%N ∨ code c = 10%N ∨ code c = 11%N ∨ code c = 12%N ∨ code c = 13%N
    ∨ code c = 32%N ∨ code c = 160%N.
Proof.
  unfold isWhiteSpace. rewrite !orb_true_iff, andb_true_iff, !N.eqb_eq, !N.leb_le. lia.
Qed.

End TextFacts.

(* ===================================================================== *)
(** ** Further properties: credentials and availability *)
(* ===================================================================== *)

(** X1. A configuration value is refused as a credential exactly when it is
    empty, consists of white space only, or contains the placeholder
    fragment "your_" or "_api_key_here" anywhere; any other value is accepted
    and handed back unchanged.  An unset variable gives no credential. *)
Theorem credential_resolution (w : World) (p : ProviderKey) :
  match env w !! envVar p with
  | None => getValidApiKey w p = None
  | Some v =>
      let refused :=
        v = ""
        ∨ allChars Text.isWhiteSpace v = true
        ∨ (∃ pre post, v = pre +:+ "your_" +:+ post)
        ∨ (∃ pre post, v = pre +:+ "_api_key_here" +:+ post) in
      (refused → getValidApiKey w p = None)
      ∧ (¬ refused → getValidApiKey w p = Some v)
  end.
Proof.
  unfold getValidApiKey. destruct (env w !! envVar p) as [v|]; [|reflexivity].
  cbv zeta.
  destruct (Text.includes v "your_") eqn:E1.
  { split; [by rewrite orb_true_r|].
    intros Hn. exfalso. apply Hn. right. right. left. by apply includes_spec. }
  destruct (Text.includes v "_api_key_here") eqn:E2.
  { split; [by rewrite orb_true_r|].
    intros Hn. exfalso. apply Hn. right. right. right. by apply includes_spec. }
  destruct (String.eqb_spec (Text.trim v) "") as [E3|E3].
  { split; [by rewrite orb_true_r|].
    intros Hn. exfalso. apply Hn. right. left. by apply trim_blank_iff. }
  destruct v as [|c v].
  { exfalso. by apply E3. }
  split; [|reflexivity].
  intros [H|[H|[H|H]]]; exfalso.
  - discriminate.
  - apply trim_blank_iff in H. contradiction.
  - apply includes_spec in H. congruence.
  - apply includes_spec in H. congruence.
Qed.

Lemma envVar_inj p q : envVar p = envVar q → p = q.
Proof. destruct p, q; intros H; try reflexivity; discriminate. Qed.

(** X2. Setting or clearing the configuration variable of one provider never
    changes whether another provider has a valid credential. *)
Theorem credential_independent (w : World) (p q : ProviderKey) (v : option string) :
  p ≠ q →
  let w' := {| env := match v with
                      | Some x => <[envVar q := x]> (env w)
                      | None => delete (envVar q) (env w)
                      end;
               clock := clock w; fetch := fetch w; random := random w |} in
  getValidApiKey w' p = getValidApiKey w p.
Proof.
  intros Hne w'. unfold getValidApiKey, w'. cbn [env].
  assert (Hv : envVar q ≠ envVar p) by (intros H; apply envVar_inj in H; congruence).
  destruct v; [by rewrite lookup_insert_ne|by rewrite lookup_delete_ne].
Qed.

Lemma credential_independent_witness :
  getValidApiKey
    {| env := <[envVar TOGETHER := "tg_live_key"]> (env groqDownWorld);
       clock := clock groqDownWorld; fetch := fetch groqDownWorld;
       random := random groqDownWorld |} GROQ
  = getValidApiKey groqDownWorld GROQ.
Proof.
  apply (credential_independent groqDownWorld GROQ TOGETHER (Some "tg_live_key")).
  discriminate.
Defined.

(** X3. The list of available providers holds exactly the providers with a
    valid credential, each once, in the fixed order GROQ, TOGETHER, COHERE,
    HUGGING_FACE; and the first guard of [processMessage]
    ([hasConfiguredProviders]) is false exactly when that list is empty, so
    its second guard never fires on its own. *)
Theorem available_providers_exact (w : World) :
  (∀ p, p ∈ getAvailableProviders w ↔ Configured w p)
  ∧ NoDup (getAvailableProviders w)
  ∧ getAvailableProviders w `sublist_of` [GROQ; TOGETHER; COHERE; HUGGING_FACE]
  ∧ (hasConfiguredProviders w = false ↔ getAvailableProviders w = []).
Proof.
  split_and!.
  - apply available_configured.
  - eapply sublist_NoDup; [|apply available_sublist].
    unfold FreeLLMService.fallbackOrder.
    repeat (apply NoDup_cons; split;
            [rewrite ?elem_of_cons, ?elem_of_nil; intuition discriminate|]).
    apply NoDup_nil_2.
  - apply available_sublist.
  - unfold hasConfiguredProviders, getAvailableProviders.
    key_cases w; simpl; split; intros; congruence.
Qed.

(** X4. The status report is consistent: a provider is listed as available
    exactly when its configured flag is set, and the report shows the
    service's current provider and request counts as they are. *)
Theorem provider_status_consistent (w : World) (svc : FreeLLMService.t) :
  let status := getProviderStatus w svc in
  let flags := ProviderStatus.configuredProviders status in
  let flag p := match p with
                | GROQ => ConfiguredProviders.groq flags
                | TOGETHER => ConfiguredProviders.together flags
                | COHERE => ConfiguredProviders.cohere flags
                | HUGGING_FACE => ConfiguredProviders.huggingFace flags
                end in
  (∀ p, p ∈ ProviderStatus.availableProviders status ↔ flag p = true)
  ∧ (∀ p, flag p = true ↔ is_Some (getValidApiKey w p))
  ∧ ProviderStatus.currentProvider status = FreeLLMService.currentProvider svc
  ∧ ProviderStatus.requestCounts status = FreeLLMService.requestCounts svc.
Proof.
  cbv zeta. split_and!; try reflexivity.
  - intros p. cbn. rewrite available_hasKey. by destruct p.
  - intros p. cbn. rewrite <- (bool_decide_eq_true (is_Some (getValidApiKey w p))).
    by destruct p.
Qed.

(* ===================================================================== *)
(** ** Further properties: the rate limiter *)
(* ===================================================================== *)

(** X5. Checking or recording for one provider leaves the rate state of
    every other provider as it is. *)
Theorem rate_state_frame (now : Z) (p q : ProviderKey)
    (counts : gmap ProviderKey RateData.t) :
  q ≠ p →
  (isRateLimitedAt now p counts).2 !! q = counts !! q
  ∧ updateRequestCountAt now p counts !! q = counts !! q.
Proof.
  intros Hne. split; [by apply isRateLimitedAt_other|].
  unfold updateRequestCountAt.
  destruct (counts !! p) as [d|]; [destruct (RateData.resetTime d <? now)%Z|];
    by rewrite lookup_insert_ne.
Qed.

Lemma rate_state_frame_witness :
  (isRateLimitedAt 70000 TOGETHER (FreeLLMService.requestCounts togetherSpent)).2 !! GROQ
  = FreeLLMService.requestCounts togetherSpent !! GROQ
  ∧ updateRequestCountAt 70000 TOGETHER (FreeLLMService.requestCounts togetherSpent) !! GROQ
    = FreeLLMService.requestCounts togetherSpent !! GROQ.
Proof.
  apply (rate_state_frame 70000 TOGETHER GROQ (FreeLLMService.requestCounts togetherSpent)).
  discriminate.
Defined.

(** X6. The limiter never throttles early: after fewer than [budget p]
    requests recorded within one window (the first at [t1] opens it, the
    others come no later than [t1 + 60000]), [isRateLimited] answers false at
    every reading of the clock. *)
Theorem below_budget_never_throttled
    (p : ProviderKey) (counts : gmap ProviderKey RateData.t)
    (t1 : Z) (others : list Z) (t : Z) :
  windowClosed t1 p counts →
  Forall (fun u => (u <= t1 + 60000)%Z) others →
  (Z.of_nat (length (t1 :: others)) < budget p)%Z →
  (isRateLimitedAt t p (recordAt p (t1 :: others) counts)).1 = false.
Proof.
  intros Hclosed Hall Hlen.
  pose proof (recordAt_open p others (updateRequestCountAt t1 p counts) 1 (t1 + 60000)
                (recordAt_fresh p t1 counts Hclosed) Hall) as H.
  unfold recordAt in *. cbn [foldl]. unfold isRateLimitedAt. rewrite H. simpl.
  destruct (t1 + 60000 <? t)%Z; [reflexivity|]. simpl.
  apply Z.leb_gt. fold (budget p).
  change (length (t1 :: others)) with (S (length others)) in Hlen. lia.
Qed.

Lemma below_budget_never_throttled_witness :
  (isRateLimitedAt 500 GROQ (recordAt GROQ (0 :: replicate 28 1000)%Z ∅)).1 = false.
Proof.
  apply (below_budget_never_throttled GROQ ∅ 0 (replicate 28 1000)%Z 500).
  - vm_compute. exact I.
  - apply Forall_forall. intros u Hu. apply elem_of_replicate in Hu as [-> _]. lia.
  - vm_compute. reflexivity.
Defined.

(** X7. A check repeated at the same reading of the clock gives the same
    answer and changes nothing further. *)
Theorem rate_check_stable (now : Z) (p : ProviderKey)
    (counts : gmap ProviderKey RateData.t) :
  isRateLimitedAt now p (isRateLimitedAt now p counts).2 = isRateLimitedAt now p counts.
Proof.
  unfold isRateLimitedAt at 2 3.
  destruct (counts !! p) as [d|] eqn:E.
  - destruct (RateData.resetTime d <? now)%Z eqn:Ht; simpl.
    + unfold isRateLimitedAt. by rewrite lookup_delete_eq.
    + unfold isRateLimitedAt. by rewrite E, Ht.
  - simpl. unfold isRateLimitedAt. by rewrite E.
Qed.

(** X8. The rate states stay sane as time goes on: if every state has a
    count of at least 1 and a window ending at most 60 seconds after [now],
    the same holds, at any later reading [now'], after a check and after a
    recorded request. *)
Theorem rate_state_sane (now now' : Z) (p : ProviderKey)
    (counts : gmap ProviderKey RateData.t) :
  (now <= now')%Z →
  saneCounts now counts →
  saneCounts now' (isRateLimitedAt now' p counts).2
  ∧ saneCounts now' (updateRequestCountAt now' p counts).
Proof.
  intros Hle Hs. split.
  - intros q d Hq.
    assert (Hc : counts !! q = Some d).
    { revert Hq. unfold isRateLimitedAt.
      destruct (counts !! p) as [e|]; [|done].
      destruct (RateData.resetTime e <? now')%Z; simpl; [|done].
      rewrite lookup_delete_Some. tauto. }
    destruct (Hs q d Hc). lia.
  - intros q d. unfold updateRequestCountAt.
    destruct (decide (q = p)) as [->|Hne].
    + destruct (counts !! p) as [e|] eqn:E.
      * destruct (RateData.resetTime e <? now')%Z; rewrite lookup_insert_eq;
          intros [= <-]; simpl; destruct (Hs p e E); lia.
      * rewrite lookup_insert_eq. intros [= <-]. simpl. lia.
    + assert (Hq : ∀ x, <[p := x]> counts !! q = counts !! q)
        by (intros x; by rewrite lookup_insert_ne).
      destruct (counts !! p) as [e|]; [destruct (RateData.resetTime e <? now')%Z|];
        rewrite Hq; intros Hc; destruct (Hs q d Hc); lia.
Qed.

Lemma rate_state_sane_witness :
  saneCounts 100 (isRateLimitedAt 100 TOGETHER (FreeLLMService.requestCounts togetherSpent)).2
  ∧ saneCounts 100
      (updateRequestCountAt 100 TOGETHER (FreeLLMService.requestCounts togetherSpent)).
Proof.
  apply (rate_state_sane 0 100 TOGETHER (FreeLLMService.requestCounts togetherSpent)).
  - lia.
  - intros q d. unfold togetherSpent. cbn [FreeLLMService.requestCounts].
    destruct q.
    + vm_compute. discriminate.
    + vm_compute. discriminate.
    + vm_compute. discriminate.
    + vm_compute. intros [= <-]. split; discriminate.
Defined.

(* ===================================================================== *)
(** ** Further properties: the orchestrator, step by step *)
(* ===================================================================== *)

Section Exact.
Variable w : World.

Lemma isRateLimited_exact (p : ProviderKey) (m : Machine) :
  isRateLimited w p m
  = let res := isRateLimitedAt (clock w (ticks m)) p (countsOf m) in
    (Returned res.1,
     serving (FreeLLMService.Build (FreeLLMService.currentProvider (service m)) res.2)
       (ticking m)).
Proof.
  unfold isRateLimited, bind, dateNow, getService, countsOf; simpl.
  by destruct (isRateLimitedAt _ _ _).
Qed.

Lemma updateRequestCount_exact (p : ProviderKey) (m : Machine) :
  updateRequestCount w p m
  = (Returned tt,
     serving (FreeLLMService.Build (FreeLLMService.currentProvider (service m))
                (updateRequestCountAt (clock w (ticks m)) p (countsOf m)))
       (ticking m)).
Proof. reflexivity. Qed.

(** What one invocation does, case by case. *)
Lemma callLLMProvider_exact (p : ProviderKey) (request : LLMRequest.t) (m : Machine) :
  callLLMProvider w p request m
  = let m0 := logging [Invoke p] m in
    match getValidApiKey w p with
    | None => (Thrown (KeyNotConfigured p), m0)
    | Some _ =>
        match fetch w (requests m) p (buildCatCentralPrompt request) with
        | Rejected => (Thrown (FetchFailed p), sending m0)
        | Status status errorText => (Thrown (ApiError p status errorText), sending m0)
        | Completion text =>
            let res := Parser.parseAIResponse (random w) (draws m)
                         (Text.orElse (default "" text) apology) request in
            (Returned res.1, drawnTo res.2 (sending m0))
        end
    end.
Proof.
  assert (Hv : callLLMProvider w p request m
               = bind (emit (Invoke p))
                   (fun _ => callVendor w p (buildCatCentralPrompt request) request) m)
    by (destruct p; reflexivity).
  rewrite Hv. unfold bind, emit, callVendor. cbv zeta.
  destruct (getValidApiKey w p) as [key|]; [|reflexivity].
  unfold bind, doFetch. cbn [requests].
  destruct (fetch w (requests m) p (buildCatCentralPrompt request)); reflexivity.
Qed.

End Exact.

Section Outcome.
Variable w : World.

Lemma check_counts_sub now q (c : gmap ProviderKey RateData.t) p d :
  (isRateLimitedAt now q c).2 !! p = Some d → c !! p = Some d.
Proof.
  unfold isRateLimitedAt. destruct (c !! q) as [e|]; [|done].
  destruct (RateData.resetTime e <? now)%Z; simpl; [|done].
  rewrite lookup_delete_Some. tauto.
Qed.

Lemma invoked_attempt p e evs :
  invoked (Invoke p :: ConsoleError p e :: evs) = p :: invoked evs.
Proof. reflexivity. Qed.

Lemma failed_attempt p e evs :
  failed (Invoke p :: ConsoleError p e :: evs) = p :: failed evs.
Proof. reflexivity. Qed.

(** Everything the fallback pass does, for a list of configured providers. *)
Lemma fallbackPass_outcome request providers : ∀ m,
  Forall (Configured w) providers →
  ∃ r m' evs,
    fallbackPass w request providers m = (Returned r, m')
    ∧ events m' = events m ++ evs
    ∧ invoked evs `sublist_of` providers
    ∧ requests m' = requests m + length (invoked evs)
    ∧ (∀ p d, countsOf m' !! p = Some d → countsOf m !! p = Some d)
    ∧ (∀ q, Throttled w (countsOf m) q → q ∉ invoked evs)
    ∧ ((r = getOfflineFallbackResponse (LLMRequest.message request)
        ∧ FreeLLMService.currentProvider (service m')
          = FreeLLMService.currentProvider (service m)
        ∧ failed evs = invoked evs)
       ∨ (∃ p, p ∈ providers
               ∧ LLMResponse.provider r = displayName p
               ∧ LLMResponse.confidence r = (8 # 10)%Q
               ∧ LLMResponse.message r ≠ ""
               ∧ FreeLLMService.currentProvider (service m') = p
               ∧ last (invoked evs) = Some p)).
Proof.
  induction providers as [|p rest IH]; intros m Hconf.
  { exists (getOfflineFallbackResponse (LLMRequest.message request)), m, [].
    split_and!; [reflexivity | by rewrite app_nil_r | apply sublist_nil_l | simpl; lia
                | done | intros q _; apply not_elem_of_nil | by left]. }
  inversion Hconf as [|? ? [key Hkey] Hrest]; subst.
  rewrite fallbackPass_cons. unfold bind at 1. rewrite isRateLimited_exact. cbv zeta.
  set (res := isRateLimitedAt (clock w (ticks m)) p (countsOf m)).
  set (m1 := serving _ (ticking m)).
  assert (Hc1 : countsOf m1 = res.2) by reflexivity.
  assert (Hr1 : requests m1 = requests m) by reflexivity.
  assert (He1 : events m1 = events m) by reflexivity.
  assert (Hp1 : FreeLLMService.currentProvider (service m1)
                = FreeLLMService.currentProvider (service m)) by reflexivity.
  assert (Hthr : ∀ q, Throttled w (countsOf m) q → Throttled w (countsOf m1) q).
  { intros q Hq. rewrite Hc1. by apply check_keeps_throttled. }
  assert (Hsub : ∀ q d, countsOf m1 !! q = Some d → countsOf m !! q = Some d).
  { intros q d. rewrite Hc1. apply check_counts_sub. }
  destruct res.1 eqn:Hlim; cbn [negb].
  - destruct (IH m1 Hrest) as (r & m' & evs & E & Hev & Hsl & Hreq & Hrec & Hnot & Hout).
    exists r, m', evs. split_and!; auto.
    + by apply sublist_cons.
    + destruct Hout as [?|(p' & Hin & ?)]; [by left|right].
      exists p'. split; [by apply list_elem_of_further|done].
  - assert (Hfree : ∀ q, Throttled w (countsOf m) q → q ≠ p).
    { intros q Hq ->. specialize (Hq (ticks m)). fold res in Hq. congruence. }
    unfold tryCatch, bind at 1. rewrite callLLMProvider_exact, Hkey. cbv zeta.
    assert (Hfail : ∀ e,
      ∃ r m' evs,
        (emit (ConsoleError p e) ;; fallbackPass w request rest)
          (sending (logging [Invoke p] m1)) = (Returned r, m')
        ∧ events m' = events m ++ evs
        ∧ invoked evs `sublist_of` p :: rest
        ∧ requests m' = requests m + length (invoked evs)
        ∧ (∀ q d, countsOf m' !! q = Some d → countsOf m !! q = Some d)
        ∧ (∀ q, Throttled w (countsOf m) q → q ∉ invoked evs)
        ∧ ((r = getOfflineFallbackResponse (LLMRequest.message request)
            ∧ FreeLLMService.currentProvider (service m')
              = FreeLLMService.currentProvider (service m)
            ∧ failed evs = invoked evs)
           ∨ (∃ p', p' ∈ p :: rest
                    ∧ LLMResponse.provider r = displayName p'
                    ∧ LLMResponse.confidence r = (8 # 10)%Q
                    ∧ LLMResponse.message r ≠ ""
                    ∧ FreeLLMService.currentProvider (service m') = p'
                    ∧ last (invoked evs) = Some p'))).
    { intros e. unfold bind at 1, emit at 1.
      match goal with |- context [fallbackPass w request rest ?mm] =>
        destruct (IH mm Hrest) as (r & m' & evs & E & Hev & Hsl & Hreq & Hrec & Hnot & Hout)
      end.
      exists r, m', (Invoke p :: ConsoleError p e :: evs).
      split_and!.
      - exact E.
      - rewrite Hev. cbn [events logging sending]. rewrite He1. by rewrite <- !app_assoc.
      - rewrite invoked_attempt. by apply sublist_skip.
      - rewrite Hreq, invoked_attempt. cbn [requests sending logging length].
        rewrite Hr1. lia.
      - intros q d Hq. apply Hsub. by apply Hrec.
      - intros q Hq. rewrite invoked_attempt, elem_of_cons. intros [->|Hin].
        + by apply (Hfree p).
        + by apply (Hnot q (Hthr q Hq)).
      - rewrite invoked_attempt, failed_attempt.
        destruct Hout as [(Hr & Hcur & Hf)|(p' & Hin & Hl & Hc & Hm & Hcur & Hlast)].
        + left. split_and!; [done|exact Hcur|]. by rewrite Hf.
        + right. exists p'. split_and!; auto.
          * by apply list_elem_of_further.
          * rewrite last_cons. by rewrite Hlast. }
    destruct (fetch w (requests m1) p (buildCatCentralPrompt request)) as [|st txt|txt].
    + apply Hfail.
    + apply Hfail.
    + unfold bind, setCurrentProvider, getService, putService, ret.
      eexists _, _, [Invoke p]. split; [reflexivity|].
      split_and!.
      * reflexivity.
      * cbn. apply sublist_skip, sublist_nil_l.
      * cbn. lia.
      * intros q d Hq. by apply Hsub.
      * intros q Hq. cbn. rewrite list_elem_of_singleton. by apply Hfree.
      * right. exists p. split_and!; try reflexivity.
        -- apply elem_of_cons. by left.
        -- apply orElse_truthy. reflexivity.
Qed.

Lemma available_all_configured : Forall (Configured w) (getAvailableProviders w).
Proof. apply Forall_forall. intros p Hp. by apply available_configured. Qed.

(** Everything one call of [processMessage] does. *)
Lemma processMessage_outcome request m :
  ∃ r m' evs,
    processMessage w request m = (Returned r, m')
    ∧ events m' = events m ++ evs
    ∧ (∀ p, p ∈ invoked evs → Configured w p)
    ∧ length (invoked evs) ≤ S (length (getAvailableProviders w))
    ∧ requests m' = requests m + length (invoked evs)
    ∧ (∀ q, Throttled w (countsOf m) q → q ∉ invoked evs)
    ∧ (∀ p d, countsOf m' !! p = Some d →
              countsOf m !! p = Some d ∨ LLMResponse.provider r = displayName p)
    ∧ (((∀ p, ¬ Configured w p)
        ∧ r = getConfigurationRequiredResponse (LLMRequest.message request)
        ∧ m' = m)
       ∨ ((∃ p, Configured w p)
          ∧ r = getOfflineFallbackResponse (LLMRequest.message request)
          ∧ failed evs = invoked evs
          ∧ FreeLLMService.currentProvider (service m')
            = FreeLLMService.currentProvider (service m))
       ∨ (∃ p, Configured w p
               ∧ LLMResponse.provider r = displayName p
               ∧ LLMResponse.confidence r = (8 # 10)%Q
               ∧ LLMResponse.message r ≠ ""
               ∧ last (invoked evs) = Some p
               ∧ (FreeLLMService.currentProvider (service m')
                  = FreeLLMService.currentProvider (service m)
                  ∨ FreeLLMService.currentProvider (service m') = p))).
Proof.
  unfold processMessage.
  destruct (hasConfiguredProviders w) eqn:Hc; simpl.
  2:{ exists (getConfigurationRequiredResponse (LLMRequest.message request)), m, [].
      split_and!; [reflexivity | by rewrite app_nil_r | by intros p Hp; apply elem_of_nil in Hp
                  | simpl; lia | simpl; lia | intros q _; apply not_elem_of_nil | by left |].
      left. split_and!; [|done|done].
      intros p Hp. apply configured_hasConfigured in Hp. congruence. }
  destruct (getAvailableProviders w) as [|first rest] eqn:Ha.
  { by apply hasConfigured_available in Hc. }
  assert (Hmem : ∀ p, p ∈ first :: rest → Configured w p).
  { intros p Hp. apply available_configured. by rewrite Ha. }
  assert (Hall : Forall (Configured w) (first :: rest)) by (by apply Forall_forall).
  unfold bind at 1, getService at 1.
  set (ap := actualProvider request _ _ _).
  assert (Hap : Configured w ap) by apply Hmem, actualProvider_available.
  unfold tryCatch, bind at 1. rewrite isRateLimited_exact. cbv zeta.
  set (res := isRateLimitedAt (clock w (ticks m)) ap (countsOf m)).
  set (m1 := serving _ (ticking m)).
  assert (Hc1 : countsOf m1 = res.2) by reflexivity.
  assert (Hr1 : requests m1 = requests m) by reflexivity.
  assert (He1 : events m1 = events m) by reflexivity.
  assert (Hthr : ∀ q, Throttled w (countsOf m) q → Throttled w (countsOf m1) q).
  { intros q Hq. rewrite Hc1. by apply check_keeps_throttled. }
  assert (Hsub : ∀ q d, countsOf m1 !! q = Some d → countsOf m !! q = Some d).
  { intros q d. rewrite Hc1. apply check_counts_sub. }
  destruct res.1 eqn:Hlim.
  - rewrite tryFallbackProviders_some.
    destruct (fallbackPass_outcome request (first :: rest) m1 Hall)
      as (r & m' & evs & E & Hev & Hsl & Hreq & Hrec & Hnot & Hout).
    rewrite E. exists r, m', evs. split_and!; auto.
    + intros p Hp. apply Hmem. eapply elem_of_sublist; eauto.
    + apply sublist_length in Hsl. cbn [length] in *. lia.
    + destruct Hout as [(Hr & Hcur & Hf)|(p & Hin & Hl & Hcf & Hm & Hcur & Hlast)].
      * right. left. split_and!; eauto.
      * right. right. exists p. split_and!; auto.
  - assert (Hfree : ∀ q, Throttled w (countsOf m) q → q ≠ ap).
    { intros q Hq Hqa. specialize (Hq (ticks m)). rewrite Hqa in Hq. fold res in Hq.
      congruence. }
    destruct Hap as [key Hkey].
    unfold bind at 1. rewrite callLLMProvider_exact, Hkey. cbv zeta.
    assert (Hfail : ∀ e,
      ∃ r m' evs,
        (emit (ConsoleError ap e) ;; tryFallbackProviders w request (Some (first :: rest)))
          (sending (logging [Invoke ap] m1)) = (Returned r, m')
        ∧ events m' = events m ++ evs
        ∧ (∀ p, p ∈ invoked evs → Configured w p)
        ∧ length (invoked evs) ≤ S (length (first :: rest))
        ∧ requests m' = requests m + length (invoked evs)
        ∧ (∀ q, Throttled w (countsOf m) q → q ∉ invoked evs)
        ∧ (∀ p d, countsOf m' !! p = Some d →
                  countsOf m !! p = Some d ∨ LLMResponse.provider r = displayName p)
        ∧ (((∀ p, ¬ Configured w p)
            ∧ r = getConfigurationRequiredResponse (LLMRequest.message request)
            ∧ m' = m)
           ∨ ((∃ p, Configured w p)
              ∧ r = getOfflineFallbackResponse (LLMRequest.message request)
              ∧ failed evs = invoked evs
              ∧ FreeLLMService.currentProvider (service m')
                = FreeLLMService.currentProvider (service m))
           ∨ (∃ p, Configured w p
                   ∧ LLMResponse.provider r = displayName p
                   ∧ LLMResponse.confidence r = (8 # 10)%Q
                   ∧ LLMResponse.message r ≠ ""
                   ∧ last (invoked evs) = Some p
                   ∧ (FreeLLMService.currentProvider (service m')
                      = FreeLLMService.currentProvider (service m)
                      ∨ FreeLLMService.currentProvider (service m') = p)))).
    { intros e. rewrite tryFallbackProviders_some. unfold bind at 1, emit at 1.
      match goal with |- context [fallbackPass w request (first :: rest) ?mm] =>
        destruct (fallbackPass_outcome request (first :: rest) mm Hall)
          as (r & m' & evs & E & Hev & Hsl & Hreq & Hrec & Hnot & Hout)
      end.
      exists r, m', (Invoke ap :: ConsoleError ap e :: evs).
      rewrite invoked_attempt, failed_attempt.
      split_and!.
      - exact E.
      - rewrite Hev. cbn [events logging sending]. rewrite He1. by rewrite <- !app_assoc.
      - intros p. rewrite elem_of_cons. intros [->|Hp]; [by exists key|].
        apply Hmem. eapply elem_of_sublist; eauto.
      - apply sublist_length in Hsl. cbn [length] in *. lia.
      - rewrite Hreq. cbn [requests sending logging length]. rewrite Hr1. lia.
      - intros q Hq. rewrite elem_of_cons. intros [->|Hin].
        + by apply (Hfree ap).
        + by apply (Hnot q (Hthr q Hq)).
      - intros p d Hp. left. apply Hsub. by apply Hrec.
      - destruct Hout as [(Hr & Hcur & Hf)|(p & Hin & Hl & Hcf & Hm & Hcur & Hlast)].
        + right. left. split_and!; [by exists ap, key|done|by rewrite Hf|exact Hcur].
        + right. right. exists p. split_and!; auto.
          rewrite last_cons. by rewrite Hlast. }
    destruct (fetch w (requests m1) ap (buildCatCentralPrompt request)) as [|st txt|txt].
    + apply Hfail.
    + apply Hfail.
    + unfold bind at 1. rewrite updateRequestCount_exact.
      eexists _, _, [Invoke ap]. split; [reflexivity|].
      split_and!.
      * reflexivity.
      * intros p Hp. apply list_elem_of_singleton in Hp. subst p. by exists key.
      * cbn. lia.
      * cbn. lia.
      * intros q Hq. cbn. rewrite list_elem_of_singleton. by apply Hfree.
      * intros p d. destruct (decide (p = ap)) as [->|Hne]; [by right|].
        intros Hp. left. apply Hsub. rewrite <- Hp.
        symmetry. cbn [countsOf service serving FreeLLMService.requestCounts].
        unfold updateRequestCountAt.
        repeat match goal with
               | |- context [match ?x with Some _ => _ | None => _ end] => destruct x
               | |- context [if ?b then _ else _] => destruct b
               end; by rewrite lookup_insert_ne.
      * right. right. exists ap. split_and!; try reflexivity.
        -- by exists key.
        -- apply orElse_truthy. reflexivity.
        -- by left.
Qed.

End Outcome.

(* ===================================================================== *)
(** ** Further properties: the orchestrator *)
(* ===================================================================== *)

(** X9. Every reply of [processMessage] belongs to one of three tiers, and
    the provider label tells which: "Configuration Helper" with confidence 1,
    exactly when no provider is configured (nothing is touched then);
    "Offline Fallback" with confidence 0.6, when providers are configured and
    every invocation made in the call failed; or the display name of a
    configured provider with confidence 0.8, that provider being the last one
    invoked. *)
Theorem reply_tiers (w : World) (request : LLMRequest.t) (m : Machine) :
  ∃ r m' evs,
    processMessage w request m = (Returned r, m')
    ∧ events m' = events m ++ evs
    ∧ (LLMResponse.provider r = "Configuration Helper" ↔ ∀ p, ¬ Configured w p)
    ∧ ((LLMResponse.provider r = "Configuration Helper"
        ∧ LLMResponse.confidence r = 1%Q ∧ m' = m)
       ∨ (LLMResponse.provider r = "Offline Fallback"
          ∧ LLMResponse.confidence r = (6 # 10)%Q
          ∧ (∃ p, Configured w p)
          ∧ failed evs = invoked evs)
       ∨ (∃ p, Configured w p
               ∧ LLMResponse.provider r = displayName p
               ∧ LLMResponse.confidence r = (8 # 10)%Q
               ∧ last (invoked evs) = Some p)).
Proof.
  destruct (processMessage_outcome w request m)
    as (r & m' & evs & E & Hev & _ & _ & _ & _ & _ & Hout).
  exists r, m', evs. split; [exact E|]. split; [exact Hev|].
  destruct Hout as [(Hno & -> & ->)|[(Hsome & -> & Hf & _)|(p & Hp & Hl & Hc & _ & Hlast & _)]].
  - split; [done|]. by left.
  - split.
    + split; [discriminate|]. intros Hno. destruct Hsome as [p Hp]. by destruct (Hno p).
    + right. left. done.
  - split.
    + rewrite Hl. split; [destruct p; discriminate|]. intros Hno. by destruct (Hno p).
    + right. right. by exists p.
Qed.

(** X10. One call invokes configured providers only, at most one more time
    than there are configured providers, and sends exactly one request per
    invocation. *)
Theorem invocation_budget (w : World) (request : LLMRequest.t) (m : Machine) :
  ∃ r m' evs,
    processMessage w request m = (Returned r, m')
    ∧ events m' = events m ++ evs
    ∧ (∀ p, p ∈ invoked evs → Configured w p)
    ∧ length (invoked evs) ≤ S (length (getAvailableProviders w))
    ∧ requests m' = requests m + length (invoked evs).
Proof.
  destruct (processMessage_outcome w request m)
    as (r & m' & evs & E & Hev & Hconf & Hlen & Hreq & _).
  by exists r, m', evs.
Qed.

(** X11. A provider that is throttled at every reading of the clock is not
    invoked, whatever the request and whatever the other providers do. *)
Theorem throttled_never_invoked
    (w : World) (request : LLMRequest.t) (m : Machine) (q : ProviderKey) :
  Throttled w (countsOf m) q →
  ∃ r m' evs,
    processMessage w request m = (Returned r, m')
    ∧ events m' = events m ++ evs
    ∧ q ∉ invoked evs.
Proof.
  intros Hq.
  destruct (processMessage_outcome w request m)
    as (r & m' & evs & E & Hev & _ & _ & _ & Hnot & _).
  exists r, m', evs. split_and!; auto.
Qed.

Lemma throttled_never_invoked_witness :
  ∃ r m' evs,
    processMessage threeUpWorld (ask "hello" None) (boot togetherSpent) = (Returned r, m')
    ∧ events m' = events (boot togetherSpent) ++ evs
    ∧ TOGETHER ∉ invoked evs.
Proof.
  apply (throttled_never_invoked threeUpWorld (ask "hello" None) (boot togetherSpent) TOGETHER).
  intros k. vm_compute. reflexivity.
Defined.

(** X12. One call changes the service only in step with its reply: a rate
    state present afterwards was present before, unchanged, unless it belongs
    to the provider named in the reply; and the current provider is the one
    from before, or the provider named in the reply. *)
Theorem state_changes_follow_reply (w : World) (request : LLMRequest.t) (m : Machine) :
  ∃ r m',
    processMessage w request m = (Returned r, m')
    ∧ (∀ p d, countsOf m' !! p = Some d →
              countsOf m !! p = Some d ∨ LLMResponse.provider r = displayName p)
    ∧ (FreeLLMService.currentProvider (service m')
       = FreeLLMService.currentProvider (service m)
       ∨ LLMResponse.provider r
         = displayName (FreeLLMService.currentProvider (service m'))).
Proof.
  destruct (processMessage_outcome w request m)
    as (r & m' & evs & E & _ & _ & _ & _ & _ & Hrec & Hout).
  exists r, m'. split_and!; auto.
  destruct Hout as [(_ & _ & ->)|[(_ & _ & _ & Hcur)|(p & _ & Hl & _ & _ & _ & [Hcur|Hcur])]].
  - by left.
  - by left.
  - by left.
  - right. by rewrite Hcur.
Qed.

(** X13. When the provider selected first is not throttled and its request
    brings a completion, the reply carries the completion text (the fixed
    apology when the text is missing or empty), confidence 0.8 and that
    provider's display name; the request is recorded at the next reading of
    the clock; the current provider stays; and that provider alone is
    invoked. *)
Theorem first_attempt_success
    (w : World) (request : LLMRequest.t) (m : Machine)
    (first : ProviderKey) (rest : list ProviderKey) (text : option string) :
  getAvailableProviders w = first :: rest →
  let chosen := actualProvider request (FreeLLMService.currentProvider (service m))
                  (first :: rest) first in
  let checked := isRateLimitedAt (clock w (ticks m)) chosen (countsOf m) in
  checked.1 = false →
  fetch w (requests m) chosen (buildCatCentralPrompt request) = Completion text →
  ∃ r m',
    processMessage w request m = (Returned r, m')
    ∧ LLMResponse.message r
      = match text with
        | Some (String c t) => String c t
        | _ => apology
        end
    ∧ LLMResponse.confidence r = (8 # 10)%Q
    ∧ LLMResponse.provider r = displayName chosen
    ∧ countsOf m' = updateRequestCountAt (clock w (S (ticks m))) chosen checked.2
    ∧ FreeLLMService.currentProvider (service m')
      = FreeLLMService.currentProvider (service m)
    ∧ events m' = events m ++ [Invoke chosen]
    ∧ requests m' = S (requests m).
Proof.
  intros Ha chosen checked Hfree Hfetch.
  assert (Hc : hasConfiguredProviders w = true).
  { apply (configured_hasConfigured w first), available_configured. rewrite Ha.
    apply elem_of_cons. by left. }
  assert (Hkey : Configured w chosen).
  { apply available_configured. rewrite Ha. apply actualProvider_available. }
  destruct Hkey as [key Hkey].
  unfold processMessage. rewrite Hc. simpl. rewrite Ha.
  unfold bind at 1, getService at 1. fold chosen.
  unfold tryCatch, bind at 1. rewrite isRateLimited_exact. cbv zeta.
  fold checked. rewrite Hfree.
  unfold bind at 1. rewrite callLLMProvider_exact, Hkey. cbv zeta.
  cbn [requests serving ticking]. rewrite Hfetch.
  unfold bind at 1. rewrite updateRequestCount_exact.
  eexists _, _. split; [reflexivity|].
  split_and!; try reflexivity.
  destruct text as [[|c t]|]; reflexivity.
Qed.

Lemma first_attempt_success_witness :
  ∃ r m',
    processMessage threeUpWorld (ask "hello" None) (boot FreeLLMService.new) = (Returned r, m')
    ∧ LLMResponse.message r = "Happy to help."
    ∧ LLMResponse.provider r = "Groq"
    ∧ countsOf m' !! GROQ = Some (RateData.Build 1 60000).
Proof.
  destruct (first_attempt_success threeUpWorld (ask "hello" None) (boot FreeLLMService.new)
              GROQ [TOGETHER; COHERE] (Some "Happy to help."))
    as (r & m' & E & Hm & _ & Hp & Hc & _).
  - vm_compute. reflexivity.
  - vm_compute. reflexivity.
  - reflexivity.
  - exists r, m'. split; [exact E|]. split; [exact Hm|]. split; [exact Hp|].
    rewrite Hc. vm_compute. reflexivity.
Defined.

(** X14. What one invocation of a provider does.  Without a valid key it
    throws at once and sends nothing.  With one it sends exactly one request:
    a rejected request and an error status are thrown on, the status with its
    code and body; a completion is returned as a reply whose message is the
    completion text, or the fixed apology when the text is missing or empty,
    with confidence 0.8 and no provider label yet.  In every case the
    service object is left alone and one invocation is logged. *)
Theorem invocation_outcomes
    (w : World) (p : ProviderKey) (request : LLMRequest.t) (m : Machine) :
  ∃ out m',
    callLLMProvider w p request m = (out, m')
    ∧ service m' = service m
    ∧ ticks m' = ticks m
    ∧ events m' = events m ++ [Invoke p]
    ∧ match getValidApiKey w p with
      | None => out = Thrown (KeyNotConfigured p) ∧ requests m' = requests m
      | Some _ =>
          requests m' = S (requests m)
          ∧ match fetch w (requests m) p (buildCatCentralPrompt request) with
            | Rejected => out = Thrown (FetchFailed p)
            | Status status errorText => out = Thrown (ApiError p status errorText)
            | Completion text =>
                ∃ r, out = Returned r
                     ∧ LLMResponse.message r
                       = match text with
                         | Some (String c t) => String c t
                         | _ => apology
                         end
                     ∧ LLMResponse.confidence r = (8 # 10)%Q
                     ∧ LLMResponse.provider r = ""
            end
      end.
Proof.
  rewrite callLLMProvider_exact. cbv zeta.
  destruct (getValidApiKey w p) as [key|].
  - destruct (fetch w (requests m) p (buildCatCentralPrompt request)) as [|st txt|txt].
    + eexists _, _. split; [reflexivity|]. split_and!; reflexivity.
    + eexists _, _. split; [reflexivity|]. split_and!; reflexivity.
    + eexists _, _. split; [reflexivity|]. split_and!; try reflexivity.
      eexists. split; [reflexivity|]. split_and!; try reflexivity.
      destruct txt as [[|c t]|]; reflexivity.
  - eexists _, _. split; [reflexivity|]. split_and!; reflexivity.
Qed.

(** X15. The fallback pass on its own, with or without a list handed in
    (without one it walks the available providers): it returns a reply;
    it invokes each provider at most once, in the order of the list, and no
    throttled one; it records no request; and it either ends in the offline
    reply, every invocation having failed and the current provider being
    kept, or returns the reply of the last provider invoked, labelled with
    its display name, and makes that provider the current one. *)
Theorem fallback_pass_behaviour
    (w : World) (request : LLMRequest.t) (given : option (list ProviderKey))
    (m : Machine) :
  let providers := default (getAvailableProviders w) given in
  Forall (Configured w) providers →
  ∃ r m' evs,
    tryFallbackProviders w request given m = (Returned r, m')
    ∧ events m' = events m ++ evs
    ∧ invoked evs `sublist_of` providers
    ∧ (∀ q, Throttled w (countsOf m) q → q ∉ invoked evs)
    ∧ (∀ p d, countsOf m' !! p = Some d → countsOf m !! p = Some d)
    ∧ ((r = getOfflineFallbackResponse (LLMRequest.message request)
        ∧ failed evs = invoked evs
        ∧ FreeLLMService.currentProvider (service m')
          = FreeLLMService.currentProvider (service m))
       ∨ (∃ p, last (invoked evs) = Some p
               ∧ LLMResponse.provider r = displayName p
               ∧ FreeLLMService.currentProvider (service m') = p)).
Proof.
  intros providers Hconf.
  destruct (fallbackPass_outcome w request providers m Hconf)
    as (r & m' & evs & E & Hev & Hsl & _ & Hrec & Hnot & Hout).
  exists r, m', evs. split_and!; auto.
  destruct Hout as [(Hr & Hcur & Hf)|(p & _ & Hl & _ & _ & Hcur & Hlast)].
  - by left.
  - right. by exists p.
Qed.

Lemma fallback_pass_behaviour_witness :
  ∃ r m' evs,
    tryFallbackProviders groqFlakyWorld (ask "hello" None) None (boot FreeLLMService.new)
    = (Returned r, m')
    ∧ events m' = events (boot FreeLLMService.new) ++ evs
    ∧ invoked evs `sublist_of` getAvailableProviders groqFlakyWorld
    ∧ (∀ p d, countsOf m' !! p = Some d →
              countsOf (boot FreeLLMService.new) !! p = Some d).
Proof.
  destruct (fallback_pass_behaviour groqFlakyWorld (ask "hello" None) None
              (boot FreeLLMService.new))
    as (r & m' & evs & E & Hev & Hsl & _ & Hrec & _).
  - apply Forall_forall. intros p Hp. destruct p.
    + vm_compute in Hp. exfalso. inversion Hp as [|? ? ? H1]; subst.
      inversion H1 as [|? ? ? H2]; subst. inversion H2.
    + vm_compute in Hp. exfalso. inversion Hp as [|? ? ? H1]; subst.
      inversion H1 as [|? ? ? H2]; subst. inversion H2.
    + vm_compute. eexists. reflexivity.
    + vm_compute. eexists. reflexivity.
  - exists r, m', evs. auto.
Defined.

(* ===================================================================== *)
(** ** Further properties: the parser *)
(* ===================================================================== *)

Section DoubleFacts.
Import Double.
Local Open Scope Q_scope.

Lemma pow2_pos (k : Z) : 0 < 2 ^ k.
Proof. apply Qpower_0_lt. reflexivity. Qed.

Lemma pow2_Z (k : Z) : (0 <= k)%Z → inject_Z (2 ^ k) == 2 ^ k.
Proof. intros H. by rewrite Zpower_Qpower. Qed.

Lemma pow2_sub (a b : Z) : 2 ^ (a - b) == 2 ^ a / 2 ^ b.
Proof. apply Qpower_minus. discriminate. Qed.

Lemma log2floor_spec (x : Q) :
  0 < x → 2 ^ log2floor x <= x ∧ x < 2 ^ (log2floor x + 1).
Proof.
  intros Hx. destruct x as [n d].
  assert (Hn : (0 < n)%Z) by (unfold Qlt in Hx; simpl in Hx; lia).
  pose proof (Z.log2_spec n Hn) as [Ha1 Ha2].
  pose proof (Z.log2_spec (Zpos d) (Pos2Z.is_pos d)) as [Hb1 Hb2].
  pose proof (Z.log2_nonneg n) as Ha0. pose proof (Z.log2_nonneg (Zpos d)) as Hb0.
  set (a := Z.log2 n) in *. set (b := Z.log2 (Zpos d)) in *.
  assert (HU : n # d < 2 ^ (a - b + 1)).
  { replace (a - b + 1)%Z with (Z.succ a - b)%Z by lia. rewrite pow2_sub.
    apply Qlt_shift_div_l; [apply pow2_pos|].
    rewrite <- !pow2_Z by lia. unfold Qlt, Qmult. simpl. nia. }
  assert (HL : 2 ^ (a - b - 1) < n # d).
  { replace (a - b - 1)%Z with (a - Z.succ b)%Z by lia. rewrite pow2_sub.
    apply Qlt_shift_div_r; [apply pow2_pos|].
    rewrite <- !pow2_Z by lia. unfold Qlt, Qmult. simpl. nia. }
  unfold log2floor. cbn [Qnum Qden]. fold a b.
  destruct (Qle_bool (2 ^ (a - b)) (n # d)) eqn:E.
  - apply Qle_bool_iff in E. split; [exact E|exact HU].
  - split; [apply Qlt_le_weak, HL|].
    replace (a - b - 1 + 1)%Z with (a - b)%Z by lia.
    apply Qnot_le_lt. intros H. apply Qle_bool_iff in H. congruence.
Qed.

Lemma nearestEven_nonneg (q : Q) : 0 <= q → (0 <= nearestEven q)%Z.
Proof.
  intros H. assert (Hf : (0 <= Qfloor q)%Z).
  { change 0%Z with (Qfloor 0). by apply Qfloor_resp_le. }
  unfold nearestEven. destruct (Qcompare _ _); [destruct (Z.even _)| |]; lia.
Qed.

Lemma nearestEven_below (q : Q) (N : Z) :
  q < inject_Z N + (1 # 2) → (nearestEven q <= N)%Z.
Proof.
  intros H. pose proof (Qfloor_le q) as Hf.
  assert (Hle : (Qfloor q <= N)%Z).
  { destruct (Z_le_gt_dec (Qfloor q) N) as [|Hgt]; [assumption|exfalso].
    assert (Hq : inject_Z (N + 1) <= inject_Z (Qfloor q)) by (rewrite <- Zle_Qle; lia).
    rewrite inject_Z_plus in Hq. change (inject_Z 1) with 1 in Hq. lra. }
  unfold nearestEven.
  destruct (Qcompare (q - inject_Z (Qfloor q)) (1 # 2)) eqn:E.
  - apply Qeq_alt in E.
    assert (Hlt : (Qfloor q < N)%Z).
    { destruct (Z_lt_ge_dec (Qfloor q) N) as [|Hge]; [assumption|exfalso].
      assert (Hq : inject_Z N <= inject_Z (Qfloor q)) by (rewrite <- Zle_Qle; lia).
      lra. }
    destruct (Z.even _); lia.
  - exact Hle.
  - apply Qgt_alt in E.
    destruct (Z_lt_ge_dec (Qfloor q) N) as [|Hge]; [lia|exfalso].
    assert (Hq : inject_Z N <= inject_Z (Qfloor q)) by (rewrite <- Zle_Qle; lia).
    lra.
Qed.


(** The exponent of the last bit, as a power of two in the denominator. *)
Lemma pow2_neg (e : Z) :
  (e <= 0)%Z → 2 ^ e == / inject_Z (2 ^ (- e)).
Proof.
  intros H. rewrite pow2_Z by lia. rewrite <- Qpower_opp.
  by replace (- - e)%Z with e by lia.
Qed.

Lemma log2floor_below (x : Q) (k : Z) : 0 < x → x < 2 ^ k → (log2floor x < k)%Z.
Proof.
  intros Hx Hk. destruct (log2floor_spec x Hx) as [Hl _].
  destruct (Z_lt_ge_dec (log2floor x) k) as [|Hge]; [assumption|exfalso].
  assert (H : 2 ^ k <= 2 ^ log2floor x) by (apply Qpower_le_compat_l; [lia|discriminate]).
  lra.
Qed.

Lemma round_product_range (x : Q) :
  0 <= x → x <= belowOne * 500 → 0 <= round x ∧ round x < 500.
Proof.
  intros H0 H1. unfold round.
  destruct (Qcompare x 0) eqn:E.
  - split; [discriminate|reflexivity].
  - apply Qlt_alt in E. lra.
  - apply Qgt_alt in E.
    assert (Hl : (log2floor x < 9)%Z).
    { apply log2floor_below; [exact E|].
      change (2 ^ 9) with 512. unfold belowOne in H1. lra. }
    unfold roundPos.
    set (e := Z.max (log2floor x - 52) (-1074)).
    assert (He : (e <= -44)%Z) by lia.
    set (P := (2 ^ (- e))%Z).
    assert (HP : (2 ^ 44 <= P)%Z) by (apply Z.pow_le_mono_r; lia).
    assert (Hp : 17592186044416 <= inject_Z P).
    { change 17592186044416 with (inject_Z (2 ^ 44)). by rewrite <- Zle_Qle. }
    assert (Hpow : 2 ^ e == / inject_Z P) by (apply pow2_neg; lia).
    assert (Hdiv : x / 2 ^ e == x * inject_Z P).
    { rewrite Hpow. unfold Qdiv. by rewrite Qinv_involutive. }
    assert (Hxp : x * inject_Z P <= belowOne * 500 * inject_Z P).
    { apply Qmult_le_compat_r; [exact H1|lra]. }
    assert (Hm : (nearestEven (x / 2 ^ e) <= 500 * P - 1)%Z).
    { apply nearestEven_below. rewrite Hdiv.
      unfold Zminus. rewrite inject_Z_plus, inject_Z_mult.
      change (inject_Z 500) with 500. change (inject_Z (- (1))) with (- (1)).
      unfold belowOne in Hxp.
      generalize dependent (x * inject_Z P). generalize dependent (inject_Z P).
      intros p Hp _ xp _ Hxp. lra. }
    assert (Hm0 : (0 <= nearestEven (x / 2 ^ e))%Z).
    { apply nearestEven_nonneg. rewrite Hdiv.
      apply Qmult_le_0_compat; [exact H0|lra]. }
    set (m := nearestEven (x / 2 ^ e)) in *.
    assert (Hm' : inject_Z m <= 500 * inject_Z P - 1).
    { rewrite Zle_Qle in Hm. unfold Zminus in Hm.
      rewrite inject_Z_plus, inject_Z_mult in Hm. exact Hm. }
    change (inject_Z 500) with 500 in Hm'. change (inject_Z (- (1))) with (- (1)) in Hm'.
    assert (Hm0' : 0 <= inject_Z m) by (change 0 with (inject_Z 0); by rewrite <- Zle_Qle).
    split.
    + apply Qmult_le_0_compat; [exact Hm0'|]. apply Qlt_le_weak, pow2_pos.
    + rewrite Hpow. apply Qlt_shift_div_r; lra.
Qed.

(** A Number below 1 is at most [1 - 2^-53]. *)
Lemma double_below_one (r : Q) :
  0 <= r → r < 1 → isDouble r = true → r <= belowOne.
Proof.
  intros H0 H1 Hd. unfold isDouble in Hd. apply Qeq_bool_eq in Hd.
  unfold round in Hd. destruct (Qcompare r 0) eqn:E.
  - apply Qeq_alt in E. rewrite E. discriminate.
  - apply Qlt_alt in E. lra.
  - apply Qgt_alt in E. unfold roundPos in Hd.
    destruct (log2floor_spec r E) as [_ Hup].
    set (e := Z.max (log2floor r - 52) (-1074)) in *.
    set (m := nearestEven (r / 2 ^ e)) in *.
    destruct (Z_le_gt_dec (-53) e) as [He|He].
    + assert (Hpow : 2 ^ e == inject_Z (2 ^ (e + 53)) / inject_Z (2 ^ 53)).
      { rewrite !pow2_Z by lia. rewrite <- pow2_sub.
        by replace (e + 53 - 53)%Z with e by lia. }
      set (j := (m * 2 ^ (e + 53))%Z).
      assert (Hr : r == inject_Z j / inject_Z (2 ^ 53)).
      { rewrite <- Hd, Hpow. unfold j. rewrite inject_Z_mult. unfold Qdiv.
        by rewrite Qmult_assoc. }
      assert (Hj : (j < 2 ^ 53)%Z).
      { rewrite Zlt_Qlt. rewrite Hr in H1.
        apply Qmult_lt_compat_r with (z := inject_Z (2 ^ 53)) in H1; [|reflexivity].
        unfold Qdiv in H1. rewrite <- Qmult_assoc, (Qmult_comm (/ _)) in H1.
        rewrite Qmult_inv_r in H1 by discriminate. lra. }
      rewrite Hr. apply Qle_shift_div_r; [reflexivity|].
      assert (Hc : belowOne * inject_Z (2 ^ 53) == inject_Z (2 ^ 53 - 1)) by reflexivity.
      rewrite Hc, <- Zle_Qle. lia.
    + assert (Hl : (log2floor r + 1 <= -1)%Z) by lia.
      assert (H : 2 ^ (log2floor r + 1) <= 2 ^ (-1))
        by (apply Qpower_le_compat_l; [exact Hl|discriminate]).
      change (2 ^ (-1)) with (1 # 2) in H. unfold belowOne. lra.
Qed.

(** The product agrees with the multiplication of the Standard Library's
    specification of IEEE 754 arithmetic, at binary64, on draws that show
    the rounding: the Numbers nearest to 0.48, 0.3 and 1/6, the largest one
    below 1, 1/2 and the smallest positive one. *)
Lemma mul_agrees_with_specification :
  Forall (fun f => mul (ofSpec f) 500
                   == ofSpec (SFmul 53 1024 f (S754_finite false 500 0)))
    [S754_finite false 4323455642275676 (-53);
     S754_finite false 5404319552844595 (-54);
     S754_finite false 6004799503160661 (-55);
     S754_finite false 9007199254740991 (-53);
     S754_finite false 1 (-1);
     S754_finite false 1 (-1074)].
Proof. repeat constructor; vm_compute; reflexivity. Qed.

(** At the draw 0.48 the exact product lies below 240 and the Number is
    240. *)
Lemma mul_rounds_up_example :
  (4323455642275676 # 9007199254740992) * 500 < 240
  ∧ mul (4323455642275676 # 9007199254740992) 500 == 240.
Proof. split; vm_compute; reflexivity. Qed.

End DoubleFacts.

Section ParserInvariants.
Import Text Regex Parser.

Lemma placeholderPrice_range (r : Q) :
  unitDraw r → (50 <= placeholderPrice r <= 549)%Z.
Proof.
  intros (H0 & H1 & Hd). unfold placeholderPrice, Double.mul.
  pose proof (double_below_one r H0 H1 Hd) as Hb.
  destruct (round_product_range (r * 500)) as [Hlo Hhi].
  { apply Qmult_le_0_compat; [exact H0|discriminate]. }
  { apply Qmult_le_compat_r; [exact Hb|discriminate]. }
  assert (Hf0 : (0 <= Qfloor (Double.round (r * 500)))%Z).
  { change 0%Z with (Qfloor 0). by apply Qfloor_resp_le. }
  assert (Hf1 : (Qfloor (Double.round (r * 500)) < 500)%Z).
  { rewrite Zlt_Qlt. eapply Qle_lt_trans; [apply Qfloor_le|exact Hhi]. }
  lia.
Qed.

Lemma suggestionsOf_facts equipment rnd matches : ∀ d,
  (∀ k, unitDraw (rnd k)) →
  length (suggestionsOf equipment rnd d matches) = length matches
  ∧ Forall (fun s => PartSuggestion.aiRecommended s = true
                     ∧ PartSuggestion.compatibility s = equipment
                     ∧ (50 <= PartSuggestion.price s <= 549)%Z)
      (suggestionsOf equipment rnd d matches).
Proof.
  intros d Hr. revert d. induction matches as [|x rest IH]; intros d.
  - split; [reflexivity|constructor].
  - destruct (IH (S (S d))) as [Hl Hf]. cbn [suggestionsOf length]. split; [by rewrite Hl|].
    constructor; [|exact Hf].
    split; [reflexivity|]. split; [reflexivity|]. apply placeholderPrice_range, Hr.
Qed.

Lemma faultCodeInfoOf_facts (m : found) :
  let info := faultCodeInfoOf m in
  FaultCodeInfo.severity info ≠ ""
  ∧ toLowerCase (FaultCodeInfo.severity info) = FaultCodeInfo.severity info
  ∧ FaultCodeInfo.relatedParts info = [].
Proof.
  unfold faultCodeInfoOf. cbn [FaultCodeInfo.severity FaultCodeInfo.relatedParts].
  split_and!; [| |reflexivity].
  - destruct (group 3 m); [apply orElse_truthy; reflexivity|discriminate].
  - destruct (group 3 m) as [s|]; [|reflexivity].
    unfold orElse. destruct (truthy (toLowerCase (trim s))); [|reflexivity].
    apply toLowerCase_idem.
Qed.

End ParserInvariants.

(** X16. Whatever the model text, the part suggestions the parser makes
    come in the number of the matches found, are none rather than an empty
    list, are all marked as AI recommended, carry the request's equipment
    serial numbers as compatibility, and have a placeholder price between 50
    and 549 (the random draws being Numbers in [0, 1), and their product
    with 500 being rounded as the language rounds it); each suggestion uses
    two draws. *)
Theorem suggestions_well_formed
    (rnd : nat -> Q) (d : nat) (text : string) (request : LLMRequest.t) :
  (∀ k, unitDraw (rnd k)) →
  let parsed := Parser.parseAIResponse rnd d text request in
  match LLMResponse.suggestions parsed.1 with
  | None => parsed.2 = d
  | Some l =>
      l ≠ []
      ∧ parsed.2 = d + 2 * length l
      ∧ Forall (fun s => PartSuggestion.aiRecommended s = true
                         ∧ PartSuggestion.compatibility s = Parser.equipmentOf request
                         ∧ (50 <= PartSuggestion.price s <= 549)%Z) l
  end.
Proof.
  intros Hr parsed. unfold parsed. rewrite parse_suggestions.
  unfold Parser.parseAIResponse. cbn [snd].
  unfold Regex.matchAll.
  destruct (Regex.matchAllFrom true true Parser.partPattern 0 text) as [|x rest] eqn:E.
  - simpl. lia.
  - cbn [fmap option_fmap option_map default].
    destruct (suggestionsOf_facts (Parser.equipmentOf request) rnd (x :: rest) d Hr)
      as [Hl Hf].
    split_and!; [|by rewrite Hl|exact Hf].
    intros Hnil. rewrite Hnil in Hl. discriminate.
Qed.

Lemma suggestions_well_formed_witness :
  let parsed := Parser.parseAIResponse evenDraws 4 partLine (ask "filter" None) in
  match LLMResponse.suggestions parsed.1 with
  | None => parsed.2 = 4
  | Some l =>
      l ≠ []
      ∧ parsed.2 = 4 + 2 * length l
      ∧ Forall (fun s => PartSuggestion.aiRecommended s = true
                         ∧ PartSuggestion.compatibility s
                           = Parser.equipmentOf (ask "filter" None)
                         ∧ (50 <= PartSuggestion.price s <= 549)%Z) l
  end.
Proof.
  apply (suggestions_well_formed evenDraws 4 partLine (ask "filter" None)).
  intros k. split; [|split]; vm_compute; congruence.
Defined.

(** X17. Every fault-code record the parser produces has a severity that is
    not empty and is in lower case ("medium" standing in for a blank one),
    and an empty list of related parts. *)
Theorem fault_record_invariants
    (rnd : nat -> Q) (d : nat) (text : string) (request : LLMRequest.t)
    (info : FaultCodeInfo.t) :
  LLMResponse.faultCodeInfo (Parser.parseAIResponse rnd d text request).1 = Some info →
  FaultCodeInfo.severity info ≠ ""
  ∧ Text.toLowerCase (FaultCodeInfo.severity info) = FaultCodeInfo.severity info
  ∧ FaultCodeInfo.relatedParts info = [].
Proof.
  unfold Parser.parseAIResponse. cbn [fst LLMResponse.faultCodeInfo].
  destruct (Regex.search true Parser.faultCodePattern text) as [[skipped m]|];
    [|discriminate].
  cbn [fmap option_fmap option_map snd]. intros [= <-].
  apply faultCodeInfoOf_facts.
Qed.

Lemma fault_record_invariants_witness :
  ∃ info,
    LLMResponse.faultCodeInfo
      (Parser.parseAIResponse evenDraws 0 faultBlock (ask "E101" None)).1 = Some info
    ∧ FaultCodeInfo.severity info ≠ ""
    ∧ Text.toLowerCase (FaultCodeInfo.severity info) = FaultCodeInfo.severity info
    ∧ FaultCodeInfo.relatedParts info = [].
Proof.
  eexists. split; [vm_compute; reflexivity|].
  apply (fault_record_invariants evenDraws 0 faultBlock (ask "E101" None)).
  vm_compute. reflexivity.
Defined.

Section ParserMisses.
Import Text Regex Parser.

Lemma litMatches_app ic a : ∀ b s,
  litMatches ic (a +:+ b) s
  = litMatches ic a s && litMatches ic b (skipChars (String.length a) s).
Proof.
  induction a as [|c a IH]; intros b s; [reflexivity|].
  rewrite append_cons. cbn [litMatches String.length skipChars].
  destruct s as [|x s]; [reflexivity|]. rewrite IH. by rewrite andb_assoc.
Qed.

(** A literal in the pattern is a test of the text ahead. *)
Lemma run_Lit ic bos lit : ∀ k st,
  run ic bos (Lit lit) k st
  = if litMatches ic lit (ahead st)
    then k (MState (skipChars (String.length lit) (ahead st))
              (used st + String.length lit) (caps st))
    else None.
Proof.
  induction lit as [|c lit IH]; intros k [s u cs].
  - cbn. by rewrite Nat.add_0_r.
  - destruct lit as [|c' lit'].
    + cbn [Lit run ahead litMatches String.length skipChars used caps].
      destruct s as [|a s']; [reflexivity|].
      rewrite andb_true_r. unfold step. cbn [used caps]. by rewrite Nat.add_1_r.
    + change (Lit (String c (String c' lit'))) with (Cat (Chr c) (Lit (String c' lit'))).
      cbn [run ahead]. destruct s as [|a s']; [reflexivity|].
      cbn [litMatches]. destruct (charEq ic a c); [|reflexivity].
      rewrite IH. unfold step. cbn [ahead used caps andb].
      change (String.length (String c (String c' lit')))
        with (S (String.length (String c' lit'))).
      cbn [skipChars]. by rewrite Nat.add_succ_r.
Qed.

Lemma lit_prefix_lower lit : ∀ s,
  litMatches true lit s = true → startsWith (toLowerCase s) (toLowerCase lit) = true.
Proof.
  induction lit as [|c lit IH]; intros s; [reflexivity|].
  destruct s as [|a s]; [discriminate|]. cbn [litMatches toLowerCase startsWith].
  intros H. apply andb_prop in H as [Hc Hs]. apply charEq_lower in Hc.
  rewrite Hc, Ascii.eqb_refl. by apply IH.
Qed.

Lemma absent_here s marker :
  mentions s marker = false → startsWith (toLowerCase s) marker = false.
Proof.
  unfold mentions. rewrite includes_unfold. intros H.
  by apply orb_false_elim in H as [H _].
Qed.

Lemma absent_later c s marker :
  mentions (String c s) marker = false → mentions s marker = false.
Proof.
  unfold mentions. cbn [toLowerCase]. rewrite includes_cons. intros H.
  by apply orb_false_elim in H as [_ H].
Qed.

Lemma absent_lit s lit :
  mentions s (toLowerCase lit) = false → litMatches true lit s = false.
Proof.
  intros H. apply absent_here in H.
  destruct (litMatches true lit s) eqn:E; [|reflexivity].
  apply lit_prefix_lower in E. congruence.
Qed.

(** A pattern that opens with a literal finds nothing in a text that does
    not mention the literal. *)
Lemma absent_lit_search lit r : ∀ s bos,
  mentions s (toLowerCase lit) = false →
  searchFrom true bos (Cat (Lit lit) r) s = None.
Proof.
  induction s as [|c s IH]; intros bos H; cbn [searchFrom];
    rewrite exec_Lit_fail by (by apply absent_lit).
  - reflexivity.
  - rewrite IH; [reflexivity|]. by eapply absent_later.
Qed.

(** [Word], an optional [s] and a colon. *)
Lemma word_colon_fail bos word R k st :
  litMatches true (word +:+ ":") (ahead st) = false →
  litMatches true (word +:+ "s:") (ahead st) = false →
  run true bos (Cat (Lit word) (Opt (Chr "s")))
    (fun st' => run true bos (Cat (Lit ":") R) k st') st = None.
Proof.
  rewrite !litMatches_app. intros H1 H2.
  cbn [run]. rewrite run_Lit.
  destruct (litMatches true word (ahead st)); [|reflexivity].
  cbn [andb] in H1, H2. unfold Opt. cbn [run ahead].
  assert (Hk : run true bos (Lit ":")
                 (fun st' => run true bos R k st')
                 (MState (skipChars (String.length word) (ahead st))
                    (used st + String.length word) (caps st)) = None).
  { by apply run_Lit_fail. }
  rewrite Hk.
  destruct (skipChars (String.length word) (ahead st)) as [|a s']; [reflexivity|].
  cbn [litMatches] in H2.
  destruct (charEq true a "s"); [|reflexivity].
  cbn [andb] in H2. rewrite run_Lit_fail; [reflexivity|exact H2].
Qed.

Lemma stepsPattern_shape :
  ∃ R, stepsPattern
       = Cat (Alt (Cat (Lit "Step") (Opt (Chr "s"))) (Cat (Lit "Action") (Opt (Chr "s"))))
           (Cat (Lit ":") R).
Proof. eexists. reflexivity. Qed.

Lemma absent_steps_search : ∀ s bos,
  mentions s "step:" = false → mentions s "steps:" = false →
  mentions s "action:" = false → mentions s "actions:" = false →
  searchFrom true bos stepsPattern s = None.
Proof.
  destruct stepsPattern_shape as [R ->].
  assert (Hexec : ∀ s bos,
             mentions s "step:" = false → mentions s "steps:" = false →
             mentions s "action:" = false → mentions s "actions:" = false →
             exec true bos
               (Cat (Alt (Cat (Lit "Step") (Opt (Chr "s")))
                       (Cat (Lit "Action") (Opt (Chr "s"))))
                  (Cat (Lit ":") R)) s = None).
  { intros s bos H1 H2 H3 H4. unfold exec. cbn [run].
    pose proof (word_colon_fail bos "Step" R Some (MState s 0 [])
                  (absent_lit s "Step:" H1) (absent_lit s "Steps:" H2)) as E1.
    pose proof (word_colon_fail bos "Action" R Some (MState s 0 [])
                  (absent_lit s "Action:" H3) (absent_lit s "Actions:" H4)) as E2.
    cbn [run] in E1, E2. by rewrite E1, E2. }
  induction s as [|c s IH]; intros bos H1 H2 H3 H4; cbn [searchFrom];
    rewrite Hexec by assumption.
  - reflexivity.
  - rewrite IH; [reflexivity| | | |]; by eapply absent_later.
Qed.

End ParserMisses.

(** X18. A model text that carries none of the markers the parser looks for
    (no "part:", no "fault code:", no "step:", "steps:", "action:" or
    "actions:", in any letter case) comes back as the bare message: no
    suggestions, no fault-code record, no troubleshooting steps, confidence
    0.8, and no random draw is used. *)
Theorem plain_text_parses_bare
    (rnd : nat -> Q) (d : nat) (text : string) (request : LLMRequest.t) :
  mentions text "part:" = false →
  mentions text "fault code:" = false →
  mentions text "step:" = false → mentions text "steps:" = false →
  mentions text "action:" = false → mentions text "actions:" = false →
  Parser.parseAIResponse rnd d text request
  = (LLMResponse.Build text None None None (8 # 10) "", d).
Proof.
  intros Hp Hf H1 H2 H3 H4. unfold Parser.parseAIResponse.
  unfold Regex.matchAll, Regex.search.
  rewrite (no_marker_no_match text true Hp).
  rewrite (absent_steps_search text true H1 H2 H3 H4).
  assert (E : Regex.searchFrom true true Parser.faultCodePattern text = None).
  { assert (Hs : ∃ r, Parser.faultCodePattern = Regex.Cat (Regex.Lit "Fault Code:") r)
      by (eexists; reflexivity).
    destruct Hs as [r ->]. by apply absent_lit_search. }
  rewrite E. cbn. by rewrite Nat.add_0_r.
Qed.

Lemma plain_text_parses_bare_witness :
  Parser.parseAIResponse evenDraws 3 "Check the oil level every 250 hours."
    (ask "oil" None)
  = (LLMResponse.Build "Check the oil level every 250 hours." None None None (8 # 10) "", 3).
Proof.
  apply (plain_text_parses_bare evenDraws 3 "Check the oil level every 250 hours."
           (ask "oil" None)); vm_compute; reflexivity.
Defined.

Section RoundTrip.
Import Text Regex Parser.

Lemma charEq_refl ic a : charEq ic a a = true.
Proof. unfold charEq. destruct ic; apply Ascii.eqb_refl. Qed.

Lemma litMatches_self ic lit rest : litMatches ic lit (lit +:+ rest) = true.
Proof.
  induction lit as [|c lit IH]; [reflexivity|].
  rewrite append_cons. cbn [litMatches]. by rewrite charEq_refl, IH.
Qed.

Lemma skipChars_app lit rest : skipChars (String.length lit) (lit +:+ rest) = rest.
Proof.
  induction lit as [|c lit IH]; [by destruct rest|].
  rewrite append_cons. cbn [String.length skipChars]. exact IH.
Qed.

Lemma run_Lit_ok ic bos lit k rest u cs :
  run ic bos (Lit lit) k (MState (lit +:+ rest) u cs)
  = k (MState rest (u + String.length lit) cs).
Proof.
  rewrite run_Lit. cbn [ahead used caps]. by rewrite litMatches_self, skipChars_app.
Qed.

Lemma allChars_app f a b : allChars f (a +:+ b) = allChars f a && allChars f b.
Proof.
  induction a as [|c a IH]; [reflexivity|].
  rewrite append_cons. cbn [allChars]. by rewrite IH, andb_assoc.
Qed.

Lemma substring_prefix a b : substring 0 (String.length a) (a +:+ b) = a.
Proof.
  induction a as [|c a IH]; [by destruct b|].
  rewrite append_cons. cbn [String.length substring]. by rewrite IH.
Qed.

Lemma run_Rep ic bos greedy r k st :
  run ic bos (Rep greedy r) k st
  = rep (run ic bos r) greedy k (S (String.length (ahead st))) st.
Proof. reflexivity. Qed.

Lemma rep_greedy_S body k fuel st :
  rep body true k (S fuel) st
  = match body (fun st' => if Nat.ltb (used st) (used st')
                           then rep body true k fuel st' else None) st with
    | Some x => Some x
    | None => k st
    end.
Proof. reflexivity. Qed.

Lemma run_Cls ic bos f k s u cs :
  run ic bos (Cls f) k (MState s u cs)
  = match s with
    | String a s' => if f a then k (MState s' (S u) cs) else None
    | EmptyString => None
    end.
Proof. reflexivity. Qed.

(** A greedy repetition of a class takes the whole run of characters of the
    class when what follows lets the match go on. *)
Lemma rep_class_greedy ic bos f k x : ∀ pre rest u cs,
  allChars f pre = true → stopsAt f rest = true →
  k (MState rest (u + String.length pre) cs) = Some x →
  run ic bos (Rep true (Cls f)) k (MState (pre +:+ rest) u cs) = Some x.
Proof.
  induction pre as [|c pre IH]; intros rest u cs Hall Hstop Hk.
  - rewrite append_nil. cbn [String.length] in Hk. rewrite Nat.add_0_r in Hk.
    rewrite run_Rep, rep_greedy_S, run_Cls.
    destruct rest as [|a rest']; [exact Hk|].
    cbn [stopsAt] in Hstop. apply negb_true_iff in Hstop. by rewrite Hstop.
  - rewrite append_cons. cbn [allChars] in Hall. apply andb_prop in Hall as [Hc Hall].
    rewrite run_Rep. cbn [ahead String.length]. rewrite rep_greedy_S, run_Cls, Hc.
    cbn [used].
    assert (Hlt : Nat.ltb u (S u) = true) by (apply Nat.ltb_lt; lia).
    rewrite Hlt.
    change (rep (run ic bos (Cls f)) true k (S (String.length (pre +:+ rest)))
              (MState (pre +:+ rest) (S u) cs))
      with (run ic bos (Rep true (Cls f)) k (MState (pre +:+ rest) (S u) cs)).
    rewrite (IH rest (S u) cs Hall Hstop); [reflexivity|].
    cbn [String.length] in Hk. by rewrite Nat.add_succ_r in Hk.
Qed.

Lemma run_Cat ic bos r1 r2 k st :
  run ic bos (Cat r1 r2) k st = run ic bos r1 (fun st' => run ic bos r2 k st') st.
Proof. reflexivity. Qed.

Lemma run_Cap ic bos i r k st :
  run ic bos (Cap i r) k st
  = run ic bos r
      (fun st' => k (MState (ahead st') (used st')
                       ((i, substring 0 (used st' - used st) (ahead st)) :: caps st')))
      st.
Proof. reflexivity. Qed.

Lemma cap_plus_class ic bos f i k x pre rest u cs :
  pre ≠ "" → allChars f pre = true → stopsAt f rest = true →
  k (MState rest (u + String.length pre) ((i, pre) :: cs)) = Some x →
  run ic bos (Cap i (Plus (Cls f))) k (MState (pre +:+ rest) u cs) = Some x.
Proof.
  intros Hne Hall Hstop Hk. destruct pre as [|c pre]; [done|].
  unfold Plus. rewrite run_Cap, run_Cat. cbn [ahead used]. rewrite append_cons, run_Cls.
  cbn [allChars] in Hall. apply andb_prop in Hall as [Hc Hall]. rewrite Hc.
  apply rep_class_greedy; [exact Hall|exact Hstop|].
  cbn [ahead used caps].
  replace (S u + String.length pre - u) with (String.length (String c pre))
    by (cbn [String.length]; lia).
  rewrite <- append_cons, substring_prefix.
  cbn [String.length] in Hk. by rewrite Nat.add_succ_r in Hk.
Qed.

Lemma length_trimEnd s : String.length (trimEnd s) ≤ String.length s.
Proof.
  induction s as [|c s IH]; [reflexivity|]. cbn [trimEnd].
  destruct (trimEnd s) as [|a t]; [destruct (isWhiteSpace c)|];
    cbn [String.length] in *; lia.
Qed.

Lemma length_trimStart s : String.length (trimStart s) ≤ String.length s.
Proof.
  induction s as [|c s IH]; [reflexivity|]. cbn [trimStart].
  destruct (isWhiteSpace c); cbn [String.length]; lia.
Qed.

(** A tidy text begins with a character that is not white space. *)
Lemma tidy_head s : tidy s → stopsAt isWhiteSpace s = true ∧ trimEnd s = s.
Proof.
  intros [Hne Ht]. destruct s as [|c s]; [done|].
  cbn [stopsAt]. unfold trim in Ht. cbn [trimStart] in Ht.
  destruct (isWhiteSpace c); [|done].
  exfalso.
  pose proof (length_trimEnd (trimStart s)). pose proof (length_trimStart s).
  rewrite Ht in *. cbn [String.length] in *. lia.
Qed.

Lemma trimEnd_space s : trimEnd (s +:+ " ") = trimEnd s.
Proof.
  induction s as [|c s IH]; [reflexivity|].
  rewrite append_cons. cbn [trimEnd]. by rewrite IH.
Qed.

Lemma trim_tidy s : tidy s → trim s = s ∧ trim (s +:+ " ") = s.
Proof.
  intros Ht. destruct (tidy_head s Ht) as [Hh He]. destruct Ht as [Hne Ht].
  split; [exact Ht|].
  destruct s as [|c s]; [done|]. cbn [stopsAt] in Hh. apply negb_true_iff in Hh.
  unfold trim. rewrite append_cons. cbn [trimStart]. rewrite Hh.
  rewrite <- append_cons, trimEnd_space. exact He.
Qed.

Lemma trimmedOr_tidy s dflt : tidy s → trimmedOr (Some s) dflt = s.
Proof.
  intros Ht. destruct (trim_tidy s Ht) as [E _]. destruct Ht as [Hne _].
  unfold trimmedOr, orElse. rewrite E. by destruct s.
Qed.

Lemma partLineOf_parts name number description after :
  partLineOf name number description +:+ after
  = "Part:" +:+ " " +:+ (name +:+ " ") +:+ "(Part #:" +:+ " " +:+ number
      +:+ ")" +:+ " " +:+ "-" +:+ " " +:+ description +:+ after.
Proof. unfold partLineOf. rewrite !append_assoc. reflexivity. Qed.

Lemma partLineOf_length name number description :
  String.length (partLineOf name number description)
  = 0 + 5 + 1 + String.length (name +:+ " ") + 0 + 8 + 1 + String.length number
    + 1 + 1 + 1 + 1 + String.length description.
Proof.
  unfold partLineOf. rewrite !length_append. cbn [String.length]. lia.
Qed.

(** The pattern matches a part line written in the requested layout, from
    its first to its last character, and captures its three fields. *)
Lemma exec_partLineOf bos name number description after :
  tidy name → allChars (isNot "(") name = true →
  tidy number → allChars (isNot ")") number = true →
  tidy description → allChars (isNot nl) description = true →
  stopsAt (isNot nl) after = true →
  exec true bos partPattern (partLineOf name number description +:+ after)
  = Some (Found (partLineOf name number description)
            [(3, description); (2, number); (1, name +:+ " ")] after).
Proof.
  intros Tn An Tm Am Td Ad Hafter.
  destruct (tidy_head name Tn) as [Hn _]. destruct (tidy_head number Tm) as [Hm _].
  destruct (tidy_head description Td) as [Hd _].
  assert (Hrun : run true bos partPattern Some
                   (MState (partLineOf name number description +:+ after) 0 [])
                 = Some (MState after
                           (String.length (partLineOf name number description))
                           [(3, description); (2, number); (1, name +:+ " ")])).
  { rewrite partLineOf_parts, partLineOf_length.
    unfold partPattern, ws, notChar. cbn [Seq].
    rewrite run_Cat, run_Lit_ok. cbv beta. rewrite run_Cat.
    apply (rep_class_greedy true bos isWhiteSpace _ _ " "); [reflexivity| |].
    { destruct name as [|c name']; [by destruct Tn|]. rewrite !append_cons. exact Hn. }
    rewrite run_Cat.
    apply (cap_plus_class true bos (isNot "(")).
    { destruct name; discriminate. }
    { by rewrite allChars_app, An. }
    { reflexivity. }
    rewrite run_Cat.
    apply (rep_class_greedy true bos isWhiteSpace _ _ ""
             ("(Part #:" +:+ " " +:+ number +:+ ")" +:+ " " +:+ "-" +:+ " "
                +:+ description +:+ after));
      [reflexivity|reflexivity|].
    rewrite run_Cat, run_Lit_ok. cbv beta. rewrite run_Cat.
    apply (rep_class_greedy true bos isWhiteSpace _ _ " "); [reflexivity| |].
    { destruct number as [|c number']; [by destruct Tm|]. rewrite !append_cons. exact Hm. }
    rewrite run_Cat.
    apply (cap_plus_class true bos (isNot ")")).
    { by destruct Tm. }
    { exact Am. }
    { reflexivity. }
    rewrite run_Cat. change (Chr ")") with (Lit ")"). rewrite run_Lit_ok. cbv beta.
    rewrite run_Cat.
    apply (rep_class_greedy true bos isWhiteSpace _ _ " "); [reflexivity|reflexivity|].
    rewrite run_Cat. change (Chr "-") with (Lit "-"). rewrite run_Lit_ok. cbv beta.
    rewrite run_Cat.
    apply (rep_class_greedy true bos isWhiteSpace _ _ " "); [reflexivity| |].
    { destruct description as [|c description']; [by destruct Td|].
      rewrite !append_cons. exact Hd. }
    apply (cap_plus_class true bos (isNot nl)).
    { by destruct Td. }
    { exact Ad. }
    { exact Hafter. }
    reflexivity. }
  unfold exec. rewrite Hrun. cbn [used caps ahead]. by rewrite substring_prefix.
Qed.

Lemma searchFrom_hit ic bos r s m :
  exec ic bos r s = Some m → searchFrom ic bos r s = Some ("", m).
Proof. intros E. destruct s; cbn [searchFrom]; by rewrite E. Qed.

Lemma suggestionOf_partLineOf equipment name number description r1 r2 :
  tidy name → allChars (isNot "(") name = true →
  tidy number → allChars (isNot ")") number = true →
  tidy description → allChars (isNot nl) description = true →
  suggestionOf equipment (partLineOf name number description) r1 r2
  = PartSuggestion.Build number name equipment (placeholderPrice r1)
      (placeholderStock r2) true description.
Proof.
  intros Tn An Tm Am Td Ad.
  pose proof (exec_partLineOf true name number description "" Tn An Tm Am Td Ad
                eq_refl) as E.
  rewrite append_empty_r in E.
  unfold suggestionOf, search. rewrite (searchFrom_hit _ _ _ _ _ E).
  cbn [fmap option_fmap option_map snd mbind option_bind].
  change (group 1 _) with (Some (name +:+ " ")).
  change (group 2 _) with (Some number).
  change (group 3 _) with (Some description).
  rewrite (trimmedOr_tidy number), (trimmedOr_tidy description) by assumption.
  destruct (trim_tidy name Tn) as [_ E1]. destruct Tn as [Hne _].
  unfold trimmedOr at 1, orElse. rewrite E1.
  by destruct name.
Qed.

(** A part line in the requested layout, followed by nothing or by lines
    without a marker, is the one match of the pattern. *)
Lemma partLineOf_only_match name number description after bos :
  tidy name → allChars (isNot "(") name = true →
  tidy number → allChars (isNot ")") number = true →
  tidy description → allChars (isNot nl) description = true →
  after = "" ∨ (∃ q, after = String nl q) →
  mentions after "part:" = false →
  matchAllFrom true bos partPattern 0 (partLineOf name number description +:+ after)
  = [partLineOf name number description].
Proof.
  intros Tn An Tm Am Td Ad Ha Ma.
  assert (Hstop : stopsAt (isNot nl) after = true).
  { destruct Ha as [->|[q ->]]; reflexivity. }
  rewrite matchAllFrom_0, exec_partLineOf by assumption. cbn [whole]. f_equal.
  set (rest := "art: " +:+ name +:+ " (Part #: " +:+ number +:+ ") - " +:+ description).
  change (partLineOf name number description) with (String "P" rest).
  rewrite append_cons. cbv iota.
  replace (String.length (String "P" rest) - 1) with (String.length rest)
    by (cbn [String.length]; lia).
  destruct (matchAllFrom_skip true partPattern rest after false) as [E|E];
    [|discriminate].
  rewrite E. by apply no_marker_no_match.
Qed.

End RoundTrip.

(** X19. Round trip of the part layout of the system prompt.  A line written as
    [Part: <name> (Part #: <number>) - <description>], on a line of its own
    among lines without a [part:] marker, is parsed into exactly one
    suggestion that gives back the three fields and carries the equipment of
    the request; the fields are not empty and have nothing to trim, the name
    has no opening and the number no closing bracket, and the description
    stays on the line. *)
Theorem part_line_round_trip
    (rnd : nat -> Q) (d : nat) (request : LLMRequest.t)
    (before after name number description : string) :
  tidy name → allChars (isNot "(") name = true →
  tidy number → allChars (isNot ")") number = true →
  tidy description → allChars (isNot Parser.nl) description = true →
  before = "" ∨ (∃ b, before = b +:+ newline) →
  after = "" ∨ (∃ q, after = newline +:+ q) →
  mentions before "part:" = false →
  mentions after "part:" = false →
  LLMResponse.suggestions
    (Parser.parseAIResponse rnd d
       (before +:+ partLineOf name number description +:+ after) request).1
  = Some [PartSuggestion.Build number name (Parser.equipmentOf request)
            (Parser.placeholderPrice (rnd d)) (Parser.placeholderStock (rnd (S d)))
            true description].
Proof.
  intros Tn An Tm Am Td Ad Hb Ha Mb Ma.
  assert (Hline : ∀ bos, Regex.matchAllFrom true bos Parser.partPattern 0
                           (partLineOf name number description +:+ after)
                         = [partLineOf name number description]).
  { intros bos. by apply partLineOf_only_match. }
  assert (Hall : Regex.matchAll true Parser.partPattern
                   (before +:+ partLineOf name number description +:+ after)
                 = Some [partLineOf name number description]).
  { unfold Regex.matchAll.
    destruct Hb as [->|[b ->]].
    - rewrite append_nil. by rewrite Hline.
    - unfold newline in *. rewrite append_assoc.
      change (String Parser.nl "" +:+ partLineOf name number description +:+ after)
        with (String Parser.nl (partLineOf name number description +:+ after)).
      by rewrite (skip_unmarked_lines _ _ Hline b true Mb). }
  rewrite parse_suggestions, Hall.
  cbn [fmap option_fmap option_map Parser.suggestionsOf].
  by rewrite suggestionOf_partLineOf.
Qed.

Lemma part_line_round_trip_witness :
  LLMResponse.suggestions
    (Parser.parseAIResponse evenDraws 4
       (("You will need two things." +:+ newline)
          +:+ partLineOf "Fuel Filter" "326-1644" "traps water before the injectors"
          +:+ (newline +:+ "Change it with the engine cold."))
       (ask "engine loses power" None)).1
  = Some [PartSuggestion.Build "326-1644" "Fuel Filter"
            (Parser.equipmentOf (ask "engine loses power" None))
            (Parser.placeholderPrice (evenDraws 4))
            (Parser.placeholderStock (evenDraws 5))
            true "traps water before the injectors"].
Proof.
  apply (part_line_round_trip evenDraws 4 (ask "engine loses power" None)
           ("You will need two things." +:+ newline)
           (newline +:+ "Change it with the engine cold.")
           "Fuel Filter" "326-1644" "traps water before the injectors").
  - split; [discriminate|vm_compute; reflexivity].
  - vm_compute; reflexivity.
  - split; [discriminate|vm_compute; reflexivity].
  - vm_compute; reflexivity.
  - split; [discriminate|vm_compute; reflexivity].
  - vm_compute; reflexivity.
  - right. eexists. reflexivity.
  - right. eexists. reflexivity.
  - vm_compute. reflexivity.
  - vm_compute. reflexivity.
Defined.

(* ===================================================================== *)
(** ** Further properties: the request of the assistant screen *)
(* ===================================================================== *)

Section ScreenRequest.
Import Text.

Lemma sliceLast_sliceLast {A : Type} (a b : nat) (l : list A) :
  a ≤ b → sliceLast a (sliceLast b l) = sliceLast a l.
Proof.
  intros Hab. unfold sliceLast. rewrite drop_drop, length_drop. f_equal. lia.
Qed.

Lemma sliceLast_snoc {A : Type} (n : nat) (l : list A) (x : A) :
  sliceLast (S n) (l ++ [x]) = sliceLast n l ++ [x].
Proof.
  unfold sliceLast. rewrite length_app. cbn [length].
  replace (length l + 1 - S n) with (length l - n) by lia.
  apply drop_app_le. lia.
Qed.

Lemma historyLines_snoc turns role content :
  historyLines (turns ++ [(role, content)])
  = historyLines turns +:+ Role_text role +:+ ": " +:+ content +:+ newline.
Proof. unfold historyLines. by rewrite foldl_app. Qed.

End ScreenRequest.

(** X20. The request the assistant screen sends, and the prompt built from it.
    Whenever [handleSendMessage] sends a request, no other request is in
    progress, the message is not empty and no provider is named; and the
    prompt built for it ends its conversation block with the message itself,
    after the last two turns of the earlier conversation: the six turns the
    screen passes on are cut to three, of which the new message is one. *)
Theorem screen_request_prompt
    (userId : option string) (userEquipment : list string)
    (conversationHistory : list (Role * string)) (isProcessing : bool)
    (text : option string) (inputText : string) (request : LLMRequest.t) :
  handleSendMessage userId userEquipment conversationHistory isProcessing text inputText
  = Some request →
  let message := LLMRequest.message request in
  isProcessing = false
  ∧ message ≠ ""
  ∧ message = Text.orElse (default "" text) (Text.trim inputText)
  ∧ LLMRequest.provider request = None
  ∧ buildCatCentralPrompt request
    = ("User Query: " +:+ message +:+ newline +:+ newline)
      +:+ match userEquipment with
          | [] => ""
          | _ => "User Equipment: " +:+ Text.join ", " userEquipment +:+ newline
          end
      +:+ ("Previous Conversation:" +:+ newline)
      +:+ historyLines (sliceLast 2 conversationHistory)
      +:+ ("user: " +:+ message +:+ newline)
      +:+ newline
      +:+ "Please provide a helpful response about Caterpillar equipment, parts, or maintenance.".
Proof.
  unfold handleSendMessage.
  set (msg := Text.orElse (default "" text) (Text.trim inputText)).
  destruct (String.eqb msg "") eqn:Hmsg; [discriminate|].
  destruct isProcessing; [discriminate|].
  cbn [orb]. intros [= <-]. cbn [LLMRequest.message LLMRequest.provider].
  apply String.eqb_neq in Hmsg.
  split; [reflexivity|]. split; [exact Hmsg|]. split; [reflexivity|].
  split; [reflexivity|].
  unfold buildCatCentralPrompt.
  cbn [LLMRequest.message LLMRequest.context mbind option_bind
       Context.equipmentSerialNumbers Context.conversationHistory].
  assert (Hh : sliceLast 3 (sliceLast 6 (conversationHistory ++ [(user, msg)]))
               = sliceLast 2 conversationHistory ++ [(user, msg)]).
  { rewrite sliceLast_sliceLast by lia. apply sliceLast_snoc. }
  destruct (sliceLast 6 (conversationHistory ++ [(user, msg)])) as [|t ts] eqn:Hs.
  { rewrite sliceLast_snoc in Hs. by destruct (sliceLast 5 conversationHistory). }
  change (drop (length (t :: ts) - 3) (t :: ts)) with (sliceLast 3 (t :: ts)).
  rewrite Hh, historyLines_snoc.
  destruct userEquipment as [|x xs]; rewrite ?append_assoc; reflexivity.
Qed.

Lemma screen_request_prompt_witness :
  false = false
  ∧ "how often do I grease the boom" ≠ ""
  ∧ "how often do I grease the boom"
    = Text.orElse (default "" None) (Text.trim "  how often do I grease the boom ")
  ∧ (None : option ProviderKey) = None
  ∧ buildCatCentralPrompt
      (LLMRequest.Build "how often do I grease the boom"
         (Some (Context.Build (Some "u-17") (Some ["CAT0320"; "CAT0950"]) None
                  (Some [(assistant, "Which machine is it?");
                         (user, "the 320 excavator");
                         (assistant, "It is listed under filters.");
                         (user, "thanks");
                         (assistant, "You are welcome.");
                         (user, "how often do I grease the boom")])))
         None)
    = ("User Query: " +:+ "how often do I grease the boom" +:+ newline +:+ newline)
      +:+ ("User Equipment: " +:+ Text.join ", " ["CAT0320"; "CAT0950"] +:+ newline)
      +:+ ("Previous Conversation:" +:+ newline)
      +:+ historyLines
            (sliceLast 2 [(user, "where is the oil filter");
                          (assistant, "Which machine is it?");
                          (user, "the 320 excavator");
                          (assistant, "It is listed under filters.");
                          (user, "thanks");
                          (assistant, "You are welcome.")])
      +:+ ("user: " +:+ "how often do I grease the boom" +:+ newline)
      +:+ newline
      +:+ "Please provide a helpful response about Caterpillar equipment, parts, or maintenance.".
Proof.
  apply (screen_request_prompt (Some "u-17") ["CAT0320"; "CAT0950"]
           [(user, "where is the oil filter");
            (assistant, "Which machine is it?");
            (user, "the 320 excavator");
            (assistant, "It is listed under filters.");
            (user, "thanks");
            (assistant, "You are welcome.")]
           false None "  how often do I grease the boom "
           (LLMRequest.Build "how often do I grease the boom"
              (Some (Context.Build (Some "u-17") (Some ["CAT0320"; "CAT0950"]) None
                       (Some [(assistant, "Which machine is it?");
                              (user, "the 320 excavator");
                              (assistant, "It is listed under filters.");
                              (user, "thanks");
                              (assistant, "You are welcome.");
                              (user, "how often do I grease the boom")])))
              None)).
  vm_compute. reflexivity.
Defined.

(* ===================================================================== *)
(** ** Further properties: numbered steps *)
(* ===================================================================== *)

Section StepsRoundTrip.
Import Text Regex Parser.

Local Abbreviation stepBody :=
  (Cat (Plus digit) (Cat (Chr ".") (Cat (Rep true dot) (Opt (Chr nl))))).

Lemma digit_facts c :
  isDigit c = true →
  isWhiteSpace c = false ∧ charEq true c nl = false ∧ isNot nl c = true.
Proof.
  destruct c as [[] [] [] [] [] [] [] []]; vm_compute; intros H;
    first [discriminate H | by repeat split].
Qed.

Lemma inline_not_nl c : negb (isLineTerminator c) = true → isNot nl c = true.
Proof.
  destruct c as [[] [] [] [] [] [] [] []]; vm_compute; intros H;
    first [discriminate H | reflexivity].
Qed.

Lemma allChars_impl (f g : ascii → bool) s :
  (∀ c, f c = true → g c = true) → allChars f s = true → allChars g s = true.
Proof.
  intros Hfg. induction s as [|c s IH]; [reflexivity|]. cbn [allChars].
  intros H. apply andb_prop in H as [Hc Hs]. by rewrite (Hfg c Hc), (IH Hs).
Qed.

Lemma run_Alt ic bos r1 r2 k st :
  run ic bos (Alt r1 r2) k st
  = match run ic bos r1 k st with
    | Some x => Some x
    | None => run ic bos r2 k st
    end.
Proof. reflexivity. Qed.

Lemma stepText_length item :
  String.length (stepText item +:+ newline)
  = String.length (fst item) + 1 + (1 + String.length (snd item)) + 1.
Proof.
  unfold stepText, newline. rewrite !length_append. cbn [String.length]. lia.
Qed.

(** One numbered line is one iteration of the repeated group. *)
Lemma run_stepBody bos k x item rest u cs :
  stepItem item →
  k (MState rest (u + String.length (stepText item +:+ newline)) cs) = Some x →
  run true bos stepBody k (MState ((stepText item +:+ newline) +:+ rest) u cs) = Some x.
Proof.
  intros (Hne & Hd & Ht & Hl) Hk. destruct item as [n t]. cbn [fst snd] in *.
  destruct n as [|a n]; [done|]. cbn [allChars] in Hd.
  apply andb_prop in Hd as [Ha Hd].
  unfold stepText, newline. cbn [fst snd]. rewrite !append_assoc, append_cons.
  unfold Plus at 1. rewrite !run_Cat. unfold digit at 1. rewrite run_Cls, Ha.
  apply (rep_class_greedy true bos isDigit _ _ n); [exact Hd|reflexivity|].
  rewrite run_Cat. change (Chr ".") with (Lit ".").
  rewrite (run_Lit_ok true bos "." _ (" " +:+ t +:+ String nl "" +:+ rest)).
  cbv beta. rewrite run_Cat.
  rewrite <- (append_assoc " " t).
  apply (rep_class_greedy true bos (fun c => negb (isLineTerminator c)) _ _ (" " +:+ t)).
  { rewrite allChars_app. by rewrite Hl. }
  { reflexivity. }
  unfold Opt. rewrite run_Alt.
  change (run true bos (Chr nl) ?k0 (MState (String nl "" +:+ rest) ?v ?c0))
    with (k0 (MState rest (S v) c0)).
  match goal with
  | |- context [k (MState rest ?v cs)] =>
      replace v with (u + String.length (stepText (String a n, t) +:+ newline))
        by (rewrite stepText_length, !length_append; cbn [fst snd String.length]; lia)
  end.
  by rewrite Hk.
Qed.

Lemma stepBody_stops bos k rest u cs :
  stopsAt isDigit rest = true →
  run true bos stepBody k (MState rest u cs) = None.
Proof.
  intros H. unfold Plus. rewrite !run_Cat. unfold digit at 1. rewrite run_Cls.
  destruct rest as [|a rest]; [reflexivity|].
  cbn [stopsAt] in H. apply negb_true_iff in H. by rewrite H.
Qed.

Lemma stepBlock_length_pos item :
  0 < String.length (stepText item +:+ newline).
Proof. rewrite stepText_length. lia. Qed.

(** The repeated group takes every numbered line and stops where the next
    line does not begin with a digit. *)
Lemma run_stepLines bos k x : ∀ items rest u cs,
  Forall stepItem items → stopsAt isDigit rest = true →
  k (MState rest (u + String.length (stepBlock items)) cs) = Some x →
  run true bos (Rep true stepBody) k (MState (stepBlock items +:+ rest) u cs) = Some x.
Proof.
  induction items as [|item items IH]; intros rest u cs Hit Hstop Hk.
  - cbn [stepBlock String.length] in *. rewrite append_nil, Nat.add_0_r in *.
    rewrite run_Rep, rep_greedy_S, stepBody_stops by exact Hstop. exact Hk.
  - apply Forall_cons in Hit as [Hi Hit]. cbn [stepBlock] in *.
    rewrite <- (append_assoc (stepText item) newline) in *.
    rewrite length_append in Hk. rewrite append_assoc.
    pose proof (stepBlock_length_pos item) as Hpos.
    rewrite run_Rep, rep_greedy_S.
    erewrite run_stepBody; [reflexivity|exact Hi|].
    cbn [used ahead].
    assert (Hlt : Nat.ltb u (u + String.length (stepText item +:+ newline)) = true)
      by (apply Nat.ltb_lt; lia).
    rewrite Hlt.
    set (st' := MState (stepBlock items +:+ rest)
                  (u + String.length (stepText item +:+ newline)) cs).
    rewrite (rep_fuel true bos (used st' + String.length (ahead st')) stepBody true k
               _ (S (String.length (ahead st'))) st').
    + apply IH; [exact Hit|exact Hstop|]. by rewrite <- Nat.add_assoc.
    + reflexivity.
    + subst st'. cbn [ahead]. rewrite !length_append.
      pose proof (stepBlock_length_pos item). rewrite length_append in *. lia.
    + lia.
Qed.

Local Abbreviation stepsHead :=
  (Alt (Cat (Lit "Step") (Opt (Chr "s"))) (Cat (Lit "Action") (Opt (Chr "s")))).

Local Abbreviation stepsTail :=
  (Cat (Chr ":") (Cat (Rep true ws) (Cat (Chr nl) (Cap 1 (Plus stepBody))))).

Lemma stepsPattern_parts : stepsPattern = Cat stepsHead stepsTail.
Proof. reflexivity. Qed.

(** Each of the four headers is matched whole when a colon follows. *)
Lemma run_stepsHead bos R k x header rest u cs :
  header ∈ ["Step"; "Steps"; "Action"; "Actions"] →
  run true bos R k (MState (String ":" rest) (String.length header + u) cs) = Some x →
  run true bos (Cat stepsHead R) k (MState (header +:+ String ":" rest) u cs) = Some x.
Proof.
  rewrite !elem_of_cons, elem_of_nil.
  intros [->|[->|[->|[->|[]]]]] Hk; cbn [String.length Nat.add] in Hk;
    rewrite !append_cons, append_nil; cbn; unfold step; cbn; by rewrite Hk.
Qed.

(** After the colon the line must end at once: the white space the pattern
    allows there gives the line break back, and the numbered lines that
    follow are captured together. *)
Lemma run_stepsTail bos item items after u :
  stepItem item → Forall stepItem items → stopsAt isDigit after = true →
  run true bos stepsTail Some
    (MState (String ":" (String nl (stepBlock (item :: items) +:+ after))) u [])
  = Some (MState after (S (S u) + String.length (stepBlock (item :: items)))
            [(1, stepBlock (item :: items))]).
Proof.
  intros Hi Hit Hstop.
  set (block := stepBlock (item :: items)).
  assert (Hhead : ∃ a tl, block +:+ after = String a tl ∧ isDigit a = true).
  { destruct Hi as (Hne & Hd & _). destruct item as [[|a n] t]; [done|].
    cbn [fst allChars] in Hd. apply andb_prop in Hd as [Ha _].
    exists a. eexists. split; [|exact Ha]. subst block. cbn [stepBlock].
    unfold stepText. cbn [fst snd]. rewrite !append_cons. reflexivity. }
  destruct Hhead as (a & tl & Hb & Ha).
  destruct (digit_facts a Ha) as (Hws & Hnl & _).
  rewrite run_Cat. change (Chr ":") with (Lit ":").
  rewrite (run_Lit_ok true bos ":" _ (String nl (block +:+ after))). cbv beta.
  rewrite run_Cat, run_Rep, rep_greedy_S. unfold ws at 1. rewrite run_Cls.
  change (isWhiteSpace nl) with true. cbv iota. cbn [used ahead].
  assert (Hlt : Nat.ltb (u + String.length ":") (S (u + String.length ":")) = true)
    by (apply Nat.ltb_lt; lia).
  rewrite Hlt. cbn [String.length]. rewrite Hb at 1 2.
  rewrite rep_greedy_S. unfold ws. rewrite run_Cls, Hws, run_Cat.
  assert (Hno : ∀ k v c0, run true bos (Chr nl) k (MState (String a tl) v c0) = None).
  { intros k v c0. cbn [run ahead]. by rewrite Hnl. }
  rewrite Hno. rewrite run_Cat.
  change (run true bos (Chr nl) ?k0 (MState (String nl ?s0) ?v ?c0))
    with (k0 (MState s0 (S v) c0)).
  cbv beta. rewrite run_Cap. unfold Plus at 1. rewrite run_Cat.
  subst block. cbn [stepBlock]. rewrite <- (append_assoc (stepText item) newline).
  rewrite append_assoc.
  apply run_stepBody; [exact Hi|].
  apply run_stepLines; [exact Hit|exact Hstop|].
  cbn [ahead used caps].
  rewrite <- append_assoc, <- Nat.add_assoc, <- length_append.
  replace (S (u + 1) + String.length ((stepText item +:+ newline) +:+ stepBlock items)
           - S (u + 1))
    with (String.length ((stepText item +:+ newline) +:+ stepBlock items)) by lia.
  rewrite substring_prefix. do 2 f_equal. lia.
Qed.

(** The pattern matches a header, a colon, the end of the line and the
    numbered lines after it, and captures those lines. *)
Lemma exec_stepsPattern bos header item items after :
  header ∈ ["Step"; "Steps"; "Action"; "Actions"] →
  stepItem item → Forall stepItem items → stopsAt isDigit after = true →
  ∃ matched,
    exec true bos stepsPattern
      (header +:+ ":" +:+ newline +:+ stepBlock (item :: items) +:+ after)
    = Some (Found matched [(1, stepBlock (item :: items))] after).
Proof.
  intros Hh Hi Hit Hstop. eexists. unfold exec.
  rewrite stepsPattern_parts.
  change (":" +:+ newline +:+ stepBlock (item :: items) +:+ after)
    with (String ":" (String nl (stepBlock (item :: items) +:+ after))).
  erewrite run_stepsHead; [|exact Hh|by apply run_stepsTail].
  cbn [used caps ahead]. reflexivity.
Qed.

(** *** From the captured lines to the list of steps *)

Lemma split_at sep a b :
  allChars (isNot sep) a = true → split sep (a +:+ String sep b) = a :: split sep b.
Proof.
  induction a as [|c a IH]; intros H.
  - rewrite append_nil. cbn [split]. by rewrite Ascii.eqb_refl.
  - cbn [allChars] in H. apply andb_prop in H as [Hc Ha].
    unfold isNot in Hc. apply negb_true_iff in Hc.
    rewrite append_cons. cbn [split]. by rewrite Hc, (IH Ha).
Qed.

Lemma stepText_inline item :
  stepItem item → allChars (isNot nl) (stepText item) = true.
Proof.
  intros (_ & Hd & _ & Hl). unfold stepText. rewrite !allChars_app.
  rewrite (allChars_impl isDigit (isNot nl) _ (fun c H => proj2 (proj2 (digit_facts c H))) Hd).
  by rewrite (allChars_impl _ (isNot nl) _ inline_not_nl Hl).
Qed.

Lemma split_stepBlock : ∀ items,
  Forall stepItem items → split nl (stepBlock items) = (stepText <$> items) ++ [""].
Proof.
  induction items as [|item items IH]; intros H; [reflexivity|].
  apply Forall_cons in H as [Hi Hit]. cbn [stepBlock]. unfold newline.
  change (String nl "" +:+ stepBlock items) with (String nl (stepBlock items)).
  rewrite split_at by (by apply stepText_inline). by rewrite (IH Hit).
Qed.

Lemma trimEnd_keeps c s : isWhiteSpace c = false → trimEnd (String c s) ≠ "".
Proof. intros H. cbn [trimEnd]. rewrite H. by destruct (trimEnd s). Qed.

Lemma stepText_kept item :
  stepItem item → truthy (trim (stepText item)) = true.
Proof.
  intros (Hne & Hd & _). destruct item as [[|a n] t]; [done|].
  cbn [fst allChars] in Hd. apply andb_prop in Hd as [Ha _].
  destruct (digit_facts a Ha) as (Hws & _).
  unfold stepText. cbn [fst snd]. rewrite append_cons.
  unfold trim. cbn [trimStart]. rewrite Hws.
  pose proof (trimEnd_keeps a (n +:+ ". " +:+ t) Hws) as Hk.
  by destruct (trimEnd (String a (n +:+ ". " +:+ t))).
Qed.

(** Removing the number, the dot and the white space after it leaves the
    text of the step. *)
Lemma stepText_cleaned item :
  stepItem item →
  trim (removeFirst false stepNumberPattern (stepText item)) = snd item.
Proof.
  intros (Hne & Hd & Ht & _). destruct item as [[|a n] t]; [done|].
  cbn [fst snd allChars] in *. apply andb_prop in Hd as [Ha Hd].
  destruct (tidy_head t Ht) as [Hh _].
  assert (Hrun : run false true stepNumberPattern Some
                   (MState (stepText (String a n, t)) 0 [])
                 = Some (MState t (S (String.length n) + 1 + 1) [])).
  { unfold stepNumberPattern, stepText. cbn [Seq fst snd].
    rewrite run_Cat.
    change (run false true Bos ?k0 (MState ?s0 0 ?c0)) with (k0 (MState s0 0 c0)).
    cbv beta. unfold Plus. rewrite !run_Cat, append_cons. unfold digit at 1.
    rewrite run_Cls, Ha.
    apply (rep_class_greedy false true isDigit _ _ n); [exact Hd|reflexivity|].
    rewrite run_Cat. change (Chr ".") with (Lit ".").
    rewrite (run_Lit_ok false true "." _ (" " +:+ t)). cbv beta.
    apply (rep_class_greedy false true isWhiteSpace _ _ " "); [reflexivity|exact Hh|].
    cbn [String.length]. do 2 f_equal. }
  unfold removeFirst, search.
  assert (E : ∃ matched, exec false true stepNumberPattern (stepText (String a n, t))
                         = Some (Found matched [] t)).
  { eexists. unfold exec. rewrite Hrun. reflexivity. }
  destruct E as [matched E]. rewrite (searchFrom_hit _ _ _ _ _ E).
  cbn [Regex.after]. rewrite append_nil. by destruct Ht.
Qed.

Lemma stepsOf_stepBlock matched rest items :
  Forall stepItem items →
  stepsOf (Found matched [(1, stepBlock items)] rest) = snd <$> items.
Proof.
  intros H. unfold stepsOf. change (group 1 _) with (Some (stepBlock items)).
  cbv iota beta. rewrite (split_stepBlock items H).
  induction items as [|item items IH]; [reflexivity|].
  apply Forall_cons in H as [Hi Hit].
  cbn [fmap list_fmap app List.filter]. rewrite (stepText_kept item Hi).
  rewrite fmap_cons. cbv beta. rewrite (stepText_cleaned item Hi). f_equal.
  by apply IH.
Qed.

(** *** The lines before the header *)

Lemma stepsPattern_miss bos s :
  litMatches true "Step:" s = false → litMatches true "Steps:" s = false →
  litMatches true "Action:" s = false → litMatches true "Actions:" s = false →
  exec true bos stepsPattern s = None.
Proof.
  intros H1 H2 H3 H4. destruct stepsPattern_shape as [R ->].
  unfold exec. cbn [run].
  pose proof (word_colon_fail bos "Step" R Some (MState s 0 []) H1 H2) as E1.
  pose proof (word_colon_fail bos "Action" R Some (MState s 0 []) H3 H4) as E2.
  cbn [run] in E1, E2. by rewrite E1, E2.
Qed.

(** A literal without a line break is matched within one line. *)
Lemma litMatches_line ic lit :
  allChars (fun c => negb (charEq ic nl c)) lit = true →
  ∀ x r1 r2, litMatches ic lit (x +:+ String nl r1)
             = litMatches ic lit (x +:+ String nl r2).
Proof.
  induction lit as [|c lit IH]; intros H x r1 r2; [reflexivity|].
  cbn [allChars] in H. apply andb_prop in H as [Hc Hl].
  apply negb_true_iff in Hc.
  destruct x as [|a x]; rewrite ?append_nil, ?append_cons; cbn [litMatches].
  - by rewrite Hc.
  - by rewrite (IH Hl x r1 r2).
Qed.

Lemma line_miss lit x rest :
  allChars (fun c => negb (charEq true nl c)) lit = true →
  mentions (x +:+ newline) (toLowerCase lit) = false →
  litMatches true lit (x +:+ String nl rest) = false.
Proof.
  intros Hl Hm. rewrite (litMatches_line true lit Hl x rest "").
  by apply absent_lit.
Qed.

(** Lines that carry none of the four headers are passed over. *)
Lemma steps_search_skip rest caught post :
  (∀ bos, ∃ matched,
     exec true bos stepsPattern rest = Some (Found matched caught post)) →
  ∀ b bos,
    mentions (b +:+ newline) "step:" = false →
    mentions (b +:+ newline) "steps:" = false →
    mentions (b +:+ newline) "action:" = false →
    mentions (b +:+ newline) "actions:" = false →
    ∃ matched,
      snd <$> searchFrom true bos stepsPattern (b +:+ String nl rest)
      = Some (Found matched caught post).
Proof.
  intros Hrest.
  induction b as [|c b IH]; intros bos H1 H2 H3 H4.
  - rewrite append_nil. cbn [searchFrom].
    rewrite stepsPattern_miss by reflexivity.
    destruct (Hrest false) as [matched E].
    rewrite (searchFrom_hit _ _ _ _ _ E). by exists matched.
  - rewrite append_cons. cbn [searchFrom]. rewrite <- append_cons.
    rewrite stepsPattern_miss
      by (apply line_miss; [reflexivity|assumption]).
    destruct (IH false) as [matched E]; [by eapply absent_later..|].
    exists matched.
    destruct (searchFrom true false stepsPattern (b +:+ String nl rest))
      as [[skipped m]|]; [exact E|discriminate].
Qed.

End StepsRoundTrip.

(** X21. Round trip of a numbered list.  A header [Step], [Steps], [Action]
    or [Actions] with a colon at the end of its line, followed by lines
    written [<number>. <text>] and then by nothing or by a line that does not
    begin with a digit, is parsed into the list of the texts, in order and
    without their numbers; the header comes first or after lines that carry
    none of the four headers, every number is made of digits, and every text
    stays on its line, is not empty and has nothing to trim. *)
Theorem numbered_steps_round_trip
    (rnd : nat -> Q) (d : nat) (request : LLMRequest.t)
    (intro header after : string) (items : list (string * string)) :
  header ∈ ["Step"; "Steps"; "Action"; "Actions"] →
  items ≠ [] → Forall stepItem items →
  intro = "" ∨ (∃ b, intro = b +:+ newline) →
  mentions intro "step:" = false → mentions intro "steps:" = false →
  mentions intro "action:" = false → mentions intro "actions:" = false →
  stopsAt Text.isDigit after = true →
  LLMResponse.troubleshootingSteps
    (Parser.parseAIResponse rnd d
       (intro +:+ header +:+ ":" +:+ newline +:+ stepBlock items +:+ after) request).1
  = Some (snd <$> items).
Proof.
  intros Hh Hne Hit Hintro H1 H2 H3 H4 Hstop.
  destruct items as [|item items]; [done|].
  pose proof Hit as Hall. apply Forall_cons in Hit as [Hi Hit].
  assert (Hexec : ∀ bos, ∃ matched,
             Regex.exec true bos Parser.stepsPattern
               (header +:+ ":" +:+ newline +:+ stepBlock (item :: items) +:+ after)
             = Some (Regex.Found matched [(1, stepBlock (item :: items))] after)).
  { intros bos. by apply exec_stepsPattern. }
  assert (Hsearch : ∃ matched,
             snd <$> Regex.search true Parser.stepsPattern
                       (intro +:+ header +:+ ":" +:+ newline
                          +:+ stepBlock (item :: items) +:+ after)
             = Some (Regex.Found matched [(1, stepBlock (item :: items))] after)).
  { unfold Regex.search. destruct Hintro as [->|[b ->]].
    - rewrite append_nil. destruct (Hexec true) as [matched E].
      rewrite (searchFrom_hit _ _ _ _ _ E). by exists matched.
    - unfold newline in *. rewrite append_assoc.
      change (String Parser.nl "" +:+ ?s) with (String Parser.nl s).
      by apply steps_search_skip. }
  destruct Hsearch as [matched E].
  unfold Parser.parseAIResponse. cbn [fst LLMResponse.troubleshootingSteps].
  rewrite E. cbn [fmap option_fmap option_map].
  by rewrite (stepsOf_stepBlock matched after (item :: items) Hall).
Qed.

Lemma numbered_steps_round_trip_witness :
  LLMResponse.troubleshootingSteps
    (Parser.parseAIResponse evenDraws 0
       (("The pump is losing pressure." +:+ newline) +:+ "Steps" +:+ ":" +:+ newline
          +:+ stepBlock [("1", "Check the hydraulic oil level");
                         ("2", "Inspect the suction hose");
                         ("10", "Call your dealer")]
          +:+ (newline +:+ "Stay safe."))
       (ask "pump pressure is low" None)).1
  = Some (snd <$> [("1", "Check the hydraulic oil level");
                   ("2", "Inspect the suction hose");
                   ("10", "Call your dealer")]).
Proof.
  apply (numbered_steps_round_trip evenDraws 0 (ask "pump pressure is low" None)
           ("The pump is losing pressure." +:+ newline) "Steps"
           (newline +:+ "Stay safe.")
           [("1", "Check the hydraulic oil level");
            ("2", "Inspect the suction hose");
            ("10", "Call your dealer")]).
  - rewrite !elem_of_cons. right. left. reflexivity.
  - discriminate.
  - repeat (apply Forall_cons; split;
            [split; [discriminate|];
             split; [vm_compute; reflexivity|];
             split; [split; [discriminate|vm_compute; reflexivity]|];
             vm_compute; reflexivity|]).
    apply Forall_nil. exact I.
  - right. eexists. reflexivity.
  - vm_compute. reflexivity.
  - vm_compute. reflexivity.
  - vm_compute. reflexivity.
  - vm_compute. reflexivity.
  - vm_compute. reflexivity.
Defined.

(* ===================================================================== *)
(** ** Further properties: the fault-code block *)
(* ===================================================================== *)

Section FaultRoundTrip.
Import Text Regex Parser.

Lemma rep_lazy_S body k fuel st :
  rep body false k (S fuel) st
  = match k st with
    | Some x => Some x
    | None => body (fun st' => if Nat.ltb (used st) (used st')
                               then rep body false k fuel st' else None) st
    end.
Proof. reflexivity. Qed.

(** A lazy [[\s\S]*?] gives up one character when what follows the
    repetition fails in front of it and succeeds behind it. *)
Lemma lazy_skip_one ic bos k x c rest u cs :
  k (MState (String c rest) u cs) = None →
  k (MState rest (S u) cs) = Some x →
  run ic bos (Rep false anyChar) k (MState (String c rest) u cs) = Some x.
Proof.
  intros H1 H2. rewrite run_Rep, rep_lazy_S, H1. unfold anyChar. rewrite run_Cls.
  cbn [used ahead String.length].
  assert (Hlt : Nat.ltb u (S u) = true) by (apply Nat.ltb_lt; lia).
  by rewrite Hlt, rep_lazy_S, H2.
Qed.

Lemma split_ne sep s : split sep s ≠ [].
Proof.
  induction s as [|c s IH]; [done|]. cbn [split].
  destruct (Ascii.eqb c sep); [done|]. by destruct (split sep s).
Qed.

Lemma split_whole sep a : allChars (isNot sep) a = true → split sep a = [a].
Proof.
  induction a as [|c a IH]; intros H; [reflexivity|].
  cbn [allChars] in H. apply andb_prop in H as [Hc Ha].
  unfold isNot in Hc. apply negb_true_iff in Hc.
  cbn [split]. by rewrite Hc, (IH Ha).
Qed.

Lemma trim_after_space s : trim (String " " s) = trim s.
Proof. reflexivity. Qed.

Lemma trim_split_space s :
  trim <$> split "," (String " " s) = trim <$> split "," s.
Proof.
  cbn [split]. change (Ascii.eqb " " ",") with false. cbv iota.
  pose proof (split_ne "," s) as Hne.
  destruct (split "," s) as [|h t]; [done|].
  by rewrite !fmap_cons, trim_after_space.
Qed.

Lemma join_cons sep x y ys :
  join sep (x :: y :: ys) = x +:+ sep +:+ join sep (y :: ys).
Proof. reflexivity. Qed.

(** The entries of a list come back from the line that joins them. *)
Lemma split_join : ∀ entries,
  entries ≠ [] → Forall listEntry entries →
  trim <$> split "," (join ", " entries) = entries.
Proof.
  induction entries as [|x [|y ys] IH]; intros Hne H; [done| |].
  - apply Forall_cons in H as [[[Ht _] Hc] _]. cbn [join].
    rewrite (split_whole _ _ Hc). cbn [fmap list_fmap]. by destruct Ht as [_ ->].
  - apply Forall_cons in H as [[[Ht _] Hc] H]. rewrite join_cons.
    change (", " +:+ join ", " (y :: ys)) with (String "," (String " " (join ", " (y :: ys)))).
    rewrite (split_at _ _ _ Hc), fmap_cons, trim_split_space.
    rewrite IH by done. by destruct Ht as [_ ->].
Qed.

(** The line that joins the entries is a text on one line that begins with
    the first entry. *)
Lemma join_line : ∀ entries,
  entries ≠ [] → Forall listEntry entries →
  join ", " entries ≠ ""
  ∧ stopsAt isWhiteSpace (join ", " entries) = true
  ∧ allChars (isNot nl) (join ", " entries) = true.
Proof.
  induction entries as [|x [|y ys] IH]; intros Hne H; [done| |].
  - apply Forall_cons in H as [[[Ht Hl] _] _]. cbn [join].
    destruct (tidy_head x Ht) as [Hh _]. by destruct Ht.
  - apply Forall_cons in H as [[[Ht Hl] _] H]. rewrite join_cons.
    destruct (IH ltac:(done) H) as (_ & _ & Hrest).
    destruct (tidy_head x Ht) as [Hh _]. destruct Ht as [Hx _].
    destruct x as [|c x]; [done|]. rewrite append_cons. split; [done|].
    split; [exact Hh|].
    rewrite <- append_cons, !allChars_app, Hl, Hrest. reflexivity.
Qed.

Lemma faultBlockOf_parts code description severity causes actions after :
  faultBlockOf code description severity causes actions +:+ after
  = "Fault Code:" +:+ " " +:+ code +:+ " " +:+ "-" +:+ " " +:+ description
    +:+ String nl ("Severity:" +:+ " " +:+ severity
    +:+ String nl ("Possible Causes:" +:+ " " +:+ join ", " causes
    +:+ String nl ("Recommended Actions:" +:+ " " +:+ join ", " actions +:+ after))).
Proof. unfold faultBlockOf, newline. rewrite !append_assoc. reflexivity. Qed.

Lemma faultBlockOf_length code description severity causes actions :
  String.length (faultBlockOf code description severity causes actions)
  = 12 + String.length code + 3 + String.length description + 1
    + 10 + String.length severity + 1
    + 17 + String.length (join ", " causes) + 1
    + 21 + String.length (join ", " actions).
Proof.
  unfold faultBlockOf, newline. rewrite !length_append. cbn [String.length]. lia.
Qed.

Lemma lineField_head s :
  lineField s → s ≠ "" ∧ stopsAt isWhiteSpace s = true ∧ allChars (isNot nl) s = true.
Proof.
  intros [Ht Hl]. destruct (tidy_head s Ht) as [Hh _]. by destruct Ht.
Qed.

Ltac fault_white_space bos :=
  rewrite run_Cat;
  apply (rep_class_greedy true bos isWhiteSpace _ _ " "); [reflexivity| |].

Ltac fault_next_line bos :=
  rewrite run_Cat; apply lazy_skip_one;
  [cbv beta; rewrite run_Cat; apply run_Lit_fail; reflexivity
  |cbv beta; rewrite run_Cat, run_Lit_ok; cbv beta].

(** The pattern matches a block written in the requested layout, from its
    first to its last character, and captures its five fields. *)
Lemma run_faultBlock bos code description severity causes actions after :
  code ≠ "" → allChars (fun c => negb (isWhiteSpace c)) code = true →
  lineField description → lineField severity →
  causes ≠ [] → Forall listEntry causes →
  actions ≠ [] → Forall listEntry actions →
  stopsAt (isNot nl) after = true →
  ∃ n,
    run true bos faultCodePattern Some
      (MState (faultBlockOf code description severity causes actions +:+ after) 0 [])
    = Some (MState after n
              [(5, join ", " actions); (4, join ", " causes); (3, severity);
               (2, description); (1, code)])
    ∧ n = String.length (faultBlockOf code description severity causes actions).
Proof.
  intros Hcode Hc Hd Hs Hcn Hcs Han Has Hafter.
  destruct (lineField_head _ Hd) as (Hd0 & Hd1 & Hd2).
  destruct (lineField_head _ Hs) as (Hs0 & Hs1 & Hs2).
  destruct (join_line causes Hcn Hcs) as (Hc0 & Hc1 & Hc2).
  destruct (join_line actions Han Has) as (Ha0 & Ha1 & Ha2).
  assert (Hcode1 : ∀ tl, stopsAt isWhiteSpace (code +:+ tl) = true).
  { intros tl. destruct code as [|c code]; [done|]. rewrite append_cons.
    cbn [allChars] in Hc. apply andb_prop in Hc as [Hc _]. exact Hc. }
  assert (Hfront : ∀ s tl, s ≠ "" → stopsAt isWhiteSpace s = true →
                           stopsAt isWhiteSpace (s +:+ tl) = true).
  { intros s tl Hne H. destruct s; [done|exact H]. }
  rewrite faultBlockOf_parts, faultBlockOf_length.
  set (cl := join ", " causes) in *. set (al := join ", " actions) in *.
  eexists. split.
  - unfold faultCodePattern, ws, notChar, notSpace. cbn [Seq].
    rewrite run_Cat, run_Lit_ok. cbv beta.
    fault_white_space bos; [apply Hcode1|].
    rewrite run_Cat.
    apply (cap_plus_class true bos (fun c => negb (isWhiteSpace c)));
      [exact Hcode|exact Hc|reflexivity|].
    fault_white_space bos; [reflexivity|].
    rewrite run_Cat. change (Chr "-") with (Lit "-"). rewrite run_Lit_ok. cbv beta.
    fault_white_space bos; [by apply Hfront|].
    rewrite run_Cat.
    apply (cap_plus_class true bos (isNot nl)); [exact Hd0|exact Hd2|reflexivity|].
    fault_next_line bos.
    fault_white_space bos; [by apply Hfront|].
    rewrite run_Cat.
    apply (cap_plus_class true bos (isNot nl)); [exact Hs0|exact Hs2|reflexivity|].
    fault_next_line bos.
    fault_white_space bos; [by apply Hfront|].
    rewrite run_Cat.
    apply (cap_plus_class true bos (isNot nl)); [exact Hc0|exact Hc2|reflexivity|].
    fault_next_line bos.
    fault_white_space bos; [by apply Hfront|].
    apply (cap_plus_class true bos (isNot nl)); [exact Ha0|exact Ha2|exact Hafter|].
    reflexivity.
  - cbn [String.length]. lia.
Qed.

Lemma exec_faultBlock bos code description severity causes actions after :
  code ≠ "" → allChars (fun c => negb (isWhiteSpace c)) code = true →
  lineField description → lineField severity →
  causes ≠ [] → Forall listEntry causes →
  actions ≠ [] → Forall listEntry actions →
  stopsAt (isNot nl) after = true →
  exec true bos faultCodePattern
    (faultBlockOf code description severity causes actions +:+ after)
  = Some (Found (faultBlockOf code description severity causes actions)
            [(5, join ", " actions); (4, join ", " causes); (3, severity);
             (2, description); (1, code)]
            after).
Proof.
  intros Hcode Hc Hd Hs Hcn Hcs Han Has Hafter.
  destruct (run_faultBlock bos code description severity causes actions after
              Hcode Hc Hd Hs Hcn Hcs Han Has Hafter) as (n & Hrun & ->).
  unfold exec. rewrite Hrun. cbn [used caps ahead]. by rewrite substring_prefix.
Qed.

(** Lines that do not carry the literal a pattern opens with are passed
    over. *)
Lemma lit_search_skip lit r rest m :
  allChars (fun c => negb (charEq true nl c)) lit = true →
  (∀ bos, exec true bos (Cat (Lit lit) r) rest = Some m) →
  ∀ b bos,
    mentions (b +:+ newline) (toLowerCase lit) = false →
    snd <$> searchFrom true bos (Cat (Lit lit) r) (b +:+ String nl rest) = Some m.
Proof.
  intros Hlit Hrest.
  induction b as [|c b IH]; intros bos H.
  - pose proof (line_miss lit "" rest Hlit H) as E. rewrite append_nil in *.
    cbn [searchFrom]. rewrite exec_Lit_fail by exact E.
    by rewrite (searchFrom_hit _ _ _ _ _ (Hrest false)).
  - pose proof (line_miss lit (String c b) rest Hlit H) as E.
    rewrite append_cons in *. cbn [searchFrom]. rewrite exec_Lit_fail by exact E.
    specialize (IH false (absent_later _ _ _ H)).
    destruct (searchFrom true false (Cat (Lit lit) r) (b +:+ String nl rest))
      as [[skipped m']|]; [exact IH|discriminate].
Qed.

Lemma no_space_tidy s :
  s ≠ "" → allChars (fun c => negb (isWhiteSpace c)) s = true → tidy s.
Proof.
  intros Hne H. split; [exact Hne|]. unfold trim.
  destruct s as [|c s]; [done|]. cbn [allChars] in H. apply andb_prop in H as [Hc Hs].
  apply negb_true_iff in Hc. cbn [trimStart]. rewrite Hc. clear Hne.
  revert c Hc. induction s as [|a s IH]; intros c Hc.
  - cbn [trimEnd]. by rewrite Hc.
  - cbn [allChars] in Hs. apply andb_prop in Hs as [Ha Hs]. apply negb_true_iff in Ha.
    specialize (IH Hs a Ha). change (trimEnd (String c (String a s)))
      with (match trimEnd (String a s) with
            | "" => if isWhiteSpace c then "" else String c ""
            | t => String c t
            end).
    by rewrite IH.
Qed.

Lemma toLowerCase_truthy s : s ≠ "" → truthy (toLowerCase s) = true.
Proof. by destruct s. Qed.

End FaultRoundTrip.

(** X22. Round trip of the fault-code layout of the system prompt.  A block
    written [Fault Code: <code> - <description>], [Severity: <severity>],
    [Possible Causes: <causes>], [Recommended Actions: <actions>], one to a
    line with the entries of the two lists separated by a comma and a space,
    standing first or after lines without a [fault code:] marker, is parsed
    into the record of its five fields: the code, the description, the
    severity in lower case, and the two lists entry by entry; the code has no
    white space, the other fields stay on their line, are not empty and have
    nothing to trim, and no entry of a list has a comma. *)
Theorem fault_block_round_trip
    (rnd : nat -> Q) (d : nat) (request : LLMRequest.t)
    (intro after code description severity : string) (causes actions : list string) :
  code ≠ "" → allChars (fun c => negb (Text.isWhiteSpace c)) code = true →
  lineField description → lineField severity →
  causes ≠ [] → Forall listEntry causes →
  actions ≠ [] → Forall listEntry actions →
  intro = "" ∨ (∃ b, intro = b +:+ newline) →
  mentions intro "fault code:" = false →
  after = "" ∨ (∃ q, after = newline +:+ q) →
  LLMResponse.faultCodeInfo
    (Parser.parseAIResponse rnd d
       (intro +:+ faultBlockOf code description severity causes actions +:+ after)
       request).1
  = Some (FaultCodeInfo.Build code description (Text.toLowerCase severity)
            causes actions []).
Proof.
  intros Hcode Hc Hd Hs Hcn Hcs Han Has Hintro Hm Hafter.
  assert (Hstop : stopsAt (isNot Parser.nl) after = true).
  { destruct Hafter as [->|[q ->]]; reflexivity. }
  assert (Hexec : ∀ bos,
             Regex.exec true bos Parser.faultCodePattern
               (faultBlockOf code description severity causes actions +:+ after)
             = Some (Regex.Found (faultBlockOf code description severity causes actions)
                       [(5, Text.join ", " actions); (4, Text.join ", " causes);
                        (3, severity); (2, description); (1, code)]
                       after)).
  { intros bos. by apply exec_faultBlock. }
  assert (Hsearch :
            snd <$> Regex.search true Parser.faultCodePattern
                      (intro +:+ faultBlockOf code description severity causes actions
                         +:+ after)
            = Some (Regex.Found (faultBlockOf code description severity causes actions)
                      [(5, Text.join ", " actions); (4, Text.join ", " causes);
                       (3, severity); (2, description); (1, code)]
                      after)).
  { unfold Regex.search. destruct Hintro as [->|[b ->]].
    - rewrite append_nil. by rewrite (searchFrom_hit _ _ _ _ _ (Hexec true)).
    - unfold newline in *. rewrite append_assoc.
      change (String Parser.nl "" +:+ ?s) with (String Parser.nl s).
      assert (Hshape : ∃ r, Parser.faultCodePattern
                            = Regex.Cat (Regex.Lit "Fault Code:") r)
        by (eexists; reflexivity).
      destruct Hshape as [r Hr]. rewrite Hr in *.
      by apply (lit_search_skip "Fault Code:"). }
  unfold Parser.parseAIResponse. cbn [fst LLMResponse.faultCodeInfo].
  rewrite Hsearch. cbn [fmap option_fmap option_map]. unfold Parser.faultCodeInfoOf.
  change (Regex.group 1 _) with (Some code).
  change (Regex.group 2 _) with (Some description).
  change (Regex.group 3 _) with (Some severity).
  change (Regex.group 4 _) with (Some (Text.join ", " causes)).
  change (Regex.group 5 _) with (Some (Text.join ", " actions)).
  cbv iota.
  rewrite (trimmedOr_tidy code) by (by apply no_space_tidy).
  rewrite (trimmedOr_tidy description) by (by destruct Hd).
  rewrite !split_join by assumption.
  destruct Hs as [[Hs0 Hs1] _]. rewrite Hs1.
  unfold Text.orElse. by rewrite toLowerCase_truthy.
Qed.

Lemma fault_block_round_trip_witness :
  LLMResponse.faultCodeInfo
    (Parser.parseAIResponse evenDraws 0
       (("I looked it up." +:+ newline)
          +:+ faultBlockOf "E361-1" "High engine coolant temperature" "Critical"
                ["low coolant"; "blocked radiator"] ["stop the engine"; "let it cool"]
          +:+ (newline +:+ "Do not open the cap while hot."))
       (ask "what is E361" None)).1
  = Some (FaultCodeInfo.Build "E361-1" "High engine coolant temperature"
            (Text.toLowerCase "Critical")
            ["low coolant"; "blocked radiator"] ["stop the engine"; "let it cool"] []).
Proof.
  apply (fault_block_round_trip evenDraws 0 (ask "what is E361" None)
           ("I looked it up." +:+ newline)
           (newline +:+ "Do not open the cap while hot.")
           "E361-1" "High engine coolant temperature" "Critical"
           ["low coolant"; "blocked radiator"] ["stop the engine"; "let it cool"]).
  - discriminate.
  - vm_compute. reflexivity.
  - split; [split; [discriminate|]|]; vm_compute; reflexivity.
  - split; [split; [discriminate|]|]; vm_compute; reflexivity.
  - discriminate.
  - repeat (apply Forall_cons; split;
            [split; [split; [split; [discriminate|]|]|]; vm_compute; reflexivity|]).
    apply Forall_nil. exact I.
  - discriminate.
  - repeat (apply Forall_cons; split;
            [split; [split; [split; [discriminate|]|]|]; vm_compute; reflexivity|]).
    apply Forall_nil. exact I.
  - right. eexists. reflexivity.
  - vm_compute. reflexivity.
  - right. eexists. reflexivity.
Defined.
